(** * Spindlespace: rail network, cycle detection and timetables

    A shallow embedding of the network-and-time core of the Spindlespace
    generator ([core/models.py], [core/validators.py],
    [generators/railgen.py], [generators/schedgen.py]) together with the
    properties of it that are established below.

    Conventions of the embedding.
    - [str] is [string]; a Python [float] is an IEEE 754 binary64 value,
      here the primitive [float] of Rocq, with [+ - * /], [abs],
      [math.sqrt] and the comparisons being the IEEE operations.
    - [datetime] and [timedelta] are integers counting microseconds (the
      resolution of both Python types).  The year range of [datetime]
      (years 1 to 9999) is not modelled.
    - A [dict] is an association list in insertion order ([PyDict]); a
      frozen dataclass is a record.
    - What CPython leaves to the interpreter (the iteration order of a
      [set], the summation and power routines on floats, the generator
      behind [random.Random]) is gathered in the class [PyRuntime].
    - A [while] loop whose termination depends on the data, and the
      recursion of [strongconnect], run on fuel and answer [OutOfFuel] when
      the fuel is spent; an exception that leaves a function is the answer
      [Raise]. *)

From Stdlib Require Import ZArith Lia List Sorted Floats.
From stdpp Require Import gmap strings list.

Set Warnings "-inexact-float,-clear-no-such-hyp".

Local Open Scope Z_scope.

(** ** Results of loops that run on fuel *)

Inductive exn : Type :=
| KeyError | IndexError | ValueError | ZeroDivisionError.

Inductive outcome (A : Type) : Type :=
| Done (a : A)
| OutOfFuel
| Raise (e : exn).
Arguments Done {A} a.
Arguments OutOfFuel {A}.
Arguments Raise {A} e.

#[global] Instance outcome_bind : MBind outcome := fun A B k o =>
  match o with
  | Done a => k a
  | OutOfFuel => OutOfFuel
  | Raise e => Raise e
  end.

(** [d[k]] on a dictionary whose order is not observed *)
Definition getitem {V : Type} (d : gmap string V) (k : string) : outcome V :=
  match d !! k with
  | Some v => Done v
  | None => Raise KeyError
  end.

(** ** Time *)

Definition datetime := Z.
Definition timedelta := Z.

Definition timedelta_days (days : Z) : timedelta := days * 86400000000.
Definition timedelta_hours (hours : Z) : timedelta := hours * 3600000000.

(** [while cond(current): current += step] *)
Fixpoint advance_while (fuel : nat) (cond : datetime -> bool) (step : timedelta)
    (current : datetime) : outcome datetime :=
  match fuel with
  | O => OutOfFuel
  | S fuel' =>
      if cond current then advance_while fuel' cond step (current + step)
      else Done current
  end.

(** [for _ in range(count): departures.append(current); current += step] *)
Fixpoint append_departures (count : nat) (step : timedelta) (current : datetime)
    : list datetime :=
  match count with
  | O => []
  | S count' => current :: append_departures count' step (current + step)
  end.

(** [while current <= end_date: departures.append(current); current += step] *)
Fixpoint append_until (fuel : nat) (end_date : datetime) (step : timedelta)
    (current : datetime) : outcome (list datetime) :=
  match fuel with
  | O => OutOfFuel
  | S fuel' =>
      if current <=? end_date then
        rest ← append_until fuel' end_date step (current + step);
        Done (current :: rest)
      else Done []
  end.

(** ** Numbers *)

(** [float(n)] for an [int]: the nearest binary64 value. *)
Definition float_of_int (n : Z) : float :=
  SF2Prim (binary_normalize 53 1024 n 0 false).

(** [int(x)] for a [float]: truncation towards zero; a NaN or an infinity
    raises ([ValueError] stands for [OverflowError] too). *)
Definition int_of_float (x : float) : outcome Z :=
  match Prim2SF x with
  | S754_zero _ => Done 0
  | S754_finite s m e =>
      Done (cond_Zopp s (if 0 <=? e then Z.pos m * 2 ^ e else Z.pos m / 2 ^ (- e)))
  | _ => Raise ValueError
  end.

(** [x / y] on floats *)
Definition float_div (x y : float) : outcome float :=
  if PrimFloat.eqb y 0 then Raise ZeroDivisionError else Done (x / y)%float.

(** [math.sqrt(x)] *)
Definition math_sqrt (x : float) : outcome float :=
  if PrimFloat.ltb x 0 then Raise ValueError else Done (PrimFloat.sqrt x).

(** What the interpreter decides. *)
Class PyRuntime : Type := {
  (** [x ** 2] on a float, computed by the C library's [pow] *)
  float_sqr : float -> float;
  (** [sum(xs)] over floats, starting from the integer [0] *)
  float_sum : list float -> float;
  (** the order in which a [set] of strings is iterated after the given
      strings were added to it, in this order *)
  set_iter : list string -> list string;
  set_iter_perm : forall history : list string,
    Permutation (set_iter history) (remove_dups history);
  (** the state of a [random.Random], its [random()] and its
      [randint(a, b)], which lands in [a..b] *)
  Random : Type;
  Random_random : Random -> float * Random;
  Random_randint : Z -> Z -> Random -> Z * Random;
  Random_randint_range : forall (a b : Z) (rng : Random),
    a <= b -> a <= fst (Random_randint a b rng) <= b
}.

(** ** Data model ([core/models.py]) *)

Inductive RailClass : Type := RFC_A | RFC_B | RFC_C | RFC_D.

#[global] Instance RailClass_eq_dec : EqDecision RailClass.
Proof. solve_decision. Defined.

Module Rail.
Record t : Type := mk {
  id : string;
  from_system : string;
  to_system : string;
  rail_class : RailClass;
  length : float;
  construction_date : datetime;
  interval_days : Z;
  next_fire : datetime;
  gravitium_cost : float;
  max_capacity : float
}.

(** [dataclasses.replace(rail, next_fire=new_next_fire)] *)
Definition replace_next_fire (self : t) (new_next_fire : datetime) : t :=
  mk (id self) (from_system self) (to_system self) (rail_class self)
     (length self) (construction_date self) (interval_days self)
     new_next_fire (gravitium_cost self) (max_capacity self).

Definition next_departures (fuel : nat) (self : t) (from_time : datetime)
    (count : Z) : outcome (list datetime) :=
  current ← advance_while fuel (fun current => from_time >? current)
              (timedelta_days (interval_days self)) (next_fire self);
  Done (append_departures (Z.to_nat count)
          (timedelta_days (interval_days self)) current).
End Rail.

Module Schedule.
Record t : Type := mk {
  rail_id : string;
  departures : list datetime;
  transit_time : timedelta
}.

Fixpoint first_after (departures : list datetime) (after : datetime)
    : option datetime :=
  match departures with
  | [] => None
  | departure :: rest =>
      if departure >? after then Some departure else first_after rest after
  end.

Definition get_next_departure (self : t) (after : datetime) : option datetime :=
  first_after (departures self) after.
End Schedule.

(** ** Dictionaries in insertion order *)

Module PyDict.
Definition t (V : Type) : Type := list (string * V).

Definition keys {V : Type} (d : t V) : list string := map fst d.
Definition values {V : Type} (d : t V) : list V := map snd d.

Fixpoint get {V : Type} (d : t V) (k : string) : option V :=
  match d with
  | [] => None
  | (k', v) :: d' => if decide (k' = k) then Some v else get d' k
  end.

Definition contains {V : Type} (d : t V) (k : string) : bool :=
  bool_decide (is_Some (get d k)).

(** [d[k] = v]: an existing key keeps its place, a new key goes last. *)
Fixpoint set {V : Type} (d : t V) (k : string) (v : V) : t V :=
  match d with
  | [] => [(k, v)]
  | (k', v') :: d' =>
      if decide (k' = k) then (k, v) :: d' else (k', v') :: set d' k v
  end.
End PyDict.

Module Coordinate.
Record t : Type := mk { x : float; y : float; z : float }.

(** The argument of [math.sqrt] is a sum of squares, so that no
    [ValueError] is raised here. *)
Definition distance_to `{PyRuntime} (self other : t) : float :=
  PrimFloat.sqrt (float_sqr (x self - x other) +
                  float_sqr (y self - y other) +
                  float_sqr (z self - z other))%float.
End Coordinate.

(** The fields of [Planet], [System] and [Galaxy] that the embedded functions
    read; [CivilizationTier] is kept as its integer [value]. *)
Module Planet.
Record t : Type := mk {
  id : string;
  population : Z;
  resources : PyDict.t float
}.
End Planet.

Module System.
Record t : Type := mk {
  id : string;
  name : string;
  coord : Coordinate.t;
  planets : list Planet.t;
  population : Z;
  tech_level : Z;
  gravitium_deposits : float
}.

Definition total_population (self : t) : Z :=
  population self + foldl Z.add 0 (map Planet.population (planets self)).
End System.

Module Galaxy.
Record t : Type := mk {
  id : string;
  name : string;
  seed : Z;
  generation_time : datetime;
  systems : PyDict.t System.t;
  rails : PyDict.t Rail.t;
  source_vein_systems : list string
}.

(** The [for rail in self.rails.values()] loop of one [while] iteration of
    [get_route]: either the destination is met and the route is returned, or
    the loop ends with the updated [visited] and [queue]. *)
Fixpoint scan_rails (rails : list Rail.t) (current : string) (path : list string)
    (to_system : string) (visited : gset string)
    (queue : list (string * list string))
    : list string + gset string * list (string * list string) :=
  match rails with
  | [] => inr (visited, queue)
  | rail :: rails' =>
      if decide (Rail.from_system rail = current) then
        let next_system := Rail.to_system rail in
        if decide (next_system = to_system) then inl (path ++ [next_system])
        else if decide (next_system ∈ visited) then
          scan_rails rails' current path to_system visited queue
        else
          scan_rails rails' current path to_system ({[next_system]} ∪ visited)
            (queue ++ [(next_system, path ++ [next_system])])
      else scan_rails rails' current path to_system visited queue
  end.

(** [while queue: current, path = queue.popleft(); ...] *)
Fixpoint bfs_loop (fuel : nat) (rails : list Rail.t) (to_system : string)
    (visited : gset string) (queue : list (string * list string))
    : outcome (option (list string)) :=
  match fuel with
  | O => OutOfFuel
  | S fuel' =>
      match queue with
      | [] => Done None
      | (current, path) :: queue' =>
          match scan_rails rails current path to_system visited queue' with
          | inl route => Done (Some route)
          | inr (visited', queue'') =>
              bfs_loop fuel' rails to_system visited' queue''
          end
      end
  end.

(** Every pass of the [while] loop pops a system that was put in [visited]
    when it was queued, and only destinations of rails are ever queued, so
    the loop is over within [2 + len(rails)] passes
    (lemma [bfs_loop_terminates]). *)
Definition get_route_fuel (self : t) : nat := S (S (List.length (rails self))).

Definition get_route (self : t) (from_system to_system : string)
    : option (list string) :=
  if decide (from_system = to_system) then Some [from_system]
  else
    match bfs_loop (get_route_fuel self) (PyDict.values (rails self)) to_system
            {[from_system]} [(from_system, [from_system])] with
    | Done route => route
    | _ => None
    end.

(** [connected_systems]: the systems added to the set [connected], in the
    order in which the interpreter iterates it. *)
Definition connected_systems `{PyRuntime} (self : t) : list string :=
  set_iter (flat_map (fun rail => [Rail.from_system rail; Rail.to_system rail])
              (PyDict.values (rails self))).

Definition get_system_rails (self : t) (system_id : string) : list Rail.t :=
  filter (fun rail => Rail.from_system rail = system_id ∨
                      Rail.to_system rail = system_id)
         (PyDict.values (rails self)).
End Galaxy.

(** ** Loop detection and validation ([core/validators.py]) *)

(** The variables that [strongconnect] shares with [detect_loops].  The
    Python [stack] grows at its end: its top is the head of the list here. *)
Module Tarjan.
Record state : Type := mk {
  index : nat;
  stack : list string;
  indices : gmap string nat;
  lowlinks : gmap string nat;
  on_stack : gset string;
  sccs : list (list string)
}.

Definition init : state := mk 0 [] ∅ ∅ ∅ [].

(** [graph[rail.from_system].append(rail.to_system)] for every rail;
    reading a missing key of the [defaultdict] gives the empty list. *)
Definition build_graph (rails : list Rail.t) : gmap string (list string) :=
  foldl (fun graph rail =>
           <[Rail.from_system rail :=
               (graph !!! Rail.from_system rail) ++ [Rail.to_system rail]]> graph)
        ∅ rails.

(** the opening assignments of [strongconnect(v)] *)
Definition enter (v : string) (st : state) : state :=
  mk (S (index st)) (v :: stack st)
     (<[v := index st]> (indices st)) (<[v := index st]> (lowlinks st))
     ({[v]} ∪ on_stack st) (sccs st).

Definition set_lowlink (v : string) (low : nat) (st : state) : state :=
  mk (index st) (stack st) (indices st) (<[v := low]> (lowlinks st))
     (on_stack st) (sccs st).

(** [while True: w = stack.pop(); on_stack.remove(w); scc.append(w);
    if w == v: break] *)
Fixpoint pop_scc (v : string) (stack : list string) (on_stack : gset string)
    (scc : list string) : outcome (list string * gset string * list string) :=
  match stack with
  | [] => Raise IndexError
  | w :: stack' =>
      if decide (w = v) then Done (stack', on_stack ∖ {[w]}, scc ++ [w])
      else pop_scc v stack' (on_stack ∖ {[w]}) (scc ++ [w])
  end.

(** the closing [if lowlinks[v] == indices[v]: ...] of [strongconnect(v)] *)
Definition leave (v : string) (st : state) : outcome state :=
  low ← getitem (lowlinks st) v;
  idx ← getitem (indices st) v;
  if decide (low = idx) then
    '(stack', on_stack', scc) ← pop_scc v (stack st) (on_stack st) [];
    Done (mk (index st) stack' (indices st) (lowlinks st) on_stack'
             (if decide (1 < List.length scc)%nat then sccs st ++ [scc]
              else sccs st))
  else Done st.

(** [for w in graph[v]: ...], the body of [strongconnect(v)] between its
    opening assignments and its closing test; [strongconnect] is the
    function called on an unvisited [w]. *)
Fixpoint for_successors (strongconnect : string -> state -> outcome state)
    (v : string) (ws : list string) (st : state) : outcome state :=
  match ws with
  | [] => Done st
  | w :: ws' =>
      if decide (w ∈ dom (indices st)) then
        if decide (w ∈ on_stack st) then
          low_v ← getitem (lowlinks st) v;
          idx_w ← getitem (indices st) w;
          for_successors strongconnect v ws' (set_lowlink v (Nat.min low_v idx_w) st)
        else for_successors strongconnect v ws' st
      else
        st ← strongconnect w st;
        low_v ← getitem (lowlinks st) v;
        low_w ← getitem (lowlinks st) w;
        for_successors strongconnect v ws' (set_lowlink v (Nat.min low_v low_w) st)
  end.

Fixpoint strongconnect (fuel : nat) (graph : gmap string (list string))
    (v : string) (st : state) : outcome state :=
  match fuel with
  | O => OutOfFuel
  | S fuel' =>
      st ← for_successors (strongconnect fuel' graph) v (graph !!! v) (enter v st);
      leave v st
  end.

(** [for node in all_nodes: if node not in indices: strongconnect(node)] *)
Fixpoint for_nodes (fuel : nat) (graph : gmap string (list string))
    (nodes : list string) (st : state) : outcome state :=
  match nodes with
  | [] => Done st
  | node :: nodes' =>
      if decide (node ∈ dom (indices st)) then for_nodes fuel graph nodes' st
      else
        st ← strongconnect fuel graph node st;
        for_nodes fuel graph nodes' st
  end.
End Tarjan.

(** [fuel] bounds the depth of the recursion of [strongconnect], as the
    recursion limit of the interpreter does. *)
Definition detect_loops `{PyRuntime} (fuel : nat) (rails : list Rail.t)
    : outcome (list (list string)) :=
  let graph := Tarjan.build_graph rails in
  let all_nodes :=
    flat_map (fun rail => [Rail.from_system rail; Rail.to_system rail]) rails in
  st ← Tarjan.for_nodes fuel graph (set_iter all_nodes) Tarjan.init;
  Done (Tarjan.sccs st).

(** The messages that [validate_rail_network] appends to [errors], each
    with the values that its f-string interpolates. *)
Inductive finding : Type :=
| ClosedTimelikeCurves (loops : list (list string))
| OrphanedSystems (orphaned : gset string)
| UnknownStart (rail_id from_system : string)
| UnknownEnd (rail_id to_system : string)
| LengthMismatch (rail_id : string) (length actual_distance : float)
| DuplicateRail (from_system to_system : string)
| InsufficientGravitium (need have : float).

Definition check_loops (loops : list (list string)) : list finding :=
  match loops with
  | [] => []
  | _ :: _ => [ClosedTimelikeCurves loops]
  end.

Definition check_orphaned (galaxy : Galaxy.t) : list finding :=
  let rail_systems : gset string :=
    foldl (fun acc rail => {[Rail.to_system rail]} ∪ ({[Rail.from_system rail]} ∪ acc))
          ∅ (PyDict.values (Galaxy.rails galaxy)) in
  let orphaned := rail_systems ∖ list_to_set (PyDict.keys (Galaxy.systems galaxy)) in
  if decide (orphaned = ∅) then [] else [OrphanedSystems orphaned].

(** the body of [for rail in galaxy.rails.values()] that checks endpoints
    and length *)
Definition check_connection `{PyRuntime} (galaxy : Galaxy.t) (rail : Rail.t)
    : list finding :=
  (if PyDict.contains (Galaxy.systems galaxy) (Rail.from_system rail) then []
   else [UnknownStart (Rail.id rail) (Rail.from_system rail)]) ++
  (if PyDict.contains (Galaxy.systems galaxy) (Rail.to_system rail) then []
   else [UnknownEnd (Rail.id rail) (Rail.to_system rail)]) ++
  match PyDict.get (Galaxy.systems galaxy) (Rail.from_system rail),
        PyDict.get (Galaxy.systems galaxy) (Rail.to_system rail) with
  | Some from_sys, Some to_sys =>
      let actual_distance :=
        Coordinate.distance_to (System.coord from_sys) (System.coord to_sys) in
      if PrimFloat.ltb (Rail.length rail * 0.01)
                       (PrimFloat.abs (actual_distance - Rail.length rail))
      then [LengthMismatch (Rail.id rail) (Rail.length rail) actual_distance]
      else []
  | _, _ => []
  end.

Fixpoint check_duplicates (rails : list Rail.t)
    (rail_connections : gset (string * string)) : list finding :=
  match rails with
  | [] => []
  | rail :: rails' =>
      let connection := (Rail.from_system rail, Rail.to_system rail) in
      (if decide (connection ∈ rail_connections)
       then [DuplicateRail (Rail.from_system rail) (Rail.to_system rail)]
       else []) ++
      check_duplicates rails' ({[connection]} ∪ rail_connections)
  end.

Definition check_gravitium `{PyRuntime} (galaxy : Galaxy.t) : list finding :=
  let total_gravitium_cost :=
    float_sum (map Rail.gravitium_cost (PyDict.values (Galaxy.rails galaxy))) in
  let total_gravitium_available :=
    float_sum (map System.gravitium_deposits
                 (PyDict.values (Galaxy.systems galaxy))) in
  if PrimFloat.ltb total_gravitium_available total_gravitium_cost
  then [InsufficientGravitium total_gravitium_cost total_gravitium_available]
  else [].

Definition validate_rail_network `{PyRuntime} (fuel : nat) (galaxy : Galaxy.t)
    : outcome (bool * list finding) :=
  loops ← detect_loops fuel (PyDict.values (Galaxy.rails galaxy));
  let errors :=
    check_loops loops ++
    check_orphaned galaxy ++
    flat_map (check_connection galaxy) (PyDict.values (Galaxy.rails galaxy)) ++
    check_duplicates (PyDict.values (Galaxy.rails galaxy)) ∅ ++
    check_gravitium galaxy in
  Done (bool_decide (List.length errors = 0%nat), errors).

(** ** Sorting

    [list.sort(key=...)] is stable: [goes_before y x] tells that [y] must
    come before [x] whatever their places were; elements that are not
    ordered by it keep their relative order. *)
Fixpoint insert_sorted {A : Type} (goes_before : A -> A -> bool) (x : A)
    (l : list A) : list A :=
  match l with
  | [] => [x]
  | y :: l' =>
      if goes_before y x then y :: insert_sorted goes_before x l'
      else x :: y :: l'
  end.

Fixpoint stable_sort {A : Type} (goes_before : A -> A -> bool) (l : list A)
    : list A :=
  match l with
  | [] => []
  | x :: l' => insert_sorted goes_before x (stable_sort goes_before l')
  end.

(** [rails.sort(key=lambda r: r.interval_days)] *)
Definition sort_by_interval (rails : list Rail.t) : list Rail.t :=
  stable_sort (fun r1 r2 => Rail.interval_days r1 <? Rail.interval_days r2) rails.

(** The grouping loop shared by the two schedule optimizers:
    [system_rails[rail.from_system].append(rail)], a new origin opening a
    new list. *)
Definition group_by_origin (rails : list Rail.t) : PyDict.t (list Rail.t) :=
  foldl (fun system_rails rail =>
           PyDict.set system_rails (Rail.from_system rail)
             (default [] (PyDict.get system_rails (Rail.from_system rail))
                ++ [rail]))
        [] rails.

(** [for rail in rails: optimized_rails[rail.id] = rail] *)
Definition store_rails (optimized_rails : PyDict.t Rail.t) (rails : list Rail.t)
    : PyDict.t Rail.t :=
  foldl (fun optimized_rails rail => PyDict.set optimized_rails (Rail.id rail) rail)
        optimized_rails rails.

(** ** Timetables ([generators/schedgen.py]) *)

Module ScheduleGenerator.

Definition generate_rail_schedule (fuel : nat) (rail : Rail.t)
    (start_date : datetime) (duration_days : Z) : outcome Schedule.t :=
  current_date ← advance_while fuel
                   (fun current_date => current_date <? Rail.next_fire rail)
                   (timedelta_days (Rail.interval_days rail)) start_date;
  let end_date := start_date + timedelta_days duration_days in
  departures ← append_until fuel end_date
                 (timedelta_days (Rail.interval_days rail)) current_date;
  Done (Schedule.mk (Rail.id rail) departures (timedelta_hours 1)).

Definition get_next_departures (fuel : nat) (rail : Rail.t)
    (after_date : datetime) (count : Z) : outcome (list datetime) :=
  current_date ← advance_while fuel
                   (fun current_date => current_date <=? after_date)
                   (timedelta_days (Rail.interval_days rail))
                   (Rail.next_fire rail);
  Done (append_departures (Z.to_nat count)
          (timedelta_days (Rail.interval_days rail)) current_date).

(** [for r in galaxy.rails.values(): if r.from_system == from_sys and
    r.to_system == to_sys: rail = r; break] *)
Fixpoint find_rail (rails : list Rail.t) (from_sys to_sys : string)
    : option Rail.t :=
  match rails with
  | [] => None
  | r :: rails' =>
      if decide (Rail.from_system r = from_sys ∧ Rail.to_system r = to_sys)
      then Some r
      else find_rail rails' from_sys to_sys
  end.

(** The [for i in range(len(route) - 1)] loop of [find_route_schedule] on
    what is left of the route: [None] when the loop returns [None], otherwise
    the segments it appends and the final [current_time]. *)
Fixpoint walk_route (fuel : nat) (rails : list Rail.t) (route : list string)
    (current_time : datetime)
    : outcome (option (list (string * datetime) * datetime)) :=
  match route with
  | [] => Done (Some ([], current_time))
  | from_sys :: route' =>
      match route' with
      | [] => Done (Some ([], current_time))
      | to_sys :: _ =>
          match find_rail rails from_sys to_sys with
          | None => Done None
          | Some rail =>
              next_departures ← get_next_departures fuel rail current_time 1;
              match next_departures with
              | [] => Done None
              | departure_time :: _ =>
                  rest ← walk_route fuel rails route'
                           (departure_time + timedelta_hours 1);
                  match rest with
                  | None => Done None
                  | Some (schedule_segments, arrival) =>
                      Done (Some ((from_sys, departure_time) :: schedule_segments,
                                  arrival))
                  end
              end
          end
      end
  end.

Definition find_route_schedule (fuel : nat) (galaxy : Galaxy.t)
    (from_system to_system : string) (departure_after : datetime)
    : outcome (option (list (string * datetime))) :=
  match Galaxy.get_route galaxy from_system to_system with
  | None => Done None
  | Some [] => Done None
  | Some [_] => Done (Some [(from_system, departure_after)])
  | Some route =>
      walked ← walk_route fuel (PyDict.values (Galaxy.rails galaxy)) route
                 departure_after;
      match walked with
      | None => Done None
      | Some (schedule_segments, current_time) =>
          Done (Some (schedule_segments ++ [(to_system, current_time)]))
      end
  end.

(** The [for rail in rails] loop of [optimize_departure_times] on a sorted
    group of [count] rails. *)
Fixpoint spread_departures (base_date : datetime) (count : Z)
    (rails : list Rail.t) (current_offset : Z)
    (optimized_rails : PyDict.t Rail.t) : PyDict.t Rail.t :=
  match rails with
  | [] => optimized_rails
  | rail :: rails' =>
      let new_next_fire := base_date + timedelta_days current_offset in
      let optimized_rail := Rail.replace_next_fire rail new_next_fire in
      spread_departures base_date count rails'
        (current_offset + Z.max 1 (Rail.interval_days rail / count))
        (PyDict.set optimized_rails (Rail.id optimized_rail) optimized_rail)
  end.

Definition optimize_departure_times (galaxy : Galaxy.t) (base_date : datetime)
    : PyDict.t Rail.t :=
  let system_rails := group_by_origin (PyDict.values (Galaxy.rails galaxy)) in
  foldl (fun optimized_rails rails =>
           if (List.length rails <=? 1)%nat then store_rails optimized_rails rails
           else
             spread_departures base_date (Z.of_nat (List.length rails))
               (sort_by_interval rails) 0 optimized_rails)
        [] (PyDict.values system_rails).

(** The [for departure in departures] loop of [find_optimal_departure_time].
    [best] holds [best_departure] together with [best_diff], and is [None]
    while [best_diff] is infinite.  The difference is kept in microseconds:
    [total_seconds()] is monotone, and one to one below 2^52 microseconds. *)
Fixpoint closest_departure (departures : list datetime)
    (preferred_time end_search : datetime) (best : option (datetime * Z))
    : option datetime :=
  match departures with
  | [] => fst <$> best
  | departure :: departures' =>
      if departure <=? end_search then
        let diff := Z.abs (departure - preferred_time) in
        match best with
        | Some (_, best_diff) =>
            if diff <? best_diff
            then closest_departure departures' preferred_time end_search
                   (Some (departure, diff))
            else closest_departure departures' preferred_time end_search best
        | None =>
            closest_departure departures' preferred_time end_search
              (Some (departure, diff))
        end
      else closest_departure departures' preferred_time end_search best
  end.

Definition find_optimal_departure_time (fuel : nat) (galaxy : Galaxy.t)
    (from_system to_system : string) (preferred_time : datetime)
    (flexibility_days : Z) : outcome (option datetime) :=
  match Galaxy.get_route galaxy from_system to_system with
  | Some (first :: second :: _) =>
      match find_rail (PyDict.values (Galaxy.rails galaxy)) first second with
      | None => Done None
      | Some first_rail =>
          let start_search := preferred_time - timedelta_days flexibility_days in
          let end_search := preferred_time + timedelta_days flexibility_days in
          departures ← get_next_departures fuel first_rail start_search 20;
          Done (closest_departure departures preferred_time end_search None)
      end
  | _ => Done None
  end.

(** The [for rail_id, rail in galaxy.rails.items()] loop of
    [generate_galaxy_schedule]. *)
Fixpoint schedule_items (fuel : nat) (items : list (string * Rail.t))
    (start_date : datetime) (duration_days : Z)
    (schedules : PyDict.t Schedule.t) : outcome (PyDict.t Schedule.t) :=
  match items with
  | [] => Done schedules
  | (rail_id, rail) :: items' =>
      schedule ← generate_rail_schedule fuel rail start_date duration_days;
      schedule_items fuel items' start_date duration_days
        (PyDict.set schedules rail_id schedule)
  end.

Definition generate_galaxy_schedule (fuel : nat) (galaxy : Galaxy.t)
    (start_date : datetime) (duration_days : Z) : outcome (PyDict.t Schedule.t) :=
  schedule_items fuel (Galaxy.rails galaxy) start_date duration_days [].

(** [schedule[-1][1] - schedule[0][1]]; an empty [schedule] is falsy. *)
Definition calculate_journey_time (fuel : nat) (galaxy : Galaxy.t)
    (from_system to_system : string) (departure_after : datetime)
    : outcome (option timedelta) :=
  schedule ← find_route_schedule fuel galaxy from_system to_system departure_after;
  match schedule with
  | None => Done None
  | Some segments =>
      match head segments, last segments with
      | Some (_, start_time), Some (_, end_time) =>
          Done (Some (end_time - start_time))
      | _, _ => Done None
      end
  end.

(** [l[:stop]] *)
Definition slice_to {A : Type} (stop : Z) (l : list A) : list A :=
  if 0 <=? stop then take (Z.to_nat stop) l
  else take (List.length l - Z.to_nat (- stop)) l.

(** The [for rail in galaxy.rails.values()] loop of [get_system_departures];
    [count // 2] rounds towards minus infinity, as [Z.div] does. *)
Fixpoint collect_departures (fuel : nat) (rails : list Rail.t)
    (system_id : string) (after_date : datetime) (count : Z)
    (departures : list (string * datetime * string))
    : outcome (list (string * datetime * string)) :=
  match rails with
  | [] => Done departures
  | rail :: rails' =>
      if decide (Rail.from_system rail = system_id) then
        next_deps ← get_next_departures fuel rail after_date (count / 2);
        collect_departures fuel rails' system_id after_date count
          (departures ++
           map (fun dep_time => (Rail.from_system rail, dep_time, Rail.to_system rail))
               next_deps)
      else collect_departures fuel rails' system_id after_date count departures
  end.

Definition get_system_departures (fuel : nat) (galaxy : Galaxy.t)
    (system_id : string) (after_date : datetime) (count : Z)
    : outcome (list (string * datetime * string)) :=
  departures ← collect_departures fuel (PyDict.values (Galaxy.rails galaxy))
                 system_id after_date count [];
  Done (slice_to count
          (stable_sort (fun x y : string * datetime * string => x.1.2 <? y.1.2)
             departures)).

(** The two [while] loops that [generate_travel_calendar] runs on the rail
    to one target. *)
Definition window_departures (fuel : nat) (rail : Rail.t)
    (start_date : datetime) (duration_days : Z) : outcome (list datetime) :=
  let end_date := start_date + timedelta_days duration_days in
  current_date ← advance_while fuel
                   (fun current_date => current_date <? Rail.next_fire rail)
                   (timedelta_days (Rail.interval_days rail)) start_date;
  append_until fuel end_date (timedelta_days (Rail.interval_days rail)) current_date.

(** [for target_system in reachable: ...] *)
Fixpoint fill_calendar (fuel : nat) (rails : list Rail.t) (from_system : string)
    (targets : list string) (start_date : datetime) (duration_days : Z)
    (calendar : PyDict.t (list datetime)) : outcome (PyDict.t (list datetime)) :=
  match targets with
  | [] => Done calendar
  | target_system :: targets' =>
      match find_rail rails from_system target_system with
      | Some rail =>
          departures ← window_departures fuel rail start_date duration_days;
          fill_calendar fuel rails from_system targets' start_date duration_days
            (PyDict.set calendar target_system departures)
      | None =>
          fill_calendar fuel rails from_system targets' start_date duration_days
            calendar
      end
  end.

Definition generate_travel_calendar `{PyRuntime} (fuel : nat) (galaxy : Galaxy.t)
    (from_system : string) (start_date : datetime) (duration_days : Z)
    : outcome (PyDict.t (list datetime)) :=
  let rails := PyDict.values (Galaxy.rails galaxy) in
  let reachable :=
    set_iter (map Rail.to_system
                (filter (fun rail => Rail.from_system rail = from_system) rails)) in
  fill_calendar fuel rails from_system reachable start_date duration_days [].

(** [class_weights.get(rail.rail_class.value, 1.0)] *)
Definition class_weight (rail_class : RailClass) : float :=
  match rail_class with
  | RFC_A => 4 | RFC_B => 3 | RFC_C => 2 | RFC_D => 1
  end%float.

(** [x / n] for a float [x] and an [int] [n] *)
Definition float_div_int (x : float) (n : Z) : outcome float :=
  if decide (n = 0) then Raise ZeroDivisionError
  else Done (x / float_of_int n)%float.

(** The [for rail in galaxy.rails.values()] loop of
    [calculate_system_connectivity_score]. *)
Fixpoint add_scores (rails : list Rail.t) (system_id : string)
    (total_score : float) : outcome float :=
  match rails with
  | [] => Done total_score
  | rail :: rails' =>
      if decide (Rail.from_system rail = system_id) then
        frequency_score ← float_div_int 365 (Rail.interval_days rail);
        add_scores rails' system_id
          (total_score + frequency_score * class_weight (Rail.rail_class rail))%float
      else add_scores rails' system_id total_score
  end.

Definition calculate_system_connectivity_score (galaxy : Galaxy.t)
    (system_id : string) : outcome float :=
  add_scores (PyDict.values (Galaxy.rails galaxy)) system_id 0%float.

End ScheduleGenerator.

(** ** Identifiers and costs ([core/models.py]) *)

Definition ascii_upper (c : Ascii.ascii) : Ascii.ascii :=
  let n := Ascii.nat_of_ascii c in
  if ((97 <=? n) && (n <=? 122))%nat then Ascii.ascii_of_nat (n - 32) else c.

Fixpoint str_upper (s : string) : string :=
  match s with
  | EmptyString => EmptyString
  | String c s' => String (ascii_upper c) (str_upper s')
  end.

(** [f"RAIL-{uuid4().hex[:8].upper()}"], for the [hex] of the UUID that the
    operating system's entropy yields at this call. *)
Definition generate_rail_id (uuid4_hex : string) : string :=
  "RAIL-" +:+ str_upper (String.substring 0 8 uuid4_hex).

Definition letters : string := "abcdefghijklmnopqrstuvwxyz".

(** [f"{system_id}-{letters[planet_index % len(letters)]}"]; [%] takes the
    sign of the divisor, as [Z.modulo] does. *)
Definition generate_planet_id (system_id : string) (planet_index : Z)
    : outcome string :=
  match String.get (Z.to_nat (planet_index mod Z.of_nat (String.length letters)))
          letters with
  | Some letter => Done (system_id +:+ "-" +:+ String letter EmptyString)
  | None => Raise IndexError
  end.

Definition calculate_gravitium_cost `{PyRuntime} (distance : float)
    (rail_class : RailClass) : float :=
  let base_cost :=
    match rail_class with
    | RFC_A => 1000 | RFC_B => 500 | RFC_C => 100 | RFC_D => 50
    end%float in
  (base_cost * float_sqr distance)%float.

Definition rail_class_from_capacity (capacity_per_year : float) : RailClass :=
  if PrimFloat.leb 1000000 capacity_per_year then RFC_A
  else if PrimFloat.leb 600000 capacity_per_year then RFC_B
  else if PrimFloat.leb 1800 capacity_per_year then RFC_C
  else RFC_D.

(** ** Network generation ([generators/railgen.py]) *)

Module RailGenerator.
Section WithRuntime.
Context `{PyRuntime}.

(** [self]: the generator owns the state of its [random.Random]. *)
Record t : Type := mk { rng : Random }.

Definition edge : Type := string * string * float.

(** [candidates.sort(key=lambda sid: galaxy.systems[sid].gravitium_deposits,
    reverse=True)]; the candidates are keys of [galaxy.systems]. *)
Definition deposits_of (galaxy : Galaxy.t) (sid : string) : float :=
  match PyDict.get (Galaxy.systems galaxy) sid with
  | Some system => System.gravitium_deposits system
  | None => 0
  end.

Definition find_source_vein_systems (galaxy : Galaxy.t) (min_gravitium : float)
    : list string :=
  let candidates :=
    map fst (filter (fun item : string * System.t =>
                       PrimFloat.leb min_gravitium
                         (System.gravitium_deposits item.2) = true)
                    (Galaxy.systems galaxy)) in
  stable_sort (fun sid1 sid2 =>
                 PrimFloat.ltb (deposits_of galaxy sid2) (deposits_of galaxy sid1))
              candidates.

Definition calculate_rail_cost (from_system to_system : System.t)
    (rail_class : RailClass) : float :=
  let distance :=
    Coordinate.distance_to (System.coord from_system) (System.coord to_system) in
  let base_cost := calculate_gravitium_cost distance rail_class in
  let tech_modifier := 1%float in
  let tech_modifier :=
    if System.tech_level from_system <? 5 then (tech_modifier * 2)%float
    else tech_modifier in
  let tech_modifier :=
    if System.tech_level to_system <? 5 then (tech_modifier * 2)%float
    else tech_modifier in
  let pop_modifier := 1%float in
  let pop_modifier :=
    if System.total_population from_system <? 10000 then (pop_modifier * 1.5)%float
    else pop_modifier in
  let pop_modifier :=
    if System.total_population to_system <? 10000 then (pop_modifier * 1.5)%float
    else pop_modifier in
  (base_cost * tech_modifier * pop_modifier)%float.

(** the keys of the [resources] of all planets of a system, as a set *)
Definition resource_names (system : System.t) : gset string :=
  list_to_set (flat_map (fun planet => PyDict.keys (Planet.resources planet))
                 (System.planets system)).

Definition estimate_rail_capacity (from_system to_system : System.t)
    : outcome float :=
  let from_pop := System.total_population from_system in
  let to_pop := System.total_population to_system in
  root ← math_sqrt (float_of_int (from_pop * to_pop));
  let trade_volume := (root / 1000)%float in
  let from_resources := resource_names from_system in
  let to_resources := resource_names to_system in
  let unique_resources :=
    Z.of_nat (size ((from_resources ∖ to_resources) ∪
                    (to_resources ∖ from_resources))) in
  let trade_volume :=
    (trade_volume * (1 + float_of_int unique_resources * 0.1))%float in
  let tech_diff :=
    Z.abs (System.tech_level from_system - System.tech_level to_system) in
  let trade_volume :=
    (trade_volume * (1 + float_of_int tech_diff * 0.2))%float in
  Done (if PrimFloat.ltb 100 trade_volume then trade_volume else 100%float).

(** [galaxy.systems[system_id]] *)
Definition system_of (galaxy : Galaxy.t) (system_id : string) : outcome System.t :=
  match PyDict.get (Galaxy.systems galaxy) system_id with
  | Some system => Done system
  | None => Raise KeyError
  end.

(** [best] is [best_edge] with its [best_cost], [None] while [best_edge] is
    [None] and [best_cost] is infinite. *)
Definition better_edge (from_id to_id : string) (cost : float)
    (best : option edge) : option edge :=
  match best with
  | Some (_, _, best_cost) =>
      if PrimFloat.ltb cost best_cost then Some (from_id, to_id, cost) else best
  | None =>
      if PrimFloat.ltb cost infinity then Some (from_id, to_id, cost) else best
  end.

(** [for to_id in all_systems: if to_id not in in_tree: ...] *)
Fixpoint scan_targets (galaxy : Galaxy.t) (in_tree : list string)
    (from_id : string) (from_system : System.t) (targets : list string)
    (best : option edge) : outcome (option edge) :=
  match targets with
  | [] => Done best
  | to_id :: targets' =>
      if decide (to_id ∈ in_tree) then
        scan_targets galaxy in_tree from_id from_system targets' best
      else
        to_system ← system_of galaxy to_id;
        capacity ← estimate_rail_capacity from_system to_system;
        let rail_class := rail_class_from_capacity capacity in
        let cost := calculate_rail_cost from_system to_system rail_class in
        scan_targets galaxy in_tree from_id from_system targets'
          (better_edge from_id to_id cost best)
  end.

(** [for from_id in in_tree: ...], in the iteration order of the set *)
Fixpoint scan_tree (galaxy : Galaxy.t) (in_tree : list string)
    (all_systems : list string) (sources : list string) (best : option edge)
    : outcome (option edge) :=
  match sources with
  | [] => Done best
  | from_id :: sources' =>
      from_system ← system_of galaxy from_id;
      best ← scan_targets galaxy in_tree from_id from_system all_systems best;
      scan_tree galaxy in_tree all_systems sources' best
  end.

(** [while len(in_tree) < len(all_systems): ...]; the set [in_tree] is kept
    as the list of the additions made to it. *)
Fixpoint grow_tree (fuel : nat) (galaxy : Galaxy.t) (all_systems : list string)
    (in_tree : list string) (edges : list edge) : outcome (list edge) :=
  match fuel with
  | O => OutOfFuel
  | S fuel' =>
      if (List.length (remove_dups in_tree) <? List.length all_systems)%nat then
        best_edge ← scan_tree galaxy in_tree all_systems (set_iter in_tree) None;
        match best_edge with
        | Some (from_id, to_id, cost) =>
            grow_tree fuel' galaxy all_systems (in_tree ++ [to_id])
              (edges ++ [(from_id, to_id, cost)])
        | None => Done edges
        end
      else Done edges
  end.

(** Every pass of the loop but the last adds a system to [in_tree], which
    only holds keys of [galaxy.systems] when the sources are such keys. *)
Definition build_minimum_spanning_tree (galaxy : Galaxy.t)
    (source_systems : list string) : outcome (list edge) :=
  match source_systems with
  | [] => Done []
  | _ :: _ =>
      let all_systems := PyDict.keys (Galaxy.systems galaxy) in
      grow_tree (S (List.length all_systems)) galaxy all_systems source_systems []
  end.

(** [connection_count[k] = connection_count.get(k, 0) + 1] *)
Definition count_connection (connection_count : PyDict.t Z) (k : string)
    : PyDict.t Z :=
  PyDict.set connection_count k (default 0 (PyDict.get connection_count k) + 1).

(** [any((bottleneck_id == from_id and other_id == to_id) or
         (bottleneck_id == to_id and other_id == from_id)
         for from_id, to_id, _ in mst_edges)] *)
Definition already_connected (mst_edges : list edge)
    (bottleneck_id other_id : string) : bool :=
  existsb (fun e : edge =>
             let '(from_id, to_id, _) := e in
             bool_decide (bottleneck_id = from_id ∧ other_id = to_id) ||
             bool_decide (bottleneck_id = to_id ∧ other_id = from_id))
          mst_edges.

(** [for other_id, other_system in galaxy.systems.items(): ...] *)
Definition nearby_systems_of (galaxy : Galaxy.t) (mst_edges : list edge)
    (bottleneck_id : string) (bottleneck_system : System.t)
    : list (string * float) :=
  flat_map (fun item : string * System.t =>
              let '(other_id, other_system) := item in
              if decide (other_id = bottleneck_id) then []
              else
                let distance :=
                  Coordinate.distance_to (System.coord bottleneck_system)
                    (System.coord other_system) in
                if PrimFloat.ltb distance 50 then
                  if already_connected mst_edges bottleneck_id other_id then []
                  else [(other_id, distance)]
                else [])
           (Galaxy.systems galaxy).

(** [for bottleneck_id in bottlenecks: ...] *)
Fixpoint connect_bottlenecks (galaxy : Galaxy.t) (mst_edges : list edge)
    (redundancy_factor : float) (bottlenecks : list string) (self : t)
    (additional_edges : list edge) : outcome (list edge * t) :=
  match bottlenecks with
  | [] => Done (additional_edges, self)
  | bottleneck_id :: bottlenecks' =>
      let '(draw, rng') := Random_random (rng self) in
      let self := mk rng' in
      if PrimFloat.ltb draw redundancy_factor then
        bottleneck_system ← system_of galaxy bottleneck_id;
        let nearby_systems :=
          nearby_systems_of galaxy mst_edges bottleneck_id bottleneck_system in
        match stable_sort (fun a b : string * float => PrimFloat.ltb a.2 b.2)
                nearby_systems with
        | [] =>
            connect_bottlenecks galaxy mst_edges redundancy_factor bottlenecks'
              self additional_edges
        | (target_id, _) :: _ =>
            target_system ← system_of galaxy target_id;
            capacity ← estimate_rail_capacity bottleneck_system target_system;
            let rail_class := rail_class_from_capacity capacity in
            let cost :=
              calculate_rail_cost bottleneck_system target_system rail_class in
            connect_bottlenecks galaxy mst_edges redundancy_factor bottlenecks'
              self (additional_edges ++ [(bottleneck_id, target_id, cost)])
        end
      else
        connect_bottlenecks galaxy mst_edges redundancy_factor bottlenecks'
          self additional_edges
  end.

Definition add_redundancy_connections (self : t) (galaxy : Galaxy.t)
    (mst_edges : list edge) (redundancy_factor : float)
    : outcome (list edge * t) :=
  let connection_count :=
    foldl (fun connection_count (e : edge) =>
             let '(from_id, to_id, _) := e in
             count_connection (count_connection connection_count from_id) to_id)
          [] mst_edges in
  let bottlenecks :=
    map fst (filter (fun item : string * Z => item.2 = 1) connection_count) in
  connect_bottlenecks galaxy mst_edges redundancy_factor bottlenecks self [].

(** [uuid4_hex] is the [hex] of the UUID drawn by this call. *)
Definition create_rail (self : t) (uuid4_hex : string)
    (from_system_id to_system_id : string) (galaxy : Galaxy.t)
    (construction_date : datetime) : outcome (Rail.t * t) :=
  from_system ← system_of galaxy from_system_id;
  to_system ← system_of galaxy to_system_id;
  let distance :=
    Coordinate.distance_to (System.coord from_system) (System.coord to_system) in
  capacity ← estimate_rail_capacity from_system to_system;
  let rail_class := rail_class_from_capacity capacity in
  let gravitium_cost := calculate_gravitium_cost distance rail_class in
  let '(interval_a, rng1) := Random_randint 1 7 (rng self) in
  let '(interval_b, rng2) := Random_randint 7 30 rng1 in
  let '(interval_c, rng3) := Random_randint 30 180 rng2 in
  let '(interval_d, rng4) := Random_randint 180 365 rng3 in
  let interval_days :=
    match rail_class with
    | RFC_A => interval_a | RFC_B => interval_b
    | RFC_C => interval_c | RFC_D => interval_d
    end in
  let annual_capacity :=
    match rail_class with
    | RFC_A => 1000000 | RFC_B => 600000 | RFC_C => 1800 | RFC_D => 182.5
    end%float in
  firings_per_year ← float_div 365.25 (float_of_int interval_days);
  max_capacity ← float_div annual_capacity firings_per_year;
  let '(offset, rng5) := Random_randint 1 interval_days rng4 in
  let next_fire := construction_date + timedelta_days offset in
  Done (Rail.mk (generate_rail_id uuid4_hex) from_system_id to_system_id
          rail_class distance construction_date interval_days next_fire
          gravitium_cost max_capacity,
        mk rng5).

Definition validate_no_cycles (fuel : nat) (rails : list Rail.t) : outcome bool :=
  cycles ← detect_loops fuel rails;
  Done (bool_decide (List.length cycles = 0%nat)).

(** What the [for from_id, to_id, cost in all_edges] loop of
    [generate_rail_network] carries from one pass to the next; [uuids] counts
    the UUIDs drawn so far. *)
Record progress : Type := mk_progress {
  generator : t;
  uuids : nat;
  rails : PyDict.t Rail.t;
  construction_date : datetime
}.

(** One pass of the loop; [uuid4] is the sequence of the UUIDs ([hex]) that
    the operating system hands out in this run. *)
Definition consider_edge (fuel : nat) (uuid4 : nat -> string)
    (galaxy : Galaxy.t) (p : progress) (e : edge) : outcome progress :=
  let '(from_id, to_id, _) := e in
  '(rail, self) ← create_rail (generator p) (uuid4 (uuids p)) from_id to_id
                    galaxy (construction_date p);
  let test_rails := PyDict.values (rails p) ++ [rail] in
  acyclic ← validate_no_cycles fuel test_rails;
  if acyclic : bool then
    years ← int_of_float (Rail.length rail / 10)%float;
    let construction_years := Z.max 1 years in
    Done (mk_progress self (S (uuids p))
            (PyDict.set (rails p) (Rail.id rail) rail)
            (construction_date p + construction_years * 31557600000000))
  else Done (mk_progress self (S (uuids p)) (rails p) (construction_date p)).

Fixpoint consider_edges (fuel : nat) (uuid4 : nat -> string)
    (galaxy : Galaxy.t) (all_edges : list edge) (p : progress)
    : outcome progress :=
  match all_edges with
  | [] => Done p
  | e :: all_edges' =>
      p ← consider_edge fuel uuid4 galaxy p e;
      consider_edges fuel uuid4 galaxy all_edges' p
  end.

(** [source_systems[:max_systems]] *)
Definition slice_to (max_systems : Z) (source_systems : list string)
    : list string :=
  if 0 <=? max_systems then take (Z.to_nat max_systems) source_systems
  else take (List.length source_systems - Z.to_nat (- max_systems)) source_systems.

(** [datetime(2800, 1, 1)] *)
Definition rail_age_start : datetime := timedelta_days 1022313.

(** The edges that [generate_rail_network] proposes, in order. *)
Definition propose_edges (self : t) (galaxy : Galaxy.t) (max_systems : option Z)
    (source_systems : list string) : outcome (list edge * t) :=
  let source_systems :=
    match max_systems with
    | Some n =>
        if bool_decide (n ≠ 0) && (n <? Z.of_nat (List.length source_systems))
        then slice_to n source_systems else source_systems
    | None => source_systems
    end in
  mst_edges ← build_minimum_spanning_tree galaxy source_systems;
  '(redundancy_edges, self) ← add_redundancy_connections self galaxy mst_edges 0.1;
  Done (mst_edges ++ redundancy_edges, self).

Definition generate_rail_network (fuel : nat) (uuid4 : nat -> string) (self : t)
    (galaxy : Galaxy.t) (construction_start : option datetime)
    (max_systems : option Z) : outcome (PyDict.t Rail.t) :=
  let construction_start := default rail_age_start construction_start in
  let source_systems := find_source_vein_systems galaxy 1000 in
  match source_systems with
  | [] => Done []
  | _ :: _ =>
      '(all_edges, self) ← propose_edges self galaxy max_systems source_systems;
      p ← consider_edges fuel uuid4 galaxy all_edges
            (mk_progress self 0 [] construction_start);
      Done (rails p)
  end.

(** [datetime(3000, 1, 1)] *)
Definition base_time : datetime := timedelta_days 1095362.

(** The [for i, rail in enumerate(rails)] loop of [optimize_rail_schedules]
    on a sorted group of [count] rails, from position [i] on. *)
Fixpoint offset_rails (count : Z) (rails : list Rail.t) (i : Z)
    (optimized_rails : PyDict.t Rail.t) : PyDict.t Rail.t :=
  match rails with
  | [] => optimized_rails
  | rail :: rails' =>
      let offset_days := Rail.interval_days rail * i / count in
      let new_next_fire := base_time + timedelta_days offset_days in
      let optimized_rail := Rail.replace_next_fire rail new_next_fire in
      offset_rails count rails' (i + 1)
        (PyDict.set optimized_rails (Rail.id optimized_rail) optimized_rail)
  end.

Definition optimize_rail_schedules (galaxy : Galaxy.t) : PyDict.t Rail.t :=
  let system_rails := group_by_origin (PyDict.values (Galaxy.rails galaxy)) in
  foldl (fun optimized_rails rails =>
           if (List.length rails <=? 1)%nat then store_rails optimized_rails rails
           else
             offset_rails (Z.of_nat (List.length rails))
               (sort_by_interval rails) 0 optimized_rails)
        [] (PyDict.values system_rails).

(** [schedule.sort(key=lambda x: x[1])] on the pairs of a rail identifier
    and a construction date *)
Definition generate_construction_schedule (rails : PyDict.t Rail.t)
    : list (string * datetime) :=
  stable_sort (fun x y : string * datetime => x.2 <? y.2)
    (map (fun item : string * Rail.t => (item.1, Rail.construction_date item.2))
         rails).

End WithRuntime.
End RailGenerator.

(** ** Candidates, connectivity and construction ([core/validators.py]) *)

Definition find_source_vein_candidates (galaxy : Galaxy.t) (min_gravitium : float)
    : list string :=
  let candidates :=
    map fst (filter (fun item : string * System.t =>
                       PrimFloat.leb min_gravitium
                         (System.gravitium_deposits item.2) = true)
                    (Galaxy.systems galaxy)) in
  stable_sort (fun sid1 sid2 =>
                 PrimFloat.ltb (RailGenerator.deposits_of galaxy sid2)
                               (RailGenerator.deposits_of galaxy sid1))
              candidates.

(** The [for rail in galaxy.rails.values()] loop of one pass of the [while]
    loop of [calculate_network_connectivity]. *)
Fixpoint visit_outgoing (rails : list Rail.t) (current : string)
    (visited reachable : gset string) (queue : list string)
    : gset string * gset string * list string :=
  match rails with
  | [] => (visited, reachable, queue)
  | rail :: rails' =>
      if decide (Rail.from_system rail = current ∧ Rail.to_system rail ∉ visited)
      then
        visit_outgoing rails' current ({[Rail.to_system rail]} ∪ visited)
          ({[Rail.to_system rail]} ∪ reachable) (queue ++ [Rail.to_system rail])
      else visit_outgoing rails' current visited reachable queue
  end.

(** [while queue: current = queue.popleft(); ...]; a system enters the queue
    when it enters [visited], so the loop is over within [1 + len(rails)]
    passes. *)
Fixpoint reach_loop (fuel : nat) (rails : list Rail.t)
    (visited reachable : gset string) (queue : list string)
    : outcome (gset string) :=
  match fuel with
  | O => OutOfFuel
  | S fuel' =>
      match queue with
      | [] => Done reachable
      | current :: queue' =>
          let '(visited', reachable', queue'') :=
            visit_outgoing rails current visited reachable queue' in
          reach_loop fuel' rails visited' reachable' queue''
      end
  end.

(** [for system_id in galaxy.systems: ...] *)
Fixpoint connectivity_loop (fuel : nat) (rails : list Rail.t)
    (system_ids : list string) (connectivity : PyDict.t Z)
    : outcome (PyDict.t Z) :=
  match system_ids with
  | [] => Done connectivity
  | system_id :: system_ids' =>
      reachable ← reach_loop fuel rails {[system_id]} ∅ [system_id];
      connectivity_loop fuel rails system_ids'
        (PyDict.set connectivity system_id (Z.of_nat (size reachable)))
  end.

Definition calculate_network_connectivity (fuel : nat) (galaxy : Galaxy.t)
    : outcome (PyDict.t Z) :=
  connectivity_loop fuel (PyDict.values (Galaxy.rails galaxy))
    (PyDict.keys (Galaxy.systems galaxy)) [].

(** The messages that [validate_system_for_rail_construction] appends to
    [errors], each with the values that its f-string interpolates. *)
Inductive construction_finding : Type :=
| NoSuchSystem (system_id : string)
| TechLevelTooLow (system_id : string)
| InsufficientDeposits (system_id : string) (available estimated_cost : float)
| PopulationTooLow (system_id : string).

Definition validate_system_for_rail_construction `{PyRuntime} (galaxy : Galaxy.t)
    (system_id : string) (target_capacity : float)
    : bool * list construction_finding :=
  match PyDict.get (Galaxy.systems galaxy) system_id with
  | None => (false, [NoSuchSystem system_id])
  | Some system =>
      let errors :=
        if System.tech_level system <? 5 then [TechLevelTooLow system_id] else [] in
      let existing_rails := Galaxy.get_system_rails galaxy system_id in
      let errors :=
        errors ++
        match existing_rails with
        | [] => []
        | _ :: _ =>
            let avg_cost :=
              (float_sum (map Rail.gravitium_cost existing_rails) /
               float_of_int (Z.of_nat (List.length existing_rails)))%float in
            let estimated_cost := (avg_cost * 1.5)%float in
            if PrimFloat.ltb (System.gravitium_deposits system) estimated_cost
            then [InsufficientDeposits system_id
                    (System.gravitium_deposits system) estimated_cost]
            else []
        end in
      let errors :=
        errors ++
        (if System.total_population system <? 10000
         then [PopulationTooLow system_id] else []) in
      (bool_decide (List.length errors = 0%nat), errors)
  end.

(** ** An interpreter for examples

    Sets are iterated in insertion order, squares and sums are the plain
    binary64 ones, and the random generator reads its draws from a script:
    [random()] is the next draw over 1000, [randint(a, b)] is [a] plus the
    next draw reduced into the range. *)
Definition scripted_random (rng : list Z) : float * list Z :=
  match rng with
  | [] => (0%float, [])
  | draw :: rng' => ((float_of_int (draw mod 1000) / 1000)%float, rng')
  end.

Definition scripted_randint (a b : Z) (rng : list Z) : Z * list Z :=
  match rng with
  | [] => (Z.min a b, [])
  | draw :: rng' => (if a <=? b then a + draw mod (b - a + 1) else a, rng')
  end.

Lemma scripted_randint_range (a b : Z) (rng : list Z) :
  a <= b -> a <= fst (scripted_randint a b rng) <= b.
Proof.
  intros Hab. destruct rng as [|draw rng']; simpl; [lia|].
  destruct (Z.leb_spec a b); simpl; [|lia].
  pose proof (Z.mod_pos_bound draw (b - a + 1)). lia.
Qed.

Definition scripted_runtime : PyRuntime := {|
  float_sqr := fun x => (x * x)%float;
  float_sum := fun xs => foldl PrimFloat.add 0%float xs;
  set_iter := remove_dups;
  set_iter_perm := fun history => Permutation_refl _;
  Random := list Z;
  Random_random := scripted_random;
  Random_randint := scripted_randint;
  Random_randint_range := scripted_randint_range
|}.

(** The same interpreter, but for its sets, iterated in the reverse of the
    insertion order: what another hash seed can do. *)
Definition reversed_runtime : PyRuntime := {|
  float_sqr := fun x => (x * x)%float;
  float_sum := fun xs => foldl PrimFloat.add 0%float xs;
  set_iter := fun history => reverse (remove_dups history);
  set_iter_perm := fun history => reverse_Permutation (remove_dups history);
  Random := list Z;
  Random_random := scripted_random;
  Random_randint := scripted_randint;
  Random_randint_range := scripted_randint_range
|}.

(** ** Vocabulary of the properties *)

(** [day n]: the instant [n] days after the origin of time. *)
Definition day (n : Z) : datetime := timedelta_days n.

(** The firings of a rail: [next_fire], and every whole number of intervals
    after it. *)
Definition is_firing (rail : Rail.t) (t : datetime) : Prop :=
  exists k : Z,
    0 <= k /\ t = Rail.next_fire rail + k * timedelta_days (Rail.interval_days rail).

Definition earliest_firing_at_or_after (rail : Rail.t) (cursor d : datetime) : Prop :=
  is_firing rail d /\ cursor <= d /\
  forall d', is_firing rail d' -> cursor <= d' -> d <= d'.

Definition earliest_firing_after (rail : Rail.t) (cursor d : datetime) : Prop :=
  is_firing rail d /\ cursor < d /\
  forall d', is_firing rail d' -> cursor < d' -> d <= d'.

(** The number of times that [while current < bound: current += step] adds
    [step], for a positive [step]. *)
Definition steps_to (bound : datetime) (step : timedelta) (current : datetime) : Z :=
  Z.max 0 ((bound - current + step - 1) / step).

(** A rail from [a] to [b] firing every [interval] days from [day first] on. *)
Definition plain_rail (id a b : string) (first interval : Z) : Rail.t :=
  Rail.mk id a b RFC_D 1 0 interval (day first) 1 1.

Definition galaxy_of_rails (rails : list Rail.t) : Galaxy.t :=
  Galaxy.mk "G" "G" 0 0 [] (map (fun rail => (Rail.id rail, rail)) rails) [].

(** What a timed walk along [route] from the instant [t] must answer: on
    every hop the first rail of the dictionary that joins the two systems,
    its earliest firing after the cursor, and one hour of transit; nothing at
    all as soon as one hop has no rail. *)
Inductive timed_walk (rails : list Rail.t)
    : list string -> datetime -> option (list (string * datetime) * datetime) -> Prop :=
| walk_nowhere (t : datetime) :
    timed_walk rails [] t (Some ([], t))
| walk_arrived (s : string) (t : datetime) :
    timed_walk rails [s] t (Some ([], t))
| walk_no_rail (a b : string) (route : list string) (t : datetime) :
    ScheduleGenerator.find_rail rails a b = None ->
    timed_walk rails (a :: b :: route) t None
| walk_hop (a b : string) (route : list string) (t d : datetime) (rail : Rail.t)
    (rest : option (list (string * datetime) * datetime)) :
    ScheduleGenerator.find_rail rails a b = Some rail ->
    earliest_firing_after rail t d ->
    timed_walk rails (b :: route) (d + timedelta_hours 1) rest ->
    timed_walk rails (a :: b :: route) t
      (match rest with
       | Some (segments, arrival) => Some ((a, d) :: segments, arrival)
       | None => None
       end).

(** Routes of the directed rail graph. *)
Definition has_rail (rails : list Rail.t) (a b : string) : Prop :=
  exists rail, rail ∈ rails /\ Rail.from_system rail = a /\ Rail.to_system rail = b.

Fixpoint is_walk (rails : list Rail.t) (path : list string) : Prop :=
  match path with
  | [] => True
  | a :: path' =>
      match path' with
      | [] => True
      | b :: _ => has_rail rails a b
      end /\ is_walk rails path'
  end.

Definition is_route (rails : list Rail.t) (a b : string) (path : list string) : Prop :=
  head path = Some a /\ last path = Some b /\ is_walk rails path.

(** The invariant of the search of [get_route], between two passes of its
    [while] loop and, with the system under scan put back in front of the
    queue, between two passes of its [for] loop. *)
Definition shorter_path (e1 e2 : string * list string) : Prop :=
  (List.length e1.2 <= List.length e2.2)%nat.

Record bfs_inv (rails : list Rail.t) (from_system to_system : string)
    (visited : gset string) (queue : list (string * list string)) : Prop := {
  inv_route : forall x p, (x, p) ∈ queue ->
    is_route rails from_system x p /\ x ∈ visited;
  inv_sorted : StronglySorted shorter_path queue;
  inv_spread : forall e1 e2, e1 ∈ queue -> e2 ∈ queue ->
    (List.length e2.2 <= S (List.length e1.2))%nat;
  inv_target : to_system ∉ visited;
  inv_frontier : forall w, is_route rails from_system to_system w ->
    exists w1 x w2 p,
      w = w1 ++ x :: w2 /\ (x, p) ∈ queue /\
      (List.length p <= S (List.length w1))%nat /\
      forall y, y ∈ w2 -> y ∉ visited
}.

(** The rail destinations that the search has not visited yet. *)
Definition unvisited_targets (rails : list Rail.t) (visited : gset string)
    : gset string :=
  list_to_set (map Rail.to_system rails) ∖ visited.

(** The rails that leave [origin], in the order of the dictionary. *)
Definition origin_group (rails : list Rail.t) (origin : string) : list Rail.t :=
  filter (fun rail => Rail.from_system rail = origin) rails.

Definition by_interval (r1 r2 : Rail.t) : Prop :=
  Rail.interval_days r1 <= Rail.interval_days r2.

(** The offset, in days, that [optimize_departure_times] has accumulated
    when it reaches position [i] of a sorted group of [count] rails. *)
Definition accumulated_offset (count : Z) (order : list Rail.t) (i : nat) : Z :=
  foldl (fun offset rail => offset + Z.max 1 (Rail.interval_days rail / count))
        0 (take i order).

(** The rails that the two optimizers store for one group of rails that
    share an origin, in the order in which they store them. *)
Fixpoint offset_list (count : Z) (rails : list Rail.t) (i : Z) : list Rail.t :=
  match rails with
  | [] => []
  | rail :: rails' =>
      Rail.replace_next_fire rail
        (RailGenerator.base_time +
         timedelta_days (Rail.interval_days rail * i / count))
      :: offset_list count rails' (i + 1)
  end.

Fixpoint spread_list (base_date : datetime) (count : Z) (rails : list Rail.t)
    (current_offset : Z) : list Rail.t :=
  match rails with
  | [] => []
  | rail :: rails' =>
      Rail.replace_next_fire rail (base_date + timedelta_days current_offset)
      :: spread_list base_date count rails'
           (current_offset + Z.max 1 (Rail.interval_days rail / count))
  end.

Definition optimized_group (respace : Z -> list Rail.t -> list Rail.t)
    (group : list Rail.t) : list Rail.t :=
  if (List.length group <=? 1)%nat then group
  else respace (Z.of_nat (List.length group)) (sort_by_interval group).

(** A hub with two rails out of A and one out of B. *)
Definition hub_galaxy : Galaxy.t :=
  galaxy_of_rails [plain_rail "R1" "A" "B" 10 30; plain_rail "R2" "B" "C" 3 7;
                   plain_rail "R3" "A" "C" 4 12].

(** Strongly connected components, and the invariants of [strongconnect]. *)
Definition edge (graph : gmap string (list string)) (x y : string) : Prop :=
  y ∈ graph !!! x.

Definition connected (graph : gmap string (list string)) (x y : string) : Prop :=
  rtc (edge graph) x y /\ rtc (edge graph) y x.

(** [indices[x]], for a visited [x] *)
Definition num (st : Tarjan.state) (x : string) : nat :=
  default 0%nat (Tarjan.indices st !! x).

(** What holds of the shared variables whenever [strongconnect] is entered
    or left, and between two passes of its loop; [gray] holds the systems
    whose call of [strongconnect] is under way. *)
Record tarjan_wf (graph : gmap string (list string)) (gray : gset string)
    (st : Tarjan.state) : Prop := {
  wf_on_stack : forall x, x ∈ Tarjan.on_stack st <-> x ∈ Tarjan.stack st;
  wf_stack_nodup : NoDup (Tarjan.stack st);
  wf_stack_visited : forall x, x ∈ Tarjan.stack st -> x ∈ dom (Tarjan.indices st);
  wf_index : forall x, x ∈ dom (Tarjan.indices st) -> (num st x < Tarjan.index st)%nat;
  wf_num_inj : forall x y,
    x ∈ dom (Tarjan.indices st) -> y ∈ dom (Tarjan.indices st) ->
    num st x = num st y -> x = y;
  wf_lowlinks : dom (Tarjan.lowlinks st) = dom (Tarjan.indices st);
  wf_gray : forall x, x ∈ gray -> x ∈ Tarjan.stack st;
  wf_stack_reach : forall x y,
    x ∈ Tarjan.stack st -> y ∈ Tarjan.stack st -> (num st x <= num st y)%nat ->
    rtc (edge graph) x y;
  wf_to_gray : forall y, y ∈ Tarjan.stack st ->
    exists x, x ∈ gray /\ (num st x <= num st y)%nat /\ rtc (edge graph) y x;
  wf_black : forall x y,
    x ∈ dom (Tarjan.indices st) -> x ∉ gray -> edge graph x y ->
    y ∈ dom (Tarjan.indices st);
  wf_popped : forall x y,
    x ∈ dom (Tarjan.indices st) -> x ∉ Tarjan.stack st -> edge graph x y ->
    y ∈ dom (Tarjan.indices st) /\ y ∉ Tarjan.stack st;
  wf_sccs_nodup : NoDup (concat (Tarjan.sccs st));
  wf_sccs : forall c, c ∈ Tarjan.sccs st ->
    (2 <= List.length c)%nat /\
    forall x, x ∈ c ->
      x ∈ dom (Tarjan.indices st) /\ (x ∉ Tarjan.stack st) /\
      forall y, y ∈ c <-> connected graph x y;
  wf_sccs_complete : forall x y,
    x ∈ dom (Tarjan.indices st) -> x ∉ Tarjan.stack st -> x ≠ y ->
    connected graph x y -> exists c, c ∈ Tarjan.sccs st /\ x ∈ c
}.

(** What a call leaves as it was: the indices and low-links of the systems
    visited before it, and the stack below what it pushes. *)
Record tarjan_frame (st st' : Tarjan.state) : Prop := {
  frame_indices : forall x, x ∈ dom (Tarjan.indices st) ->
    Tarjan.indices st' !! x = Tarjan.indices st !! x;
  frame_lowlinks : forall x, x ∈ dom (Tarjan.indices st) ->
    Tarjan.lowlinks st' !! x = Tarjan.lowlinks st !! x;
  frame_stack : exists s,
    Tarjan.stack st' = s ++ Tarjan.stack st /\
    forall x, x ∈ s -> x ∉ dom (Tarjan.indices st);
  frame_new : forall x,
    x ∈ dom (Tarjan.indices st') -> x ∉ dom (Tarjan.indices st) ->
    (Tarjan.index st <= num st' x)%nat;
  frame_index : (Tarjan.index st <= Tarjan.index st')%nat
}.

(** The state [st'] in which [strongconnect(v)], called in [st], returns. *)
Record tarjan_post (graph : gmap string (list string)) (gray : gset string)
    (v : string) (st st' : Tarjan.state) : Prop := {
  post_wf : tarjan_wf graph gray st';
  post_frame : tarjan_frame st st';
  post_visited : Tarjan.indices st' !! v = Some (Tarjan.index st);
  post_low : exists low,
    Tarjan.lowlinks st' !! v = Some low /\ (low <= Tarjan.index st)%nat /\
    (if decide (low = Tarjan.index st) then Tarjan.stack st' = Tarjan.stack st
     else v ∈ Tarjan.stack st' /\
          exists y, y ∈ Tarjan.stack st /\ num st y = low /\ rtc (edge graph) v y) /\
    (forall x y, x ∈ Tarjan.stack st' -> x ∉ Tarjan.stack st -> edge graph x y ->
                 y ∈ Tarjan.stack st -> (low <= num st y)%nat)
}.

(** Between two passes of the loop of [strongconnect(v)], called in [st]:
    [seen] holds the successors of [v] that the loop has dealt with. *)
Record tarjan_loop (graph : gmap string (list string)) (gray : gset string)
    (v : string) (st : Tarjan.state) (seen : list string) (st' : Tarjan.state)
    : Prop := {
  loop_wf : tarjan_wf graph ({[v]} ∪ gray) st';
  loop_frame : tarjan_frame st st';
  loop_index : Tarjan.indices st' !! v = Some (Tarjan.index st);
  loop_stack : exists s,
    Tarjan.stack st' = s ++ v :: Tarjan.stack st /\
    forall x, x ∈ s -> x ∉ dom (Tarjan.indices st);
  loop_seen : forall w, w ∈ seen -> w ∈ dom (Tarjan.indices st');
  loop_low : exists low,
    Tarjan.lowlinks st' !! v = Some low /\ (low <= Tarjan.index st)%nat /\
    (exists y, y ∈ Tarjan.stack st' /\ num st' y = low /\ rtc (edge graph) v y) /\
    (forall x y, x ∈ Tarjan.stack st' -> x ∉ v :: Tarjan.stack st -> edge graph x y ->
                 y ∈ Tarjan.stack st -> (low <= num st y)%nat) /\
    (forall w, w ∈ seen -> w ∈ Tarjan.stack st -> (low <= num st w)%nat)
}.

(** The directed graph of a list of rails: its systems, mutual
    reachability, and cycles. *)
Definition rail_systems (rails : list Rail.t) : gset string :=
  list_to_set
    (flat_map (fun rail => [Rail.from_system rail; Rail.to_system rail]) rails).

Definition strongly_connected (rails : list Rail.t) (x y : string) : Prop :=
  rtc (has_rail rails) x y /\ rtc (has_rail rails) y x.

Definition has_cycle (rails : list Rail.t) : Prop :=
  exists x, tc (has_rail rails) x x.

(** Two rails of the list, at different places, that join [a] to [b]. *)
Definition duplicated (rails : list Rail.t) (a b : string) : Prop :=
  exists l1 r1 l2 r2 l3,
    rails = l1 ++ r1 :: l2 ++ r2 :: l3 /\
    Rail.from_system r1 = a /\ Rail.to_system r1 = b /\
    Rail.from_system r2 = a /\ Rail.to_system r2 = b.

(** The fact that each finding of [validate_rail_network] reports. *)
Definition finding_holds `{PyRuntime} (fuel : nat) (galaxy : Galaxy.t)
    (f : finding) : Prop :=
  let rails := PyDict.values (Galaxy.rails galaxy) in
  let systems := Galaxy.systems galaxy in
  match f with
  | ClosedTimelikeCurves loops =>
      detect_loops fuel rails = Done loops /\ loops ≠ []
  | OrphanedSystems orphaned =>
      orphaned = rail_systems rails ∖ list_to_set (PyDict.keys systems) /\
      orphaned ≠ ∅
  | UnknownStart rail_id from_system =>
      exists rail, rail ∈ rails /\ Rail.id rail = rail_id /\
        Rail.from_system rail = from_system /\
        PyDict.get systems from_system = None
  | UnknownEnd rail_id to_system =>
      exists rail, rail ∈ rails /\ Rail.id rail = rail_id /\
        Rail.to_system rail = to_system /\
        PyDict.get systems to_system = None
  | LengthMismatch rail_id length actual_distance =>
      exists rail from_sys to_sys, rail ∈ rails /\ Rail.id rail = rail_id /\
        Rail.length rail = length /\
        PyDict.get systems (Rail.from_system rail) = Some from_sys /\
        PyDict.get systems (Rail.to_system rail) = Some to_sys /\
        actual_distance
        = Coordinate.distance_to (System.coord from_sys) (System.coord to_sys) /\
        PrimFloat.ltb (length * 0.01) (PrimFloat.abs (actual_distance - length)) = true
  | DuplicateRail from_system to_system =>
      duplicated rails from_system to_system
  | InsufficientGravitium need have =>
      need = float_sum (map Rail.gravitium_cost rails) /\
      have = float_sum (map System.gravitium_deposits (PyDict.values systems)) /\
      PrimFloat.ltb have need = true
  end.

(** Three rails that close a loop through X, Y and Z. *)
Definition triangle_rails : list Rail.t :=
  [plain_rail "R1" "X" "Y" 10 5; plain_rail "R2" "Y" "Z" 3 7;
   plain_rail "R3" "Z" "X" 4 12].

(** Two systems ten light-years apart, joined by a rail of the right length
    that costs more gravitium than the two systems hold. *)
Definition over_budget_galaxy : Galaxy.t :=
  Galaxy.mk "G" "G" 0 0
    [("X", System.mk "X" "X" (Coordinate.mk 0 0 0) [] 1000000 5 100);
     ("Y", System.mk "Y" "Y" (Coordinate.mk 10 0 0) [] 1000000 5 0)]
    [("R1", Rail.mk "R1" "X" "Y" RFC_D 10 0 200 (day 1) 5000 100)] [].

(** No two distinct systems reach each other: what [validate_no_cycles]
    decides. *)
Definition loop_free (rails : list Rail.t) : Prop :=
  forall x y, x ≠ y -> ~ strongly_connected rails x y.

Definition no_self_rail (rails : list Rail.t) : Prop :=
  forall rail, rail ∈ rails -> Rail.from_system rail ≠ Rail.to_system rail.

(** An edge from the spanning tree under construction to a system outside
    it. *)
Definition edge_leaves (in_tree : list string) (e : option (string * string * float))
    : Prop :=
  forall from_id to_id cost,
    e = Some (from_id, to_id, cost) -> from_id ∈ in_tree /\ to_id ∉ in_tree.

(** How two runs of a function agree: both return, and the results are
    related, or both stop in the same way. *)
Definition outcome_agree {A B : Type} (R : A -> B -> Prop)
    (o1 : outcome A) (o2 : outcome B) : Prop :=
  match o1, o2 with
  | Done a, Done b => R a b
  | OutOfFuel, OutOfFuel => True
  | Raise e1, Raise e2 => e1 = e2
  | _, _ => False
  end.

(** A rail without its identifier. *)
Definition unlabelled (rail : Rail.t) : Rail.t :=
  Rail.mk "" (Rail.from_system rail) (Rail.to_system rail) (Rail.rail_class rail)
    (Rail.length rail) (Rail.construction_date rail) (Rail.interval_days rail)
    (Rail.next_fire rail) (Rail.gravitium_cost rail) (Rail.max_capacity rail).

(** The first [n] identifiers drawn in a run are pairwise distinct. *)
Definition fresh_ids (uuid4 : nat -> string) (n : nat) : Prop :=
  forall i j : nat, (i < j < n)%nat ->
    generate_rail_id (uuid4 i) ≠ generate_rail_id (uuid4 j).

(** The departures of a schedule, when the schedule generator returns. *)
Definition departures_of (o : outcome Schedule.t) : outcome (list datetime) :=
  schedule ← o; Done (Schedule.departures schedule).

(** Three systems on a line, ten light-years apart, X alone holding enough
    gravitium to seed the network; two sequences of UUIDs; and the draws
    that make the generator propose X→Y, Y→Z and then Z→X. *)
Definition xyz_system (name : string) (x deposits : float) : string * System.t :=
  (name, System.mk name name (Coordinate.mk x 0 0) [] 1000000 5 deposits).

Definition xyz_galaxy : Galaxy.t :=
  Galaxy.mk "G" "G" 0 0
    [xyz_system "X" 0 2000; xyz_system "Y" 10 0; xyz_system "Z" 20 0] [] [].

Definition xyz_uuid4 (k : nat) : string :=
  match k with
  | O => "0a1b2c3d4e5f"
  | 1%nat => "11aa22bb33cc"
  | _ => "deadbeef0123"
  end.

Definition xyz_uuid4' (k : nat) : string :=
  match k with
  | O => "ffee00112233"
  | 1%nat => "11aa22bb33cc"
  | _ => "abad1dea4567"
  end.

Definition xyz_generator : @RailGenerator.t scripted_runtime :=
  @RailGenerator.mk scripted_runtime
    [500; 50; 1; 2; 3; 4; 5; 1; 2; 3; 4; 5; 1; 2; 3; 4; 5].

(** The systems that a rail joins. *)
Definition endpoints (rail : Rail.t) : string * string :=
  (Rail.from_system rail, Rail.to_system rail).

(** What two runs share after the same number of passes of the loop of
    [generate_rail_network]. *)
Definition in_step `{PyRuntime} (p1 p2 : RailGenerator.progress) : Prop :=
  RailGenerator.generator p1 = RailGenerator.generator p2 /\
  RailGenerator.uuids p1 = RailGenerator.uuids p2 /\
  RailGenerator.construction_date p1 = RailGenerator.construction_date p2 /\
  map unlabelled (PyDict.values (RailGenerator.rails p1))
  = map unlabelled (PyDict.values (RailGenerator.rails p2)).

(** The keys of the rails are identifiers drawn earlier in the run. *)
Definition keys_drawn `{PyRuntime} (uuid4 : nat -> string)
    (p : RailGenerator.progress) : Prop :=
  forall k, k ∈ PyDict.keys (RailGenerator.rails p) ->
    exists i, (i < RailGenerator.uuids p)%nat /\ k = generate_rail_id (uuid4 i).

(** X and Z both hold enough gravitium, and Y is as far from the one as from
    the other. *)
Definition tie_galaxy : Galaxy.t :=
  Galaxy.mk "G" "G" 0 0
    [xyz_system "X" 0 2000; xyz_system "Y" 10 0; xyz_system "Z" 20 2000] [] [].

Definition xyz_generator_reversed : @RailGenerator.t reversed_runtime :=
  @RailGenerator.mk reversed_runtime
    [500; 50; 1; 2; 3; 4; 5; 1; 2; 3; 4; 5; 1; 2; 3; 4; 5].

(** The instants [start_date + k * interval] that the two loops of
    [generate_rail_schedule] keep: from the first one that is not before
    [next_fire] to the last one that is not after the end of the window;
    and a number of passes that is enough for both loops. *)
Definition scheduled_window (rail : Rail.t) (start_date : datetime)
    (duration_days : Z) : list datetime :=
  let step := timedelta_days (Rail.interval_days rail) in
  let first := start_date + steps_to (Rail.next_fire rail) step start_date * step in
  append_departures
    (Z.to_nat (steps_to (start_date + timedelta_days duration_days + 1) step first))
    step first.

Definition window_fuel (rail : Rail.t) (start_date : datetime)
    (duration_days : Z) : nat :=
  let step := timedelta_days (Rail.interval_days rail) in
  let first := start_date + steps_to (Rail.next_fire rail) step start_date * step in
  S (Z.to_nat (steps_to (Rail.next_fire rail) step start_date) +
     Z.to_nat (steps_to (start_date + timedelta_days duration_days + 1) step first)).

(** The order of binary64 numbers, read on their decoding: NaN has no
    place in it; the others are ordered by sign and class, then by exponent,
    then by mantissa, as [SFcompare] compares them. *)
Definition float_place (f : spec_float) : option (Z * Z * Z) :=
  match f with
  | S754_nan => None
  | S754_zero _ => Some (0, 0, 0)
  | S754_infinity s => Some (if s then -2 else 2, 0, 0)
  | S754_finite s m e =>
      Some (if s then (-1, - e, Z.neg m) else (1, e, Z.pos m))
  end.

Definition place_compare (p q : Z * Z * Z) : comparison :=
  match p.1.1 ?= q.1.1 with
  | Eq => match p.1.2 ?= q.1.2 with
          | Eq => p.2 ?= q.2
          | c => c
          end
  | c => c
  end.

(** The classes, from the lowest capacity to the highest. *)
Definition class_rank (rail_class : RailClass) : Z :=
  match rail_class with
  | RFC_D => 0 | RFC_C => 1 | RFC_B => 2 | RFC_A => 3
  end.

(** The firing intervals, in days, that [create_rail] draws for a class. *)
Definition interval_range (rail_class : RailClass) : Z * Z :=
  match rail_class with
  | RFC_A => (1, 7) | RFC_B => (7, 30) | RFC_C => (30, 180) | RFC_D => (180, 365)
  end.

(** What [create_rail] gives a rail between two systems of the galaxy. *)
Definition rail_as_built `{PyRuntime} (galaxy : Galaxy.t) (rail : Rail.t) : Prop :=
  (exists from_system to_system,
     PyDict.get (Galaxy.systems galaxy) (Rail.from_system rail) = Some from_system /\
     PyDict.get (Galaxy.systems galaxy) (Rail.to_system rail) = Some to_system /\
     Rail.length rail
     = Coordinate.distance_to (System.coord from_system) (System.coord to_system)) /\
  Rail.gravitium_cost rail
  = calculate_gravitium_cost (Rail.length rail) (Rail.rail_class rail) /\
  (interval_range (Rail.rail_class rail)).1 <= Rail.interval_days rail
    <= (interval_range (Rail.rail_class rail)).2 /\
  Rail.construction_date rail + timedelta_days 1 <= Rail.next_fire rail
    <= Rail.construction_date rail + timedelta_days (Rail.interval_days rail).

(** The galaxy, with the given rails for its [rails]. *)
Definition with_rails (galaxy : Galaxy.t) (rails : PyDict.t Rail.t) : Galaxy.t :=
  Galaxy.mk (Galaxy.id galaxy) (Galaxy.name galaxy) (Galaxy.seed galaxy)
    (Galaxy.generation_time galaxy) (Galaxy.systems galaxy) rails
    (Galaxy.source_vein_systems galaxy).

(** What holds of every network that the generator returns. *)
Definition network_sound `{PyRuntime} (galaxy : Galaxy.t) (rails : PyDict.t Rail.t)
    : Prop :=
  NoDup (PyDict.keys rails) /\
  NoDup (map endpoints (PyDict.values rails)) /\
  forall k rail, (k, rail) ∈ rails ->
    k = Rail.id rail /\ Rail.from_system rail ≠ Rail.to_system rail /\
    rail_as_built galaxy rail.

(** One year of 365.25 days, in microseconds. *)
Definition construction_year : timedelta := 31557600000000.

(** An edge from the tree under construction to a system of the galaxy
    outside it. *)
Definition edge_attaches (in_tree all_systems : list string)
    (e : option (string * string * float)) : Prop :=
  forall from_id to_id cost,
    e = Some (from_id, to_id, cost) ->
    from_id ∈ in_tree /\ (to_id ∉ in_tree) /\ to_id ∈ all_systems.

(** Every edge of the list starts in the tree made of the sources and of the
    targets of the edges before it, and ends at a system of the galaxy
    outside that tree. *)
Definition attaches_in_order (sources all_systems : list string)
    (edges : list (string * string * float)) : Prop :=
  forall (i : nat) from_id to_id cost,
    edges !! i = Some (from_id, to_id, cost) ->
    from_id ∈ sources ++ map (fun e : string * string * float => e.1.2) (take i edges) /\
    (to_id ∉ sources ++ map (fun e : string * string * float => e.1.2) (take i edges)) /\
    to_id ∈ all_systems.

(** Between two passes of the loop of [generate_rail_network] that started
    at [start]: the rails are dated in the order of the dictionary, one year
    apart at least, the first one at [start], all before the date of the
    next construction. *)
Definition dated `{PyRuntime} (start : datetime) (p : RailGenerator.progress) : Prop :=
  (forall rail, rail ∈ PyDict.values (RailGenerator.rails p) ->
     start <= Rail.construction_date rail /\
     Rail.construction_date rail + construction_year
     <= RailGenerator.construction_date p) /\
  StronglySorted
    (fun r1 r2 => Rail.construction_date r1 + construction_year
                  <= Rail.construction_date r2)
    (PyDict.values (RailGenerator.rails p)) /\
  match PyDict.values (RailGenerator.rails p) with
  | [] => RailGenerator.construction_date p = start
  | rail :: _ => Rail.construction_date rail = start
  end.

(** The invariant of the search of [calculate_network_connectivity] from
    [s], between two passes of its [while] loop and, with the system under
    scan put back in front of the queue, between two passes of its [for]
    loop. *)
Record reach_inv (rails : list Rail.t) (s : string)
    (visited reachable : gset string) (queue : list string) : Prop := {
  reach_visited : visited = {[s]} ∪ reachable;
  reach_start : s ∉ reachable;
  reach_sound : forall x, x ∈ visited -> rtc (has_rail rails) s x;
  reach_queue : forall x, x ∈ queue -> x ∈ visited;
  reach_closed : forall x y,
    x ∈ visited -> x ∉ queue -> has_rail rails x y -> y ∈ visited
}.

(** The cost at which [build_minimum_spanning_tree] and
    [add_redundancy_connections] price an edge between two systems. *)
Definition candidate_cost `{PyRuntime} (galaxy : Galaxy.t) (from_id to_id : string)
    : outcome float :=
  from_system ← RailGenerator.system_of galaxy from_id;
  to_system ← RailGenerator.system_of galaxy to_id;
  capacity ← RailGenerator.estimate_rail_capacity from_system to_system;
  Done (RailGenerator.calculate_rail_cost from_system to_system
          (rail_class_from_capacity capacity)).

(** [best] is priced as the generator prices it, below infinity, and no
    pair of [scanned] is strictly cheaper. *)
Definition cheapest `{PyRuntime} (galaxy : Galaxy.t)
    (scanned : string -> string -> Prop) (best : option (string * string * float))
    : Prop :=
  match best with
  | Some (from_id, to_id, cost) =>
      candidate_cost galaxy from_id to_id = Done cost /\
      PrimFloat.ltb cost infinity = true /\
      forall f t c, scanned f t -> candidate_cost galaxy f t = Done c ->
                    PrimFloat.ltb c cost = false
  | None =>
      forall f t c, scanned f t -> candidate_cost galaxy f t = Done c ->
                    PrimFloat.ltb c infinity = false
  end.

(** Every edge of the list is a cheapest one from the tree made of the
    sources and of the targets of the edges before it to a system of the
    galaxy outside that tree. *)
Definition greedy_in_order `{PyRuntime} (galaxy : Galaxy.t)
    (sources all_systems : list string) (edges : list (string * string * float))
    : Prop :=
  forall (i : nat) from_id to_id cost,
    edges !! i = Some (from_id, to_id, cost) ->
    let tree :=
      sources ++ map (fun e : string * string * float => e.1.2) (take i edges) in
    candidate_cost galaxy from_id to_id = Done cost /\
    forall f t c, f ∈ tree -> t ∈ all_systems -> t ∉ tree ->
      candidate_cost galaxy f t = Done c -> PrimFloat.ltb c cost = false.

(** The number of ends of edges of the tree at a system. *)
Definition connections (mst_edges : list (string * string * float)) (s : string) : Z :=
  Z.of_nat
    (List.length (filter (fun e : string * string * float => e.1.1 = s) mst_edges) +
     List.length (filter (fun e : string * string * float => e.1.2 = s) mst_edges)).

(** An edge from [b] to [t], priced as the edges of the tree are: [t] is
    another system of the galaxy, less than 50 light-years from [b], that
    the tree joins to [b] in neither direction, and no other such system is
    strictly closer to [b]. *)
Definition closest_unconnected `{PyRuntime} (galaxy : Galaxy.t)
    (mst_edges : list (string * string * float)) (b t : string) (c : float) : Prop :=
  candidate_cost galaxy b t = Done c /\
  exists bottleneck_system target_system,
    PyDict.get (Galaxy.systems galaxy) b = Some bottleneck_system /\
    (t, target_system) ∈ Galaxy.systems galaxy /\
    t ≠ b /\
    RailGenerator.already_connected mst_edges b t = false /\
    PrimFloat.ltb (Coordinate.distance_to (System.coord bottleneck_system)
                     (System.coord target_system)) 50 = true /\
    forall other_id other_system,
      (other_id, other_system) ∈ Galaxy.systems galaxy ->
      other_id ≠ b ->
      RailGenerator.already_connected mst_edges b other_id = false ->
      PrimFloat.ltb
        (Coordinate.distance_to (System.coord bottleneck_system)
           (System.coord other_system))
        (Coordinate.distance_to (System.coord bottleneck_system)
           (System.coord target_system)) = false.

(* ================================================================== *)
(** * Properties *)
(* ================================================================== *)



(** ** Routes that stay in place *)

(** C10. For every galaxy and every system identifier [s], whether or not
    [s] is a system of the galaxy or an endpoint of a rail,
    [get_route(s, s)] is the one-element path [[s]]; in particular it is
    never the absent value. *)
Theorem get_route_same_system (galaxy : Galaxy.t) (s : string) :
  Galaxy.get_route galaxy s s = Some [s].
Proof.
  unfold Galaxy.get_route. destruct (decide (s = s)) as [_|Hne]; [reflexivity|].
  contradiction.
Qed.

(** ** The fast-forward loops *)

Section Advance.
Variables (cond : datetime -> bool) (bound : datetime) (step : timedelta).
Hypothesis cond_bound : forall current, cond current = (current <? bound).
Hypothesis step_pos : 0 < step.

Local Abbreviation steps := (steps_to bound step).

Lemma steps_stop (current : datetime) : bound <= current -> steps current = 0.
Proof.
  intros Hle. unfold steps_to.
  assert ((bound - current + step - 1) / step <= 0); [|lia].
  assert ((bound - current + step - 1) / step < 1); [|lia].
  apply Z.div_lt_upper_bound; lia.
Qed.

Lemma steps_go (current : datetime) :
  current < bound -> steps current = 1 + steps (current + step).
Proof.
  intros Hlt. unfold steps_to.
  replace (bound - current + step - 1) with ((bound - (current + step) + step - 1) + 1 * step) by lia.
  rewrite Z.div_add by lia.
  assert (0 <= (bound - (current + step) + step - 1) / step); [|lia].
  apply Z.div_pos; lia.
Qed.

Lemma steps_nonneg (current : datetime) : 0 <= steps current.
Proof. unfold steps_to. lia. Qed.

Lemma advance_while_done (fuel : nat) (current : datetime) :
  (Z.to_nat (steps current) < fuel)%nat ->
  advance_while fuel cond step current = Done (current + steps current * step).
Proof.
  revert current. induction fuel as [|fuel IH]; intros current Hfuel; [lia|].
  simpl. rewrite cond_bound. destruct (Z.ltb_spec current bound) as [Hlt|Hge].
  - pose proof (steps_go current Hlt) as Hs. pose proof (steps_nonneg (current + step)).
    rewrite IH by lia. f_equal. rewrite Hs. lia.
  - rewrite steps_stop by lia. f_equal. lia.
Qed.

Lemma advance_while_reaches (current : datetime) :
  bound <= current + steps current * step.
Proof.
  unfold steps_to. destruct (Z.le_gt_cases bound current) as [Hle|Hgt].
  - assert ((bound - current + step - 1) / step <= 0).
    { assert ((bound - current + step - 1) / step < 1); [|lia].
      apply Z.div_lt_upper_bound; lia. }
    replace (Z.max 0 _) with 0 by lia. lia.
  - pose proof (Z.mod_pos_bound (bound - current + step - 1) step step_pos).
    pose proof (Z.div_mod (bound - current + step - 1) step).
    assert (0 <= (bound - current + step - 1) / step) by (apply Z.div_pos; lia).
    nia.
Qed.

Lemma advance_while_least (current : datetime) (k : Z) :
  0 <= k -> bound <= current + k * step -> steps current <= k.
Proof.
  intros Hk Hb. unfold steps_to.
  apply Z.max_lub; [lia|].
  assert ((bound - current + step - 1) / step < k + 1); [|lia].
  apply Z.div_lt_upper_bound; nia.
Qed.

End Advance.

(** ** Per-rail schedules *)

(** C4, on the rail of the claim (first firing on day 10, one firing every
    5 days) queried from day 12 over 20 days: [generate_rail_schedule]
    starts its progression at the window start, not at [next_fire], and
    answers days 12, 17, 22, 27, 32, none of which is a firing of the rail;
    [Rail.next_departures], which advances from [next_fire], answers days
    15, 20, 25, 30 on the same query. *)
Theorem generate_rail_schedule_from_day_12 :
  let rail := plain_rail "R" "A" "B" 10 5 in
  ScheduleGenerator.generate_rail_schedule 10 rail (day 12) 20
    = Done (Schedule.mk "R" [day 12; day 17; day 22; day 27; day 32]
              (timedelta_hours 1)) /\
  ~ is_firing rail (day 12) /\
  Rail.next_departures 10 rail (day 12) 4 = Done [day 15; day 20; day 25; day 30].
Proof.
  split; [reflexivity|]. split; [|reflexivity].
  intros [k [Hk Heq]]. cbv [plain_rail day timedelta_days Rail.next_fire Rail.interval_days] in Heq. lia.
Qed.

(** ** Next departures of a rail *)

Lemma timedelta_days_pos (n : Z) : 0 < n -> 0 < timedelta_days n.
Proof. unfold timedelta_days. lia. Qed.

(** The instant at which the fast-forward loop of [get_next_departures]
    stops. *)
Lemma earliest_firing_after_steps (rail : Rail.t) (after_date : datetime) :
  0 < Rail.interval_days rail ->
  earliest_firing_after rail after_date
    (Rail.next_fire rail +
     steps_to (after_date + 1) (timedelta_days (Rail.interval_days rail))
       (Rail.next_fire rail) * timedelta_days (Rail.interval_days rail)).
Proof.
  intros Hpos. apply timedelta_days_pos in Hpos.
  set (step := timedelta_days (Rail.interval_days rail)) in *.
  split; [|split].
  - eexists. split; [|reflexivity]. apply steps_nonneg.
  - pose proof (advance_while_reaches (after_date + 1) step Hpos (Rail.next_fire rail)). lia.
  - intros d' [k [Hk ->]] Hafter. fold step in Hafter |- *.
    pose proof (advance_while_least (after_date + 1) step Hpos (Rail.next_fire rail) k Hk).
    nia.
Qed.

Lemma earliest_firing_after_unique (rail : Rail.t) (cursor d1 d2 : datetime) :
  earliest_firing_after rail cursor d1 -> earliest_firing_after rail cursor d2 ->
  d1 = d2.
Proof.
  intros (F1 & A1 & L1) (F2 & A2 & L2).
  pose proof (L1 d2 F2 A2). pose proof (L2 d1 F1 A1). lia.
Qed.

Lemma get_next_departures_done (fuel : nat) (rail : Rail.t)
    (after_date : datetime) (count : Z) :
  0 < Rail.interval_days rail ->
  (Z.to_nat (steps_to (after_date + 1)%Z (timedelta_days (Rail.interval_days rail))
               (Rail.next_fire rail)) < fuel)%nat ->
  ScheduleGenerator.get_next_departures fuel rail after_date count =
  Done (append_departures (Z.to_nat count) (timedelta_days (Rail.interval_days rail))
          (Rail.next_fire rail +
           steps_to (after_date + 1) (timedelta_days (Rail.interval_days rail))
             (Rail.next_fire rail) * timedelta_days (Rail.interval_days rail))).
Proof.
  intros Hpos Hfuel. unfold ScheduleGenerator.get_next_departures.
  rewrite (advance_while_done _ (after_date + 1)); [reflexivity| |by apply timedelta_days_pos|done].
  intros current. apply eq_iff_eq_true. rewrite Z.leb_le, Z.ltb_lt. lia.
Qed.

(** ** Timed routes *)

Lemma find_rail_elem (rails : list Rail.t) (a b : string) (rail : Rail.t) :
  ScheduleGenerator.find_rail rails a b = Some rail ->
  rail ∈ rails /\ Rail.from_system rail = a /\ Rail.to_system rail = b.
Proof.
  induction rails as [|r rails IH]; simpl; [done|].
  destruct (decide _) as [[? ?]|_].
  - intros [= ->]. split; [left|done].
  - intros Hf. destruct (IH Hf) as (? & ? & ?). split; [by right|done].
Qed.

Lemma walk_route_spec (rails : list Rail.t) (route : list string) :
  (forall rail, rail ∈ rails -> 0 < Rail.interval_days rail) ->
  forall t : datetime, exists fuel0 : nat, exists r,
    timed_walk rails route t r /\
    forall fuel, (fuel0 <= fuel)%nat ->
      ScheduleGenerator.walk_route fuel rails route t = Done r.
Proof.
  intros Hpos. induction route as [|a route IH]; intros t.
  - exists 0%nat, (Some ([], t)). split; [constructor|]. by intros [|fuel] _.
  - destruct route as [|b route].
    + exists 0%nat, (Some ([], t)). split; [constructor|]. by intros [|fuel] _.
    + destruct (ScheduleGenerator.find_rail rails a b) as [rail|] eqn:Hrail.
      * pose proof (find_rail_elem _ _ _ _ Hrail) as (Hin & _ & _).
        specialize (Hpos rail Hin).
        set (step := timedelta_days (Rail.interval_days rail)).
        set (d := Rail.next_fire rail + steps_to (t + 1) step (Rail.next_fire rail) * step).
        destruct (IH (d + timedelta_hours 1)) as (fuel1 & rest & Hwalk & Hrun).
        exists (Nat.max fuel1 (S (Z.to_nat (steps_to (t + 1)%Z step (Rail.next_fire rail))))).
        eexists. split.
        { eapply (walk_hop _ a b route t d rail rest); [done| |done].
          by apply earliest_firing_after_steps. }
        intros fuel Hfuel.
        assert (Hstep : forall f, ScheduleGenerator.walk_route f rails (a :: b :: route) t =
          match ScheduleGenerator.find_rail rails a b with
          | None => Done None
          | Some rail =>
              next_departures ← ScheduleGenerator.get_next_departures f rail t 1;
              match next_departures with
              | [] => Done None
              | departure_time :: _ =>
                  rest ← ScheduleGenerator.walk_route f rails (b :: route)
                           (departure_time + timedelta_hours 1);
                  match rest with
                  | None => Done None
                  | Some (schedule_segments, arrival) =>
                      Done (Some ((a, departure_time) :: schedule_segments, arrival))
                  end
              end
          end) by (intros f; destruct f; reflexivity).
        rewrite Hstep, Hrail, get_next_departures_done by (done || (unfold step in Hfuel; lia)).
        change (Z.to_nat 1) with 1%nat. cbn [append_departures mbind outcome_bind].
        fold step. fold d. rewrite Hrun by lia. cbn. by destruct rest as [[? ?]|].
      * exists 0%nat, None. split; [by constructor|].
        intros fuel _. destruct fuel; simpl; by rewrite Hrail.
Qed.

Lemma timed_walk_covers (rails : list Rail.t) (route : list string) (t : datetime)
    (segments : list (string * datetime)) (arrival : datetime) :
  timed_walk rails route t (Some (segments, arrival)) ->
  map fst segments = removelast route.
Proof.
  remember (Some (segments, arrival)) as r eqn:Hr.
  intros Hwalk. revert segments arrival Hr.
  induction Hwalk as [t|s t|a b route t Hnone|a b route t d rail rest Hrail Hd Hwalk IH];
    intros segments arrival Hr; try (by inversion Hr).
  destruct rest as [[segs arr]|]; [|done]. inversion Hr; subst.
  cbn [map fst]. rewrite (IH segs arrival eq_refl). reflexivity.
Qed.




(** ** Departure nearest to a preferred time *)

Lemma elem_of_append_departures (count : nat) (step : timedelta)
    (current c : datetime) :
  c ∈ append_departures count step current <->
  exists j : Z, 0 <= j < Z.of_nat count /\ c = current + j * step.
Proof.
  revert current. induction count as [|count IH]; intros current; simpl.
  - split; [by intros ?%elem_of_nil|]. intros (j & ? & _). lia.
  - rewrite elem_of_cons, IH. split.
    + intros [->|(j & Hj & ->)]; [exists 0; lia|exists (j + 1); lia].
    + intros (j & Hj & ->). destruct (decide (j = 0)) as [->|Hne]; [left; lia|].
      right. exists (j - 1). lia.
Qed.

(** The scan keeps the first candidate of least distance among those that
    do not exceed [end_search]. *)
Lemma closest_departure_spec (preferred_time end_search : datetime)
    (departures : list datetime) (best : option (datetime * Z)) :
  (forall b x, best = Some (b, x) -> x = Z.abs (b - preferred_time)) ->
  match ScheduleGenerator.closest_departure departures preferred_time end_search best with
  | None =>
      best = None /\ forall c, c ∈ departures -> end_search < c
  | Some d =>
      ((d ∈ departures /\ d <= end_search) \/ exists x, best = Some (d, x)) /\
      (forall c, c ∈ departures -> c <= end_search ->
                 Z.abs (d - preferred_time) <= Z.abs (c - preferred_time)) /\
      (forall b x, best = Some (b, x) -> Z.abs (d - preferred_time) <= x)
  end.
Proof.
  revert best. induction departures as [|c departures IH]; intros best Hbest.
  - simpl. destruct best as [[b x]|]; simpl.
    + split; [right; by exists x|]. split; [by intros ? ?%elem_of_nil|].
      intros b' x' [= <- <-]. rewrite (Hbest b x eq_refl). lia.
    + split; [done|]. by intros ? ?%elem_of_nil.
  - cbn [ScheduleGenerator.closest_departure].
    destruct (Z.leb_spec c end_search) as [Hin|Hout].
    + set (diff := Z.abs (c - preferred_time)).
      assert (Hnew : forall b x, Some (c, diff) = Some (b, x) ->
                                 x = Z.abs (b - preferred_time)).
      { by intros b x [= <- <-]. }
      destruct best as [[b x]|].
      * pose proof (Hbest b x eq_refl) as Hx.
        destruct (Z.ltb_spec diff x) as [Hlt|Hge].
        -- specialize (IH _ Hnew).
           destruct (ScheduleGenerator.closest_departure _ _ _ _) as [d|].
           ++ destruct IH as (Hd & Hmin & Hacc). pose proof (Hacc c diff eq_refl).
              split; [|split].
              ** left. destruct Hd as [[? ?]|[y [= -> _]]]; split;
                   done || (by right) || by left.
              ** intros c' [->|Hc']%elem_of_cons Hle; [done|by apply Hmin].
              ** intros b' x' [= <- <-]. lia.
           ++ by destruct IH as [[=] _].
        -- specialize (IH _ Hbest).
           destruct (ScheduleGenerator.closest_departure _ _ _ _) as [d|].
           ++ destruct IH as (Hd & Hmin & Hacc). pose proof (Hacc b x eq_refl).
              split; [|split].
              ** destruct Hd as [[? ?]|Hd]; [left; split; [by right|done]|by right].
              ** intros c' [->|Hc']%elem_of_cons Hle; [fold diff; lia|by apply Hmin].
              ** done.
           ++ by destruct IH as [[=] _].
      * specialize (IH _ Hnew).
        destruct (ScheduleGenerator.closest_departure _ _ _ _) as [d|].
        -- destruct IH as (Hd & Hmin & Hacc). pose proof (Hacc c diff eq_refl).
           split; [|split].
           ++ left. destruct Hd as [[? ?]|[y [= -> _]]]; split;
                done || (by right) || by left.
           ++ intros c' [->|Hc']%elem_of_cons Hle; [done|by apply Hmin].
           ++ done.
        -- by destruct IH as [[=] _].
    + specialize (IH _ Hbest).
      destruct (ScheduleGenerator.closest_departure _ _ _ _) as [d|].
      * destruct IH as (Hd & Hmin & Hacc). split; [|split].
        -- destruct Hd as [[? ?]|Hd]; [left; split; [by right|done]|by right].
        -- intros c' [->|Hc']%elem_of_cons Hle; [lia|by apply Hmin].
        -- done.
      * destruct IH as [-> Hall]. split; [done|].
        intros c' [->|Hc']%elem_of_cons; [done|by apply Hall].
Qed.




(** ** Shortest routes *)

Lemma is_walk_app_r (rails : list Rail.t) (w1 w2 : list string) :
  is_walk rails (w1 ++ w2) -> is_walk rails w2.
Proof.
  induction w1 as [|a w1 IH]; [done|]. intros [_ Hw]. by apply IH.
Qed.

Lemma is_walk_middle (rails : list Rail.t) (w1 w2 : list string) (x s : string) :
  is_walk rails (w1 ++ x :: s :: w2) -> has_rail rails x s.
Proof. intros Hw. apply is_walk_app_r in Hw. by destruct Hw. Qed.

Lemma is_walk_snoc (rails : list Rail.t) (p : list string) (x s : string) :
  is_walk rails p -> last p = Some x -> has_rail rails x s ->
  is_walk rails (p ++ [s]).
Proof.
  induction p as [|a p IH]; [done|]. intros [Ha Hw] Hlast Hrail.
  destruct p as [|b p].
  - simpl in Hlast. injection Hlast as ->. by repeat split.
  - split; [done|]. apply IH; done.
Qed.

Lemma is_route_snoc (rails : list Rail.t) (a x s : string) (p : list string) :
  is_route rails a x p -> has_rail rails x s -> is_route rails a s (p ++ [s]).
Proof.
  intros (Hhead & Hlast & Hwalk) Hrail. split; [|split].
  - destruct p; [done|]. done.
  - apply last_snoc.
  - by eapply is_walk_snoc.
Qed.

Lemma StronglySorted_snoc {A : Type} (R : A -> A -> Prop) (l : list A) (x : A) :
  StronglySorted R l -> (forall y, y ∈ l -> R y x) -> StronglySorted R (l ++ [x]).
Proof.
  induction 1 as [|a l Hl IH Ha]; intros Hx; simpl.
  - repeat constructor.
  - constructor.
    + apply IH. intros y Hy. apply Hx. by right.
    + apply Forall_app. split; [done|]. constructor; [|done]. apply Hx. by left.
Qed.

Section Search.
Variables (rails : list Rail.t) (from_system to_system : string).

Local Abbreviation inv := (bfs_inv rails from_system to_system).

Lemma bfs_inv_head_shortest (visited : gset string) (x : string) (p : list string)
    (queue : list (string * list string)) (e : string * list string) :
  inv visited ((x, p) :: queue) -> e ∈ (x, p) :: queue ->
  (List.length p <= List.length e.2)%nat.
Proof.
  intros Hinv [->|He]%elem_of_cons; [done|].
  pose proof (inv_sorted _ _ _ _ _ Hinv) as Hs. inversion Hs as [|? ? _ Hall]; subst.
  rewrite Forall_forall in Hall. by apply (Hall e).
Qed.

(** A route found through the head of the queue is a shortest one. *)
Lemma bfs_inv_found (visited : gset string) (x : string) (p : list string)
    (queue : list (string * list string)) :
  inv visited ((x, p) :: queue) -> has_rail rails x to_system ->
  is_route rails from_system to_system (p ++ [to_system]) /\
  forall w, is_route rails from_system to_system w ->
            (List.length (p ++ [to_system]) <= List.length w)%nat.
Proof.
  intros Hinv Hrail.
  destruct (inv_route _ _ _ _ _ Hinv x p) as [Hp _]; [by left|].
  split; [by eapply is_route_snoc|].
  intros w Hw.
  destruct (inv_frontier _ _ _ _ _ Hinv w Hw) as (w1 & x0 & w2 & p0 & -> & Hq & Hlen & Hw2).
  pose proof (bfs_inv_head_shortest _ _ _ _ _ Hinv Hq) as Hmin. simpl in Hmin.
  destruct (inv_route _ _ _ _ _ Hinv x0 p0 Hq) as [_ Hx0].
  destruct w2 as [|s w2].
  - destruct Hw as (_ & Hlast & _). rewrite last_snoc in Hlast.
    injection Hlast as ->. by destruct (inv_target _ _ _ _ _ Hinv).
  - rewrite !length_app. simpl. lia.
Qed.

(** Queueing a system that is met for the first time. *)
Lemma bfs_inv_enqueue (visited : gset string) (x s : string) (p : list string)
    (queue : list (string * list string)) :
  inv visited ((x, p) :: queue) -> has_rail rails x s ->
  s ≠ to_system -> s ∉ visited ->
  inv ({[s]} ∪ visited) ((x, p) :: (queue ++ [(s, p ++ [s])])).
Proof.
  intros Hinv Hrail Hne Hnew.
  destruct (inv_route _ _ _ _ _ Hinv x p) as [Hp _]; [by left|].
  change ((x, p) :: queue ++ [(s, p ++ [s])])
    with (((x, p) :: queue) ++ [(s, p ++ [s])]).
  split.
  - intros y q [Hq|Hq%list_elem_of_singleton]%elem_of_app.
    + destruct (inv_route _ _ _ _ _ Hinv y q Hq). split; [done|set_solver].
    + injection Hq as -> ->. split; [by eapply is_route_snoc|set_solver].
  - apply StronglySorted_snoc; [by apply (inv_sorted _ _ _ _ _ Hinv)|].
    intros e He. unfold shorter_path. simpl. rewrite length_app. simpl.
    pose proof (inv_spread _ _ _ _ _ Hinv (x, p) e) as Hsp. simpl in Hsp.
    specialize (Hsp ltac:(by left) He). lia.
  - intros e1 e2 [H1|H1%list_elem_of_singleton]%elem_of_app
                 [H2|H2%list_elem_of_singleton]%elem_of_app; subst; simpl;
      rewrite ?length_app; simpl.
    + by apply (inv_spread _ _ _ _ _ Hinv).
    + pose proof (bfs_inv_head_shortest _ _ _ _ _ Hinv H1). lia.
    + pose proof (inv_spread _ _ _ _ _ Hinv (x, p) e2 ltac:(by left) H2) as Hsp.
      simpl in Hsp. lia.
    + lia.
  - pose proof (inv_target _ _ _ _ _ Hinv). set_solver.
  - intros w Hw.
    destruct (inv_frontier _ _ _ _ _ Hinv w Hw) as (w1 & x0 & w2 & p0 & -> & Hq & Hlen & Hw2).
    destruct (decide (s ∈ w2)) as [Hin|Hout].
    + apply list_elem_of_split_r in Hin as (u & v & -> & Hv).
      exists (w1 ++ x0 :: u), s, v, (p ++ [s]). split; [|split; [|split]].
      * by rewrite <- app_assoc.
      * apply elem_of_app. right. by left.
      * pose proof (bfs_inv_head_shortest _ _ _ _ _ Hinv Hq) as Hmin. simpl in Hmin.
        rewrite !length_app. simpl. lia.
      * intros y Hy. specialize (Hw2 y). rewrite elem_of_app, elem_of_cons in Hw2.
        assert (y ≠ s) by (by intros ->). set_solver.
    + exists w1, x0, w2, p0. split; [done|]. split; [apply elem_of_app; by left|].
      split; [done|]. intros y Hy. specialize (Hw2 y Hy).
      assert (y ≠ s) by (by intros ->). set_solver.
Qed.

(** Dropping the head of the queue once all its rails have been followed. *)
Lemma bfs_inv_dequeue (visited : gset string) (x : string) (p : list string)
    (queue : list (string * list string)) :
  inv visited ((x, p) :: queue) ->
  (forall s, has_rail rails x s -> s ∈ visited) ->
  inv visited queue.
Proof.
  intros Hinv Hdone. split.
  - intros y q Hq. apply (inv_route _ _ _ _ _ Hinv). by right.
  - pose proof (inv_sorted _ _ _ _ _ Hinv) as Hs. by inversion Hs.
  - intros e1 e2 H1 H2. apply (inv_spread _ _ _ _ _ Hinv); by right.
  - by apply (inv_target _ _ _ _ _ Hinv).
  - intros w Hw.
    destruct (inv_frontier _ _ _ _ _ Hinv w Hw) as (w1 & x0 & w2 & p0 & -> & Hq & Hlen & Hw2).
    apply elem_of_cons in Hq as [[= -> ->]|Hq].
    + exfalso. destruct w2 as [|s w2].
      * destruct Hw as (_ & Hlast & _). rewrite last_snoc in Hlast.
        injection Hlast as ->.
        destruct (inv_route _ _ _ _ _ Hinv to_system p) as [_ Hvis]; [by left|].
        by destruct (inv_target _ _ _ _ _ Hinv).
      * destruct Hw as (_ & _ & Hwalk). apply is_walk_middle in Hwalk.
        apply (Hw2 s); [by left|by apply Hdone].
    + by exists w1, x0, w2, p0.
Qed.

Lemma unvisited_targets_visit (visited : gset string) (s : string) :
  (exists x, has_rail rails x s) -> s ∉ visited ->
  S (size (unvisited_targets rails ({[s]} ∪ visited)))
  = size (unvisited_targets rails visited).
Proof.
  intros (x & r & Hr & _ & Hto) Hnew. unfold unvisited_targets.
  set (targets := list_to_set (map Rail.to_system rails) : gset string).
  assert (Hin : s ∈ targets).
  { apply elem_of_list_to_set, list_elem_of_fmap. by exists r. }
  assert (Heq : targets ∖ visited = {[s]} ∪ targets ∖ ({[s]} ∪ visited)).
  { apply set_eq. intros y. destruct (decide (y = s)) as [->|]; set_solver. }
  rewrite Heq, (size_union {[s]} (targets ∖ ({[s]} ∪ visited))) by set_solver.
  by rewrite size_singleton.
Qed.

(** One [for] loop over the rails, with [x] under scan. *)
Lemma scan_rails_spec (todo : list Rail.t) (visited : gset string)
    (queue : list (string * list string)) (x : string) (p : list string) :
  (forall r, r ∈ todo -> r ∈ rails) ->
  inv visited ((x, p) :: queue) ->
  match Galaxy.scan_rails todo x p to_system visited queue with
  | inl route =>
      is_route rails from_system to_system route /\
      forall w, is_route rails from_system to_system w ->
                (List.length route <= List.length w)%nat
  | inr (visited', queue') =>
      inv visited' ((x, p) :: queue') /\ visited ⊆ visited' /\
      (forall r, r ∈ todo -> Rail.from_system r = x -> Rail.to_system r ∈ visited') /\
      (List.length queue' + size (unvisited_targets rails visited')
       = List.length queue + size (unvisited_targets rails visited))%nat
  end.
Proof.
  revert visited queue. induction todo as [|r todo IH]; intros visited queue Hsub Hinv.
  - simpl. split; [done|]. split; [done|]. split; [|done]. by intros r ?%elem_of_nil.
  - assert (Hr : r ∈ rails) by (apply Hsub; by left).
    assert (Hsub' : forall r', r' ∈ todo -> r' ∈ rails) by (intros; apply Hsub; by right).
    cbn [Galaxy.scan_rails]. destruct (decide (Rail.from_system r = x)) as [Hfrom|Hfrom].
    + assert (Hrail : has_rail rails x (Rail.to_system r)) by by exists r.
      destruct (decide (Rail.to_system r = to_system)) as [Hto|Hto].
      { rewrite Hto in *. by eapply bfs_inv_found. }
      destruct (decide (Rail.to_system r ∈ visited)) as [Hvis|Hvis].
      * specialize (IH visited queue Hsub' Hinv).
        destruct (Galaxy.scan_rails todo x p to_system visited queue)
          as [route|[visited' queue']]; [done|].
        destruct IH as (Hinv' & Hmono & Hdone & Hsize).
        split; [done|]. split; [done|]. split; [|done].
        intros r' [->|Hr']%elem_of_cons ?; [set_solver|by apply Hdone].
      * pose proof (bfs_inv_enqueue _ _ _ _ _ Hinv Hrail Hto Hvis) as Hinv2.
        specialize (IH _ _ Hsub' Hinv2).
        destruct (Galaxy.scan_rails todo x p to_system _ _)
          as [route|[visited' queue']]; [done|].
        destruct IH as (Hinv' & Hmono & Hdone & Hsize).
        split; [done|]. split; [set_solver|]. split.
        -- intros r' [->|Hr']%elem_of_cons ?; [set_solver|by apply Hdone].
        -- rewrite Hsize, length_app. simpl.
           rewrite <- (unvisited_targets_visit visited (Rail.to_system r)); [lia| |done].
           by exists x.
    + specialize (IH visited queue Hsub' Hinv).
      destruct (Galaxy.scan_rails todo x p to_system visited queue)
        as [route|[visited' queue']]; [done|].
      destruct IH as (Hinv' & Hmono & Hdone & Hsize).
      split; [done|]. split; [done|]. split; [|done].
      intros r' [->|Hr']%elem_of_cons ?; [done|by apply Hdone].
Qed.

(** The [while] loop ends within the fuel, on a shortest route or on the
    absence of any route. *)
Lemma bfs_loop_spec (fuel : nat) (visited : gset string)
    (queue : list (string * list string)) :
  inv visited queue ->
  (List.length queue + size (unvisited_targets rails visited) < fuel)%nat ->
  exists answer,
    Galaxy.bfs_loop fuel rails to_system visited queue = Done answer /\
    match answer with
    | Some route =>
        is_route rails from_system to_system route /\
        forall w, is_route rails from_system to_system w ->
                  (List.length route <= List.length w)%nat
    | None => forall w, ~ is_route rails from_system to_system w
    end.
Proof.
  revert visited queue. induction fuel as [|fuel IH]; intros visited queue Hinv Hfuel;
    [lia|].
  destruct queue as [|[x p] queue].
  - exists None. split; [done|]. intros w Hw.
    destruct (inv_frontier _ _ _ _ _ Hinv w Hw) as (? & ? & ? & ? & _ & Hq & _).
    by apply elem_of_nil in Hq.
  - cbn [Galaxy.bfs_loop].
    pose proof (scan_rails_spec rails visited queue x p ltac:(done) Hinv) as Hscan.
    destruct (Galaxy.scan_rails rails x p to_system visited queue)
      as [route|[visited' queue']].
    + by exists (Some route).
    + destruct Hscan as (Hinv' & Hmono & Hdone & Hsize).
      apply IH; [|simpl in Hfuel; lia].
      eapply bfs_inv_dequeue; [done|].
      intros s (r & Hr & Hfrom & <-). by apply Hdone.
Qed.

End Search.

Lemma size_list_to_set_le (l : list string) :
  (size (list_to_set l : gset string) <= List.length l)%nat.
Proof.
  induction l as [|a l IH].
  - rewrite list_to_set_nil, size_empty. done.
  - rewrite list_to_set_cons, size_union_alt, size_singleton. simpl.
    assert (size ((list_to_set l : gset string) ∖ {[a]}) <= size (list_to_set l : gset string))%nat
      by (apply subseteq_size; set_solver).
    lia.
Qed.

Lemma bfs_inv_start (rails : list Rail.t) (from_system to_system : string) :
  from_system ≠ to_system ->
  bfs_inv rails from_system to_system {[from_system]} [(from_system, [from_system])].
Proof.
  intros Hne. split.
  - intros x p [= -> ->]%list_elem_of_singleton. split; [done|set_solver].
  - repeat constructor.
  - intros e1 e2 ->%list_elem_of_singleton ->%list_elem_of_singleton. simpl. lia.
  - set_solver.
  - intros w Hw. assert (Hin : from_system ∈ w).
    { destruct Hw as (Hhead & _). destruct w; [done|]. injection Hhead as ->. by left. }
    apply list_elem_of_split_r in Hin as (w1 & w2 & -> & Hw2).
    exists w1, from_system, w2, [from_system].
    split; [done|]. split; [by left|]. split; [simpl; lia|].
    intros y Hy. assert (y ≠ from_system) by (by intros ->). set_solver.
Qed.

(** C6. For every galaxy and every ordered pair of distinct system
    identifiers, [get_route] answers a route of the directed rail graph from
    the first system to the second with as few systems as any such route
    has, or the absent value when there is no such route at all. *)
Theorem get_route_shortest (galaxy : Galaxy.t) (from_system to_system : string) :
  from_system ≠ to_system ->
  match Galaxy.get_route galaxy from_system to_system with
  | Some route =>
      is_route (PyDict.values (Galaxy.rails galaxy)) from_system to_system route /\
      forall w, is_route (PyDict.values (Galaxy.rails galaxy)) from_system to_system w ->
                (List.length route <= List.length w)%nat
  | None =>
      forall w, ~ is_route (PyDict.values (Galaxy.rails galaxy)) from_system to_system w
  end.
Proof.
  intros Hne. unfold Galaxy.get_route. destruct (decide _) as [|_]; [done|].
  destruct (bfs_loop_spec (PyDict.values (Galaxy.rails galaxy)) from_system to_system
              (Galaxy.get_route_fuel galaxy) {[from_system]}
              [(from_system, [from_system])]) as (answer & -> & Hanswer);
    [by apply bfs_inv_start| |done].
  unfold Galaxy.get_route_fuel, unvisited_targets, PyDict.values. simpl.
  assert (size ((list_to_set (map Rail.to_system (map snd (Galaxy.rails galaxy))) : gset string)
                  ∖ {[from_system]})
          <= size (list_to_set (map Rail.to_system (map snd (Galaxy.rails galaxy))) : gset string))%nat
    by (apply subseteq_size; set_solver).
  pose proof (size_list_to_set_le (map Rail.to_system (map snd (Galaxy.rails galaxy)))) as Hle.
  rewrite !length_map in Hle. lia.
Qed.

Lemma get_route_shortest_witness :
  match Galaxy.get_route
          (galaxy_of_rails [plain_rail "R1" "A" "B" 10 5; plain_rail "R2" "B" "C" 3 7])
          "A" "C" with
  | Some route =>
      is_route [plain_rail "R1" "A" "B" 10 5; plain_rail "R2" "B" "C" 3 7] "A" "C" route /\
      forall w, is_route [plain_rail "R1" "A" "B" 10 5; plain_rail "R2" "B" "C" 3 7] "A" "C" w ->
                (List.length route <= List.length w)%nat
  | None =>
      forall w, ~ is_route [plain_rail "R1" "A" "B" 10 5; plain_rail "R2" "B" "C" 3 7] "A" "C" w
  end.
Proof.
  apply (get_route_shortest
           (galaxy_of_rails [plain_rail "R1" "A" "B" 10 5; plain_rail "R2" "B" "C" 3 7])
           "A" "C").
  discriminate.
Defined.

(** The two routes of the line graph: from A to C through B, and no route
    from A to C when the rail from B to C is missing. *)
Example get_route_line_graph :
  Galaxy.get_route
    (galaxy_of_rails [plain_rail "R1" "A" "B" 10 5; plain_rail "R2" "B" "C" 3 7])
    "A" "C" = Some ["A"; "B"; "C"] /\
  Galaxy.get_route (galaxy_of_rails [plain_rail "R1" "A" "B" 10 5]) "A" "C" = None.
Proof. split; by vm_compute. Qed.

(** ** Dictionaries *)

Lemma PyDict_get_set {V : Type} (d : PyDict.t V) (k k' : string) (v : V) :
  PyDict.get (PyDict.set d k v) k' =
  if decide (k = k') then Some v else PyDict.get d k'.
Proof.
  induction d as [|[k0 v0] d IH]; simpl.
  - repeat case_decide; done.
  - destruct (decide (k0 = k)) as [->|Hne]; simpl.
    + repeat case_decide; done.
    + rewrite IH. repeat case_decide; congruence.
Qed.

Lemma store_rails_app (d : PyDict.t Rail.t) (l1 l2 : list Rail.t) :
  store_rails d (l1 ++ l2) = store_rails (store_rails d l1) l2.
Proof. unfold store_rails. apply foldl_app. Qed.

Lemma store_rails_get_other (d : PyDict.t Rail.t) (l : list Rail.t) (k : string) :
  k ∉ map Rail.id l -> PyDict.get (store_rails d l) k = PyDict.get d k.
Proof.
  revert d. induction l as [|a l IH]; intros d Hk; [done|].
  simpl in Hk. apply not_elem_of_cons in Hk as [Hne Hk].
  change (store_rails d (a :: l)) with (store_rails (PyDict.set d (Rail.id a) a) l).
  rewrite IH by done. rewrite PyDict_get_set. by case_decide.
Qed.

Lemma store_rails_get (d : PyDict.t Rail.t) (l : list Rail.t) (rail : Rail.t) :
  NoDup (map Rail.id l) -> rail ∈ l ->
  PyDict.get (store_rails d l) (Rail.id rail) = Some rail.
Proof.
  revert d. induction l as [|a l IH]; intros d Hnd Hin; [by apply elem_of_nil in Hin|].
  simpl in Hnd. apply NoDup_cons in Hnd as [Ha Hnd].
  change (store_rails d (a :: l)) with (store_rails (PyDict.set d (Rail.id a) a) l).
  apply elem_of_cons in Hin as [->|Hin].
  - rewrite store_rails_get_other by done. rewrite PyDict_get_set. by case_decide.
  - by apply IH.
Qed.

(** ** Stable sorting *)

Lemma insert_sorted_perm {A : Type} (goes_before : A -> A -> bool) (x : A) (l : list A) :
  insert_sorted goes_before x l ≡ₚ x :: l.
Proof.
  induction l as [|y l IH]; simpl; [done|].
  destruct (goes_before y x); [|done]. rewrite IH. apply Permutation_swap.
Qed.

Lemma stable_sort_perm {A : Type} (goes_before : A -> A -> bool) (l : list A) :
  stable_sort goes_before l ≡ₚ l.
Proof.
  induction l as [|x l IH]; simpl; [done|]. by rewrite insert_sorted_perm, IH.
Qed.

Lemma sort_by_interval_sorted (rails : list Rail.t) :
  Sorted by_interval (sort_by_interval rails).
Proof.
  unfold sort_by_interval. induction rails as [|x rails IH]; simpl; [constructor|].
  revert IH. generalize (stable_sort (fun r1 r2 => Rail.interval_days r1 <? Rail.interval_days r2) rails).
  intros l Hl. induction Hl as [|y l Hl IH Hy]; simpl; [by repeat constructor|].
  destruct (Z.ltb_spec (Rail.interval_days y) (Rail.interval_days x)) as [Hlt|Hge].
  - constructor; [done|]. destruct Hy as [|z l Hyz]; simpl.
    + constructor. unfold by_interval. lia.
    + destruct (Z.ltb_spec (Rail.interval_days z) (Rail.interval_days x));
        constructor; unfold by_interval in *; lia.
  - constructor; [by constructor|]. constructor. done.
Qed.

(** ** Grouping by origin *)

Lemma group_step_perm (system_rails : PyDict.t (list Rail.t)) (rail : Rail.t) :
  concat (PyDict.values
            (PyDict.set system_rails (Rail.from_system rail)
               (default [] (PyDict.get system_rails (Rail.from_system rail)) ++ [rail])))
  ≡ₚ rail :: concat (PyDict.values system_rails).
Proof.
  induction system_rails as [|[k v] d IH]; simpl; [done|].
  destruct (decide (k = Rail.from_system rail)) as [->|Hne]; simpl.
  - rewrite <- app_assoc. simpl. symmetry. apply Permutation_middle.
  - unfold PyDict.values in IH. rewrite IH. symmetry. apply Permutation_middle.
Qed.

Lemma group_by_origin_perm (rails : list Rail.t) :
  concat (PyDict.values (group_by_origin rails)) ≡ₚ rails.
Proof.
  unfold group_by_origin. induction rails as [|rail rails IH] using rev_ind; [done|].
  rewrite foldl_app. simpl. rewrite group_step_perm, IH.
  by rewrite <- Permutation_cons_append.
Qed.

Lemma group_by_origin_get (rails : list Rail.t) (origin : string) :
  default [] (PyDict.get (group_by_origin rails) origin) = origin_group rails origin.
Proof.
  unfold group_by_origin, origin_group.
  induction rails as [|rail rails IH] using rev_ind; [done|].
  rewrite foldl_app, filter_app. simpl. rewrite PyDict_get_set.
  rewrite filter_cons, filter_nil.
  destruct (decide (Rail.from_system rail = origin)) as [->|Hne].
  - simpl. by rewrite IH.
  - by rewrite app_nil_r.
Qed.

Lemma PyDict_get_values {V : Type} (d : PyDict.t V) (k : string) (v : V) :
  PyDict.get d k = Some v -> v ∈ PyDict.values d.
Proof.
  induction d as [|[k0 v0] d IH]; simpl; [done|].
  destruct (decide (k0 = k)); [intros [= ->]; by left|].
  intros ?. right. by apply IH.
Qed.


(** ** Schedule offsets *)

Lemma offset_rails_store (count : Z) (rails : list Rail.t) (i : Z)
    (optimized_rails : PyDict.t Rail.t) :
  RailGenerator.offset_rails count rails i optimized_rails
  = store_rails optimized_rails (offset_list count rails i).
Proof.
  revert i optimized_rails. induction rails as [|rail rails IH]; intros i d; [done|].
  simpl. by rewrite IH.
Qed.

Lemma spread_departures_store (base_date : datetime) (count : Z)
    (rails : list Rail.t) (current_offset : Z) (optimized_rails : PyDict.t Rail.t) :
  ScheduleGenerator.spread_departures base_date count rails current_offset
    optimized_rails
  = store_rails optimized_rails (spread_list base_date count rails current_offset).
Proof.
  revert current_offset optimized_rails.
  induction rails as [|rail rails IH]; intros off d; [done|].
  simpl. by rewrite IH.
Qed.

Lemma offset_list_ids (count : Z) (rails : list Rail.t) (i : Z) :
  map Rail.id (offset_list count rails i) = map Rail.id rails.
Proof.
  revert i. induction rails as [|rail rails IH]; intros i; [done|].
  simpl. by rewrite IH.
Qed.

Lemma spread_list_ids (base_date : datetime) (count : Z) (rails : list Rail.t)
    (current_offset : Z) :
  map Rail.id (spread_list base_date count rails current_offset) = map Rail.id rails.
Proof.
  revert current_offset. induction rails as [|rail rails IH]; intros off; [done|].
  simpl. by rewrite IH.
Qed.

Lemma offset_list_lookup (count : Z) (rails : list Rail.t) (i0 : Z) (i : nat)
    (rail : Rail.t) :
  rails !! i = Some rail ->
  offset_list count rails i0 !! i
  = Some (Rail.replace_next_fire rail
            (RailGenerator.base_time +
             timedelta_days (Rail.interval_days rail * (i0 + Z.of_nat i) / count))).
Proof.
  revert i0 i. induction rails as [|a rails IH]; intros i0 i Hi; [done|].
  destruct i as [|i].
  - simpl in *. injection Hi as ->. by rewrite Z.add_0_r.
  - change (offset_list count (a :: rails) i0 !! S i)
      with (offset_list count rails (i0 + 1) !! i).
    rewrite (IH (i0 + 1) i Hi).
    replace (i0 + 1 + Z.of_nat i) with (i0 + Z.of_nat (S i)) by lia. done.
Qed.

Lemma accumulated_offset_from (count : Z) (rails : list Rail.t) (start : Z) :
  foldl (fun offset rail => offset + Z.max 1 (Rail.interval_days rail / count))
        start rails
  = start + foldl (fun offset rail => offset + Z.max 1 (Rail.interval_days rail / count))
              0 rails.
Proof.
  revert start. induction rails as [|a rails IH]; intros start; simpl; [lia|].
  rewrite (IH (start + _)), (IH (0 + _)). lia.
Qed.

Lemma spread_list_lookup (base_date : datetime) (count : Z) (rails : list Rail.t)
    (off : Z) (i : nat) (rail : Rail.t) :
  rails !! i = Some rail ->
  spread_list base_date count rails off !! i
  = Some (Rail.replace_next_fire rail
            (base_date + timedelta_days (off + accumulated_offset count rails i))).
Proof.
  revert off i. induction rails as [|a rails IH]; intros off i Hi; [done|].
  destruct i as [|i].
  - simpl in *. injection Hi as ->. unfold accumulated_offset. simpl.
    by rewrite Z.add_0_r.
  - change (spread_list base_date count (a :: rails) off !! S i)
      with (spread_list base_date count rails
              (off + Z.max 1 (Rail.interval_days a / count)) !! i).
    rewrite (IH _ i Hi). do 3 f_equal. unfold accumulated_offset.
    cbn [take foldl]. rewrite (accumulated_offset_from count (take i rails) (0 + _)).
    f_equal. lia.
Qed.

Section Respacing.
Variable respace : Z -> list Rail.t -> list Rail.t.
Hypothesis respace_ids : forall count rails,
  map Rail.id (respace count rails) = map Rail.id rails.

Lemma optimized_group_ids (group : list Rail.t) :
  map Rail.id (optimized_group respace group) ≡ₚ map Rail.id group.
Proof.
  unfold optimized_group. destruct (_ <=? _)%nat; [done|].
  rewrite respace_ids. apply Permutation_map, stable_sort_perm.
Qed.

Lemma optimized_groups_ids (groups : list (list Rail.t)) :
  map Rail.id (concat (map (optimized_group respace) groups))
  ≡ₚ map Rail.id (concat groups).
Proof.
  induction groups as [|g groups IH]; [done|].
  simpl. rewrite !map_app. by rewrite optimized_group_ids, IH.
Qed.

(** Once the rails carry distinct identifiers, what is stored for a group
    is what the dictionary holds in the end. *)
Lemma optimized_group_get (rails : list Rail.t) (group : list Rail.t)
    (stored : Rail.t) :
  NoDup (map Rail.id rails) ->
  group ∈ PyDict.values (group_by_origin rails) ->
  stored ∈ optimized_group respace group ->
  PyDict.get
    (store_rails [] (concat (map (optimized_group respace)
                               (PyDict.values (group_by_origin rails)))))
    (Rail.id stored) = Some stored.
Proof.
  intros Hnd Hgroup Hstored. apply store_rails_get.
  - rewrite optimized_groups_ids. by rewrite group_by_origin_perm.
  - apply list_elem_of_In, in_concat. exists (optimized_group respace group).
    split; [|by apply list_elem_of_In]. apply in_map. by apply list_elem_of_In.
Qed.

End Respacing.

Lemma optimize_groups_store (respace : Z -> list Rail.t -> list Rail.t)
    (assign : Z -> list Rail.t -> PyDict.t Rail.t -> PyDict.t Rail.t)
    (groups : list (list Rail.t)) (optimized_rails : PyDict.t Rail.t) :
  (forall count rails d, assign count rails d = store_rails d (respace count rails)) ->
  foldl (fun optimized_rails rails =>
           if (List.length rails <=? 1)%nat then store_rails optimized_rails rails
           else assign (Z.of_nat (List.length rails)) (sort_by_interval rails)
                  optimized_rails)
        optimized_rails groups
  = store_rails optimized_rails (concat (map (optimized_group respace) groups)).
Proof.
  intros Hassign. revert optimized_rails.
  induction groups as [|g groups IH]; intros d; [done|].
  simpl. rewrite IH, store_rails_app. f_equal.
  unfold optimized_group. destruct (_ <=? _)%nat; [done|]. apply Hassign.
Qed.

Lemma optimize_rail_schedules_store (galaxy : Galaxy.t) :
  RailGenerator.optimize_rail_schedules galaxy
  = store_rails []
      (concat (map (optimized_group (fun count rails => offset_list count rails 0))
                 (PyDict.values
                    (group_by_origin (PyDict.values (Galaxy.rails galaxy)))))).
Proof.
  unfold RailGenerator.optimize_rail_schedules.
  apply (optimize_groups_store (fun count rails => offset_list count rails 0)
           (fun count rails d => RailGenerator.offset_rails count rails 0 d)).
  intros. apply offset_rails_store.
Qed.

Lemma optimize_departure_times_store (galaxy : Galaxy.t) (base_date : datetime) :
  ScheduleGenerator.optimize_departure_times galaxy base_date
  = store_rails []
      (concat (map (optimized_group
                      (fun count rails => spread_list base_date count rails 0))
                 (PyDict.values
                    (group_by_origin (PyDict.values (Galaxy.rails galaxy)))))).
Proof.
  unfold ScheduleGenerator.optimize_departure_times.
  apply (optimize_groups_store
           (fun count rails => spread_list base_date count rails 0)
           (fun count rails d =>
              ScheduleGenerator.spread_departures base_date count rails 0 d)).
  intros. apply spread_departures_store.
Qed.

Lemma origin_group_in_values (rails : list Rail.t) (origin : string) :
  origin_group rails origin ≠ [] ->
  origin_group rails origin ∈ PyDict.values (group_by_origin rails).
Proof.
  intros Hne. pose proof (group_by_origin_get rails origin) as Hget.
  destruct (PyDict.get (group_by_origin rails) origin) as [g|] eqn:Hg; simpl in Hget.
  - subst g. by eapply PyDict_get_values.
  - by destruct Hne.
Qed.

Lemma replace_next_fire_same (rail : Rail.t) :
  Rail.replace_next_fire rail (Rail.next_fire rail) = rail.
Proof. by destruct rail. Qed.

(** The frame of [replace]: every field but [next_fire] is the input's. *)
Lemma replace_next_fire_frame (rail : Rail.t) (t : datetime) :
  let rail' := Rail.replace_next_fire rail t in
  Rail.id rail' = Rail.id rail /\
  Rail.from_system rail' = Rail.from_system rail /\
  Rail.to_system rail' = Rail.to_system rail /\
  Rail.rail_class rail' = Rail.rail_class rail /\
  Rail.length rail' = Rail.length rail /\
  Rail.construction_date rail' = Rail.construction_date rail /\
  Rail.interval_days rail' = Rail.interval_days rail /\
  Rail.gravitium_cost rail' = Rail.gravitium_cost rail /\
  Rail.max_capacity rail' = Rail.max_capacity rail /\
  Rail.next_fire rail' = t.
Proof. by repeat split. Qed.



(** The hub, optimized: the rails out of A are taken by increasing interval
    (R3, every 12 days, before R1, every 30 days), and the lone rail out of B
    is left as it is. *)
Example optimize_rail_schedules_hub :
  PyDict.values (RailGenerator.optimize_rail_schedules hub_galaxy)
  = [Rail.replace_next_fire (plain_rail "R3" "A" "C" 4 12) RailGenerator.base_time;
     Rail.replace_next_fire (plain_rail "R1" "A" "B" 10 30)
       (RailGenerator.base_time + timedelta_days 15);
     plain_rail "R2" "B" "C" 3 7].
Proof. reflexivity. Qed.

(** ** Strongly connected components *)

Lemma getitem_Some {V : Type} (d : gmap string V) (k : string) (v : V) :
  d !! k = Some v -> getitem d k = Done v.
Proof. unfold getitem. by intros ->. Qed.

Lemma tarjan_frame_refl (st : Tarjan.state) : tarjan_frame st st.
Proof.
  split; try done.
  - exists []. split; [done|]. by intros x ?%elem_of_nil.
Qed.

Lemma tarjan_frame_dom (st st' : Tarjan.state) (x : string) :
  tarjan_frame st st' -> x ∈ dom (Tarjan.indices st) -> x ∈ dom (Tarjan.indices st').
Proof.
  intros Hf Hx. apply elem_of_dom. rewrite (frame_indices _ _ Hf x Hx).
  by apply elem_of_dom.
Qed.

Lemma tarjan_frame_num (st st' : Tarjan.state) (x : string) :
  tarjan_frame st st' -> x ∈ dom (Tarjan.indices st) -> num st' x = num st x.
Proof. intros Hf Hx. unfold num. by rewrite (frame_indices _ _ Hf x Hx). Qed.

Lemma tarjan_frame_trans (st1 st2 st3 : Tarjan.state) :
  tarjan_frame st1 st2 -> tarjan_frame st2 st3 -> tarjan_frame st1 st3.
Proof.
  intros H12 H23. split.
  - intros x Hx. rewrite (frame_indices _ _ H23), (frame_indices _ _ H12); [done..|].
    by eapply tarjan_frame_dom.
  - intros x Hx. rewrite (frame_lowlinks _ _ H23), (frame_lowlinks _ _ H12); [done..|].
    by eapply tarjan_frame_dom.
  - destruct (frame_stack _ _ H12) as (s & Hs & Hnew).
    destruct (frame_stack _ _ H23) as (s' & Hs' & Hnew').
    exists (s' ++ s). split; [by rewrite Hs', Hs, app_assoc|].
    intros x [Hx|Hx]%elem_of_app; [|by apply Hnew].
    intros Hdom. apply (Hnew' x Hx). by eapply tarjan_frame_dom.
  - intros x Hx3 Hx1. destruct (decide (x ∈ dom (Tarjan.indices st2))) as [Hx2|Hx2].
    + rewrite (tarjan_frame_num _ _ _ H23 Hx2). by apply (frame_new _ _ H12).
    + pose proof (frame_new _ _ H23 x Hx3 Hx2). pose proof (frame_index _ _ H12). lia.
  - pose proof (frame_index _ _ H12). pose proof (frame_index _ _ H23). lia.
Qed.

Lemma num_enter (v x : string) (st : Tarjan.state) :
  num (Tarjan.enter v st) x = if decide (x = v) then Tarjan.index st else num st x.
Proof.
  unfold num. simpl. destruct (decide (x = v)) as [->|Hne].
  - by rewrite lookup_insert_eq.
  - by rewrite lookup_insert_ne.
Qed.

Lemma dom_enter (v : string) (st : Tarjan.state) :
  dom (Tarjan.indices (Tarjan.enter v st)) = {[v]} ∪ dom (Tarjan.indices st).
Proof. simpl. by rewrite dom_insert_L. Qed.

Section Components.
Variable graph : gmap string (list string).

Local Abbreviation reach := (rtc (edge graph)).

Lemma enter_wf (gray : gset string) (v : string) (st : Tarjan.state) :
  tarjan_wf graph gray st -> v ∉ dom (Tarjan.indices st) ->
  (forall x, x ∈ gray -> reach x v) ->
  tarjan_wf graph ({[v]} ∪ gray) (Tarjan.enter v st).
Proof.
  intros Hwf Hv Hgray.
  assert (Hvs : v ∉ Tarjan.stack st) by (intros ?; by apply Hv, (wf_stack_visited _ _ _ Hwf)).
  split.
  - intros x. simpl. rewrite elem_of_union, elem_of_singleton, elem_of_cons.
    by rewrite (wf_on_stack _ _ _ Hwf).
  - simpl. apply NoDup_cons. split; [done|]. by apply (wf_stack_nodup _ _ _ Hwf).
  - intros x. rewrite dom_enter. simpl. intros [->|Hx]%elem_of_cons; [set_solver|].
    apply (wf_stack_visited _ _ _ Hwf) in Hx. set_solver.
  - intros x. rewrite dom_enter, num_enter. simpl. intros Hx. case_decide; [lia|].
    assert (Hx' : x ∈ dom (Tarjan.indices st)) by set_solver.
    pose proof (wf_index _ _ _ Hwf x Hx'). lia.
  - intros x y. rewrite dom_enter, !num_enter. intros Hx Hy.
    repeat case_decide; subst; try done.
    + intros Heq. assert (Hy' : y ∈ dom (Tarjan.indices st)) by set_solver.
      pose proof (wf_index _ _ _ Hwf y Hy'). lia.
    + intros Heq. assert (Hx' : x ∈ dom (Tarjan.indices st)) by set_solver.
      pose proof (wf_index _ _ _ Hwf x Hx'). lia.
    + apply (wf_num_inj _ _ _ Hwf); set_solver.
  - simpl. rewrite !dom_insert_L. by rewrite (wf_lowlinks _ _ _ Hwf).
  - intros x. simpl. intros [->%elem_of_singleton|Hx]%elem_of_union; [by left|].
    right. by apply (wf_gray _ _ _ Hwf).
  - intros x y. simpl. rewrite !num_enter.
    intros [->|Hx]%elem_of_cons [->|Hy]%elem_of_cons; repeat case_decide; subst; try done.
    + intros Hle. apply (wf_stack_visited _ _ _ Hwf) in Hy.
      pose proof (wf_index _ _ _ Hwf y Hy). lia.
    + intros _. destruct (wf_to_gray _ _ _ Hwf x Hx) as (z & Hz & _ & Hxz).
      etrans; [done|]. by apply Hgray.
    + by apply (wf_stack_reach _ _ _ Hwf).
  - intros y. simpl. intros [->|Hy]%elem_of_cons.
    + exists v. split; [set_solver|]. done.
    + destruct (wf_to_gray _ _ _ Hwf y Hy) as (x & Hx & Hle & Hyx).
      exists x. split; [set_solver|]. split; [|done].
      rewrite !num_enter. repeat case_decide; subst; try done.
      * by apply (wf_gray _ _ _ Hwf) in Hx.
  - intros x y. rewrite dom_enter. intros Hx Hnot Hedge.
    assert (x ∈ dom (Tarjan.indices st)) by set_solver.
    pose proof (wf_black _ _ _ Hwf x y). set_solver.
  - intros x y. rewrite dom_enter. simpl. intros Hx Hnot Hedge.
    apply not_elem_of_cons in Hnot as [Hne Hnot].
    assert (Hx' : x ∈ dom (Tarjan.indices st)) by set_solver.
    destruct (wf_popped _ _ _ Hwf x y Hx' Hnot Hedge) as [Hy Hys].
    split; [set_solver|]. apply not_elem_of_cons. split; [|done]. by intros ->.
  - by apply (wf_sccs_nodup _ _ _ Hwf).
  - intros c Hc. destruct (wf_sccs _ _ _ Hwf c Hc) as [Hlen Hin].
    split; [done|]. intros x Hx. rewrite dom_enter. simpl.
    destruct (Hin x Hx) as (Hdom & Hst & Hconn).
    split; [set_solver|]. split; [|done].
    apply not_elem_of_cons. split; [|done]. by intros ->.
  - intros x y. rewrite dom_enter. simpl. intros Hx Hnot Hne Hconn.
    apply not_elem_of_cons in Hnot as [Hxv Hnot].
    apply (wf_sccs_complete _ _ _ Hwf x y); [set_solver|done..].
Qed.

Lemma set_lowlink_wf (gray : gset string) (v : string) (low : nat) (st : Tarjan.state) :
  tarjan_wf graph gray st -> v ∈ dom (Tarjan.indices st) ->
  tarjan_wf graph gray (Tarjan.set_lowlink v low st).
Proof.
  intros Hwf Hv. destruct Hwf. split; try done.
  simpl. rewrite dom_insert_L. set_solver.
Qed.

Lemma set_lowlink_frame (v : string) (low : nat) (st st' : Tarjan.state) :
  tarjan_frame st st' -> v ∉ dom (Tarjan.indices st) ->
  tarjan_frame st (Tarjan.set_lowlink v low st').
Proof.
  intros Hf Hv. destruct Hf. split; try done.
  intros x Hx. simpl. rewrite lookup_insert_ne; [by auto|]. by intros ->.
Qed.

Lemma enter_loop (gray : gset string) (v : string) (st : Tarjan.state) :
  tarjan_wf graph gray st -> v ∉ dom (Tarjan.indices st) ->
  (forall x, x ∈ gray -> reach x v) ->
  tarjan_loop graph gray v st [] (Tarjan.enter v st).
Proof.
  intros Hwf Hv Hgray. split.
  - by apply enter_wf.
  - split; simpl.
    + intros x Hx. rewrite lookup_insert_ne; [done|]. by intros ->.
    + intros x Hx. rewrite lookup_insert_ne; [done|]. by intros ->.
    + exists [v]. split; [done|]. by intros x ->%list_elem_of_singleton.
    + intros x. rewrite dom_insert_L, num_enter. intros Hx Hnew.
      case_decide; [done|set_solver].
    + lia.
  - simpl. by rewrite lookup_insert_eq.
  - exists []. split; [done|]. by intros x ?%elem_of_nil.
  - by intros w ?%elem_of_nil.
  - exists (Tarjan.index st). split; [simpl; by rewrite lookup_insert_eq|].
    split; [done|]. split; [|split].
    + exists v. split; [by left|]. split; [|done]. rewrite num_enter. by case_decide.
    + intros x y Hx Hnot. by destruct Hnot.
    + by intros w ?%elem_of_nil.
Qed.

Lemma num_set_lowlink (v x : string) (low : nat) (st : Tarjan.state) :
  num (Tarjan.set_lowlink v low st) x = num st x.
Proof. done. Qed.

Lemma num_lookup (st : Tarjan.state) (x : string) (n : nat) :
  Tarjan.indices st !! x = Some n -> num st x = n.
Proof. unfold num. by intros ->. Qed.

Section Loop.
Variable nodes : gset string.
Hypothesis edges_in_nodes : forall x y, edge graph x y -> y ∈ nodes.
Variables (call : string -> Tarjan.state -> outcome Tarjan.state) (fuel : nat).
Hypothesis call_spec : forall gray w st,
  tarjan_wf graph gray st -> w ∉ dom (Tarjan.indices st) -> w ∈ nodes ->
  (forall x, x ∈ gray -> reach x w) ->
  (size (nodes ∖ dom (Tarjan.indices st)) < fuel)%nat ->
  exists st', call w st = Done st' /\ tarjan_post graph gray w st st'.

Lemma unvisited_mono (st st' : Tarjan.state) :
  tarjan_frame st st' ->
  (size (nodes ∖ dom (Tarjan.indices st')) <= size (nodes ∖ dom (Tarjan.indices st)))%nat.
Proof.
  intros Hf. apply subseteq_size. intros x [Hx Hnot]%elem_of_difference.
  apply elem_of_difference. split; [done|]. intros Hdom. apply Hnot.
  by eapply tarjan_frame_dom.
Qed.

Lemma for_successors_spec (gray : gset string) (v : string) (st : Tarjan.state) :
  tarjan_wf graph gray st -> v ∉ dom (Tarjan.indices st) ->
  (forall x, x ∈ gray -> reach x v) ->
  forall ws seen st_k,
    graph !!! v = seen ++ ws ->
    tarjan_loop graph gray v st seen st_k ->
    (size (nodes ∖ dom (Tarjan.indices st_k)) < fuel)%nat ->
    exists st_n,
      Tarjan.for_successors call v ws st_k = Done st_n /\
      tarjan_loop graph gray v st (graph !!! v) st_n.
Proof.
  intros Hwf0 Hv Hgray ws. induction ws as [|w ws IH]; intros seen st_k Hsplit Hloop Hfuel.
  { exists st_k. split; [done|]. by rewrite Hsplit, app_nil_r. }
  assert (Hedge : edge graph v w).
  { unfold edge. rewrite Hsplit. apply elem_of_app. right. by left. }
  destruct Hloop as [Hwf Hframe Hidx Hstack Hseen
                       (low & Hlow & Hle & (y0 & Hy0 & Hny0 & Hry0) & Hx & Hs)].
  assert (Hvk : v ∈ dom (Tarjan.indices st_k)) by (by apply elem_of_dom).
  pose proof (num_lookup _ _ _ Hidx) as Hnumv.
  pose proof (wf_index _ _ _ Hwf v Hvk) as Hlt. rewrite Hnumv in Hlt.
  assert (Hold : forall y, y ∈ Tarjan.stack st -> num st_k y = num st y).
  { intros y Hy. apply tarjan_frame_num; [done|]. by apply (wf_stack_visited _ _ _ Hwf0). }
  cbn [Tarjan.for_successors].
  destruct (decide (w ∈ dom (Tarjan.indices st_k))) as [Hw|Hw].
  - destruct (decide (w ∈ Tarjan.on_stack st_k)) as [Hon|Hoff].
    + apply elem_of_dom in Hw as Hn. destruct Hn as [n Hn].
      rewrite (getitem_Some _ _ _ Hlow), (getitem_Some _ _ _ Hn). cbn.
      apply (IH (seen ++ [w])); [by rewrite <- app_assoc| |done].
      pose proof (num_lookup _ _ _ Hn) as Hnw.
      split.
      * by apply set_lowlink_wf.
      * by apply set_lowlink_frame.
      * done.
      * done.
      * intros w' [Hw'| ->%list_elem_of_singleton]%elem_of_app; simpl; [by apply Hseen|done].
      * exists (Nat.min low n). split; [simpl; by rewrite lookup_insert_eq|].
        split; [lia|]. split; [|split].
        -- destruct (le_lt_dec low n).
           ++ exists y0. rewrite Nat.min_l by done. done.
           ++ exists w. rewrite Nat.min_r by lia. split; [by apply (wf_on_stack _ _ _ Hwf)|].
              split; [done|]. by apply rtc_once.
        -- intros x y H1 H2 H3 H4. pose proof (Hx x y H1 H2 H3 H4). lia.
        -- intros w' [Hw'| ->%list_elem_of_singleton]%elem_of_app Hst.
           ++ pose proof (Hs w' Hw' Hst). lia.
           ++ rewrite <- (Hold w Hst). lia.
    + apply (IH (seen ++ [w])); [by rewrite <- app_assoc| |done].
      split; try done.
      * intros w' [Hw'| ->%list_elem_of_singleton]%elem_of_app; [by apply Hseen|done].
      * exists low. split; [done|]. split; [done|]. split; [by exists y0|].
        split; [done|].
        intros w' [Hw'| ->%list_elem_of_singleton]%elem_of_app Hst; [by apply Hs|].
        destruct Hoff. apply (wf_on_stack _ _ _ Hwf).
        destruct Hstack as (s & -> & _). apply elem_of_app. right. by right.
  - destruct (call_spec ({[v]} ∪ gray) w st_k Hwf Hw) as (st1 & Hrun & Hpost); [| |done|].
    { by eapply edges_in_nodes. }
    { intros x [->%elem_of_singleton|Hxg]%elem_of_union; [by apply rtc_once|].
      eapply rtc_r; [by apply Hgray|done]. }
    rewrite Hrun. cbn.
    destruct Hpost as [Hwf1 Hframe1 Hidx1 (low_w & Hlow_w & Hle_w & Hcase & Hx1)].
    rewrite (getitem_Some (Tarjan.lowlinks st1) v low), (getitem_Some _ _ _ Hlow_w);
      [|by rewrite (frame_lowlinks _ _ Hframe1 v Hvk)]. cbn.
    pose proof (tarjan_frame_dom _ _ v Hframe1 Hvk) as Hv1.
    destruct (frame_stack _ _ Hframe1) as (s1 & Hs1 & Hnew1).
    assert (Hkeep : forall y, y ∈ Tarjan.stack st_k ->
                      y ∈ Tarjan.stack st1 /\ num st1 y = num st_k y).
    { intros y Hy. split; [rewrite Hs1; apply elem_of_app; by right|].
      apply tarjan_frame_num; [done|]. by apply (wf_stack_visited _ _ _ Hwf). }
    apply (IH (seen ++ [w])); [by rewrite <- app_assoc| |].
    2:{ simpl. pose proof (unvisited_mono _ _ Hframe1). lia. }
    split.
    * by apply set_lowlink_wf.
    * apply set_lowlink_frame; [|done]. by eapply tarjan_frame_trans.
    * simpl. by rewrite (frame_indices _ _ Hframe1 v Hvk).
    * destruct Hstack as (s & Hs0 & Hnew). exists (s1 ++ s). simpl.
      split; [by rewrite Hs1, Hs0, app_assoc|].
      intros x [Hxs|Hxs]%elem_of_app; [|by apply Hnew].
      intros Hdom. apply (Hnew1 x Hxs). by eapply tarjan_frame_dom.
    * intros w' [Hw'| ->%list_elem_of_singleton]%elem_of_app; simpl.
      -- eapply tarjan_frame_dom; [done|]. by apply Hseen.
      -- by apply elem_of_dom.
    * exists (Nat.min low low_w). split; [simpl; by rewrite lookup_insert_eq|].
      split; [lia|]. split; [|split].
      -- destruct (le_lt_dec low low_w).
         ++ exists y0. rewrite Nat.min_l by done. rewrite num_set_lowlink. simpl.
            destruct (Hkeep y0 Hy0) as [? ->]. done.
         ++ rewrite Nat.min_r by lia.
            destruct (decide (low_w = Tarjan.index st_k)) as [|_]; [lia|].
            destruct Hcase as (_ & y & Hy & Hny & Hry).
            exists y. rewrite num_set_lowlink. simpl.
            destruct (Hkeep y Hy) as [? ->]. split; [done|]. split; [done|].
            by eapply rtc_l.
      -- intros x y H1 H2 H3 H4. simpl in H1.
         destruct (decide (x ∈ Tarjan.stack st_k)) as [Hxk|Hxk].
         ++ pose proof (Hx x y Hxk H2 H3 H4). lia.
         ++ assert (Hyk : y ∈ Tarjan.stack st_k).
            { destruct Hstack as (s & -> & _). apply elem_of_app. right. by right. }
            pose proof (Hx1 x y H1 Hxk H3 Hyk) as Hle1. rewrite (Hold y H4) in Hle1. lia.
      -- intros w' [Hw'| ->%list_elem_of_singleton]%elem_of_app Hst.
         ++ pose proof (Hs w' Hw' Hst). lia.
         ++ destruct Hw. eapply tarjan_frame_dom; [done|].
            by apply (wf_stack_visited _ _ _ Hwf0).
Qed.

End Loop.

Lemma pop_scc_spec (v : string) (s rest : list string) (on_stack : gset string)
    (scc : list string) :
  v ∉ s ->
  Tarjan.pop_scc v (s ++ v :: rest) on_stack scc
  = Done (rest, on_stack ∖ list_to_set (s ++ [v]), scc ++ s ++ [v]).
Proof.
  revert on_stack scc. induction s as [|w s IH]; intros on_stack scc Hv; simpl.
  - case_decide; [|done]. do 3 f_equal. set_solver.
  - apply not_elem_of_cons in Hv as [Hne Hv]. case_decide as Hw; [by subst|].
    rewrite IH by done. rewrite <- app_assoc. do 3 f_equal. set_solver.
Qed.

Lemma connected_sym (x y : string) : connected graph x y -> connected graph y x.
Proof. by intros [? ?]. Qed.

Lemma connected_trans (x y z : string) :
  connected graph x y -> connected graph y z -> connected graph x z.
Proof. intros [? ?] [? ?]. split; by etrans. Qed.

Lemma leave_spec (gray : gset string) (v : string) (st st_n : Tarjan.state) :
  tarjan_wf graph gray st -> v ∉ dom (Tarjan.indices st) ->
  (forall x, x ∈ gray -> reach x v) ->
  tarjan_loop graph gray v st (graph !!! v) st_n ->
  exists st', Tarjan.leave v st_n = Done st' /\ tarjan_post graph gray v st st'.
Proof.
  intros Hwf0 Hv Hgray
    [Hwf Hframe Hidx (s & Hstack & Hnew) Hseen
       (low & Hlow & Hle & (y0 & Hy0 & Hny0 & Hry0) & Hx & Hs)].
  assert (Hvn : v ∈ dom (Tarjan.indices st_n)) by (by apply elem_of_dom).
  pose proof (num_lookup _ _ _ Hidx) as Hnumv.
  pose proof (wf_stack_nodup _ _ _ Hwf) as Hnd. rewrite Hstack in Hnd.
  apply NoDup_app in Hnd as (Hnds & Hdisj & Hnd0).
  apply NoDup_cons in Hnd0 as [Hv0 Hnd0].
  assert (Hvs : v ∉ s) by (intros Hin; apply (Hdisj v Hin); by left).
  assert (Hold : forall y, y ∈ dom (Tarjan.indices st) ->
                   num st_n y = num st y /\ (num st y < Tarjan.index st)%nat).
  { intros y Hy. split; [by apply tarjan_frame_num|]. by apply (wf_index _ _ _ Hwf0). }
  assert (Hstack0 : forall y, y ∈ Tarjan.stack st -> y ∈ dom (Tarjan.indices st))
    by apply (wf_stack_visited _ _ _ Hwf0).
  assert (Hin_s : forall x, x ∈ s -> x ∈ Tarjan.stack st_n).
  { intros x Hxs. rewrite Hstack. apply elem_of_app. by left. }
  assert (Hin_0 : forall x, x ∈ Tarjan.stack st -> x ∈ Tarjan.stack st_n).
  { intros x Hxs. rewrite Hstack. apply elem_of_app. right. by right. }
  assert (Hin_v : v ∈ Tarjan.stack st_n).
  { rewrite Hstack. apply elem_of_app. right. by left. }
  assert (Hnum_new : forall x, x ∈ s -> (Tarjan.index st < num st_n x)%nat).
  { intros x Hxs.
    assert (Hxn : x ∈ dom (Tarjan.indices st_n)) by (by apply (wf_stack_visited _ _ _ Hwf), Hin_s).
    pose proof (frame_new _ _ Hframe x Hxn (Hnew x Hxs)) as Hge.
    destruct (decide (num st_n x = Tarjan.index st)) as [Heq|]; [|lia].
    assert (x = v); [|by subst].
    apply (wf_num_inj _ _ _ Hwf); [done..|]. by rewrite Hnumv. }
  assert (Hgray0 : forall x, x ∈ gray -> x ∈ Tarjan.stack st) by apply (wf_gray _ _ _ Hwf0).
  assert (Hsucc : forall x y, x ∈ s ++ [v] -> edge graph x y -> y ∈ dom (Tarjan.indices st_n)).
  { intros x y [Hxs| ->%list_elem_of_singleton]%elem_of_app Hedge; [|by apply Hseen].
    apply (wf_black _ _ _ Hwf x y); [by apply (wf_stack_visited _ _ _ Hwf), Hin_s| |done].
    intros [->%elem_of_singleton|Hxg]%elem_of_union; [done|].
    apply (Hdisj x Hxs). right. by apply Hgray0. }
  assert (Hxedge : forall x y, x ∈ s ++ [v] -> edge graph x y -> y ∈ Tarjan.stack st ->
                     (low <= num st y)%nat).
  { intros x y [Hxs| ->%list_elem_of_singleton]%elem_of_app Hedge Hy; [|by apply Hs].
    apply (Hx x y); [by apply Hin_s| |done..].
    intros [->|Hx0]%elem_of_cons; [done|]. apply (Hdisj x Hxs). by right. }
  unfold Tarjan.leave.
  rewrite (getitem_Some _ _ _ Hlow), (getitem_Some _ _ _ Hidx). cbn.
  destruct (decide (low = Tarjan.index st)) as [Hroot|Hinner].
  2:{ (* [v] stays on the stack *)
    exists st_n. split; [done|].
    assert (Hy00 : y0 ∈ Tarjan.stack st).
    { rewrite Hstack in Hy0. apply elem_of_app in Hy0 as [Hy0|Hy0].
      - pose proof (Hnum_new y0 Hy0). lia.
      - apply elem_of_cons in Hy0 as [->|Hy0]; [|done]. lia. }
    split.
    - split; try by destruct Hwf.
      + intros x Hxg. by apply Hin_0, Hgray0.
      + intros y Hy. destruct (wf_to_gray _ _ _ Hwf y Hy) as (x & Hxg & Hxle & Hyx).
        apply elem_of_union in Hxg as [->%elem_of_singleton|Hxg]; [|by exists x].
        destruct (wf_to_gray _ _ _ Hwf y0 (Hin_0 _ Hy00)) as (x' & Hxg' & Hxle' & Hyx').
        apply elem_of_union in Hxg' as [->%elem_of_singleton|Hxg']; [lia|].
        exists x'. split; [done|]. split; [lia|]. etrans; [done|]. by etrans.
      + intros x y Hxd Hxg Hedge. destruct (decide (x = v)) as [->|Hne]; [by apply Hseen|].
        apply (wf_black _ _ _ Hwf x y); [done| |done]. set_solver.
    - done.
    - done.
    - exists low. split; [done|]. split; [done|]. case_decide; [done|]. split.
      + split; [done|]. exists y0. split; [done|]. split; [|done].
        by rewrite <- (proj1 (Hold y0 (Hstack0 _ Hy00))).
      + intros x y Hxn Hx0 Hedge Hy. apply (Hxedge x y); [|done..].
        rewrite Hstack in Hxn. apply elem_of_app in Hxn as [Hxs|Hxv]; apply elem_of_app;
          [by left|right].
        apply elem_of_cons in Hxv as [->|?]; [by left|done]. }
  (* [v] is the root of its component *)
  clear Hy0 Hny0 Hry0. subst low. rewrite Hstack, (pop_scc_spec v s _ _ [] Hvs). cbn.
  set (c := s ++ [v]).
  set (sccs' := if decide (1 < length c)%nat then Tarjan.sccs st_n ++ [c]
                else Tarjan.sccs st_n).
  eexists. split; [reflexivity|].
  assert (Hc_stack : forall x, x ∈ c <-> x ∈ Tarjan.stack st_n /\ x ∉ Tarjan.stack st).
  { intros x. unfold c. rewrite Hstack, !elem_of_app, list_elem_of_singleton, elem_of_cons.
    split.
    - intros [Hxs| ->]; (split; [tauto|]); [|done]. intros ?. apply (Hdisj x Hxs). by right.
    - intros [[?|[?|?]] ?]; tauto. }
  assert (Hclosed : forall x z, reach x z ->
            x ∈ c \/ (x ∈ dom (Tarjan.indices st_n) /\ x ∉ Tarjan.stack st_n) ->
            z ∈ c \/ (z ∈ dom (Tarjan.indices st_n) /\ z ∉ Tarjan.stack st_n)).
  { intros x z Hreach. induction Hreach as [x|x y z Hxy _ IH]; [done|].
    intros Hxc. apply IH. destruct Hxc as [Hxc|[Hxd Hxs]].
    - destruct (decide (y ∈ Tarjan.stack st_n)) as [Hyn|Hyn].
      + left. apply Hc_stack. split; [done|]. intros Hy0'.
        pose proof (Hxedge x y Hxc Hxy Hy0').
        pose proof (proj2 (Hold y (Hstack0 _ Hy0'))). lia.
      + right. split; [|done]. by eapply Hsucc.
    - right. by apply (wf_popped _ _ _ Hwf x y). }
  assert (Hscc : forall x, x ∈ c -> connected graph v x).
  { intros x Hxc. split.
    - apply (wf_stack_reach _ _ _ Hwf); [done|by apply Hc_stack|].
      rewrite Hnumv. apply elem_of_app in Hxc as [Hxs| ->%list_elem_of_singleton].
      + pose proof (Hnum_new x Hxs). lia.
      + lia.
    - destruct (wf_to_gray _ _ _ Hwf x) as (z & Hz & _ & Hxz); [by apply Hc_stack|].
      apply elem_of_union in Hz as [->%elem_of_singleton|Hz]; [done|].
      etrans; [done|]. by apply Hgray. }
  assert (Hpopped : forall x z, reach x z ->
            x ∈ dom (Tarjan.indices st_n) /\ x ∉ Tarjan.stack st_n ->
            z ∈ dom (Tarjan.indices st_n) /\ z ∉ Tarjan.stack st_n).
  { intros x z Hreach. induction Hreach as [x|x y z Hxy _ IH]; [done|].
    intros [Hxd Hxs]. apply IH. by apply (wf_popped _ _ _ Hwf x y). }
  assert (Hmax : forall z, connected graph v z -> z ∈ c).
  { intros z [Hvz Hzv].
    destruct (Hclosed v z Hvz) as [Hz|Hz]; [left; apply elem_of_app; right; by left|done|].
    by destruct (Hpopped z v Hzv Hz). }
  assert (Hcnd : NoDup c).
  { apply NoDup_app. split; [done|]. split; [|apply NoDup_singleton].
    by intros x Hxs ->%list_elem_of_singleton. }
  assert (Hsccs' : forall c0, c0 ∈ sccs' ->
            c0 ∈ Tarjan.sccs st_n \/ (c0 = c /\ (1 < length c)%nat)).
  { intros c0. unfold sccs'. case_decide; [|by left].
    intros [?| ->%list_elem_of_singleton]%elem_of_app; [by left|by right]. }
  split.
  - split; simpl.
    + intros x. rewrite elem_of_difference, elem_of_list_to_set, (wf_on_stack _ _ _ Hwf).
      fold c. rewrite Hc_stack. split; [|by intros ?; split; [apply Hin_0|tauto]].
      intros [Hxn Hnot]. destruct (decide (x ∈ Tarjan.stack st)); tauto.
    + done.
    + intros x Hx0. by apply (wf_stack_visited _ _ _ Hwf), Hin_0.
    + by apply (wf_index _ _ _ Hwf).
    + by apply (wf_num_inj _ _ _ Hwf).
    + by apply (wf_lowlinks _ _ _ Hwf).
    + done.
    + intros x y Hx0 Hy0'. apply (wf_stack_reach _ _ _ Hwf); by apply Hin_0.
    + intros y Hy. destruct (wf_to_gray _ _ _ Hwf0 y Hy) as (x & Hxg & Hxle & Hyx).
      exists x. split; [done|]. split; [|done].
      pose proof (proj1 (Hold x (Hstack0 _ (Hgray0 _ Hxg)))) as Hx1.
      pose proof (proj1 (Hold y (Hstack0 _ Hy))) as Hy1.
      unfold num in *. simpl. lia.
    + intros x y Hxd Hxg Hedge. destruct (decide (x = v)) as [->|Hne]; [by apply Hseen|].
      apply (wf_black _ _ _ Hwf x y); [done| |done]. set_solver.
    + intros x y Hxd Hx0 Hedge.
      destruct (Hclosed x y) as [Hyc|[Hyd Hyn]]; [by apply rtc_once| | |].
      * destruct (decide (x ∈ Tarjan.stack st_n)); [left; by apply Hc_stack|by right].
      * split; [|by apply Hc_stack]. by apply (wf_stack_visited _ _ _ Hwf), Hc_stack.
      * split; [done|]. intros ?. by apply Hyn, Hin_0.
    + unfold sccs'. case_decide; [|by apply (wf_sccs_nodup _ _ _ Hwf)].
      rewrite concat_app. simpl. rewrite app_nil_r. apply NoDup_app.
      split; [by apply (wf_sccs_nodup _ _ _ Hwf)|]. split; [|done].
      intros x Hxc0 Hxc. apply list_elem_of_In, in_concat in Hxc0 as (c0 & Hc0 & Hxc0).
      apply list_elem_of_In in Hc0, Hxc0.
      destruct (wf_sccs _ _ _ Hwf c0 Hc0) as [_ Hin0].
      destruct (Hin0 x Hxc0) as (_ & Hout & _). by apply Hout, Hc_stack.
    + intros c0 Hc0. destruct (Hsccs' c0 Hc0) as [Hold0|[-> Hlen]].
      * destruct (wf_sccs _ _ _ Hwf c0 Hold0) as [? Hin0]. split; [done|].
        intros x Hxc0. destruct (Hin0 x Hxc0) as (? & Hout & ?).
        split; [done|]. split; [|done]. intros ?. by apply Hout, Hin_0.
      * split; [lia|]. intros x Hxc0.
        split; [by apply (wf_stack_visited _ _ _ Hwf), Hc_stack|].
        split; [by apply Hc_stack|]. intros y. split.
        -- intros Hyc. eapply connected_trans; [apply connected_sym|]; by apply Hscc.
        -- intros Hxy. apply Hmax. eapply connected_trans; [by apply Hscc|done].
    + intros x y Hxd Hx0 Hne Hconn.
      destruct (decide (x ∈ Tarjan.stack st_n)) as [Hxn|Hxn].
      * assert (Hxc : x ∈ c) by (by apply Hc_stack).
        assert (Hyc : y ∈ c).
        { apply Hmax. eapply connected_trans; [by apply Hscc|done]. }
        exists c. split; [|done]. unfold sccs'.
        assert (1 < length c)%nat.
        { destruct c as [|a [|b c']]; simpl; [by apply elem_of_nil in Hxc| |lia].
          apply list_elem_of_singleton in Hxc, Hyc. congruence. }
        case_decide; [|lia]. apply elem_of_app. right. by left.
      * destruct (wf_sccs_complete _ _ _ Hwf x y Hxd Hxn Hne Hconn) as (c0 & Hc0 & Hxc0).
        exists c0. split; [|done]. unfold sccs'. case_decide; [|done].
        apply elem_of_app. by left.
  - destruct Hframe. split; simpl; try done.
    exists []. split; [done|]. by intros x ?%elem_of_nil.
  - done.
  - exists (Tarjan.index st). simpl. split; [done|]. split; [done|].
    case_decide; [|done]. split; [done|]. by intros x y ? ?.
Qed.

Lemma init_wf : tarjan_wf graph ∅ Tarjan.init.
Proof.
  split; simpl; try done; try apply NoDup_nil_2; intros; set_solver.
Qed.

Section Run.
Variable nodes : gset string.
Hypothesis edges_in_nodes : forall x y, edge graph x y -> y ∈ nodes.

Lemma strongconnect_spec (fuel : nat) (gray : gset string) (v : string)
    (st : Tarjan.state) :
  tarjan_wf graph gray st -> v ∉ dom (Tarjan.indices st) -> v ∈ nodes ->
  (forall x, x ∈ gray -> reach x v) ->
  (size (nodes ∖ dom (Tarjan.indices st)) < fuel)%nat ->
  exists st', Tarjan.strongconnect fuel graph v st = Done st' /\
              tarjan_post graph gray v st st'.
Proof.
  revert gray v st. induction fuel as [|fuel IH]; intros gray v st Hwf Hv Hnode Hgray Hfuel;
    [lia|].
  cbn [Tarjan.strongconnect].
  destruct (for_successors_spec nodes edges_in_nodes (Tarjan.strongconnect fuel graph)
              fuel IH gray v st Hwf Hv Hgray (graph !!! v) [] (Tarjan.enter v st))
    as (st_n & Hrun & Hloop); [done|by apply enter_loop| |].
  - rewrite dom_enter.
    assert (nodes ∖ ({[v]} ∪ dom (Tarjan.indices st)) ⊂ nodes ∖ dom (Tarjan.indices st))
      as Hsub%subset_size; [|lia].
    split; [set_solver|]. intros Hsub. specialize (Hsub v). set_solver.
  - rewrite Hrun. cbn. by apply leave_spec.
Qed.

Lemma for_nodes_spec (fuel : nat) (todo : list string) (st : Tarjan.state) :
  (size nodes < fuel)%nat -> (forall x, x ∈ todo -> x ∈ nodes) ->
  tarjan_wf graph ∅ st -> Tarjan.stack st = [] ->
  exists st',
    Tarjan.for_nodes fuel graph todo st = Done st' /\
    tarjan_wf graph ∅ st' /\ Tarjan.stack st' = [] /\ tarjan_frame st st' /\
    forall x, x ∈ todo -> x ∈ dom (Tarjan.indices st').
Proof.
  intros Hfuel. revert st.
  induction todo as [|node todo IH]; intros st Htodo Hwf Hstack.
  { exists st. split; [done|]. split; [done|]. split; [done|].
    split; [apply tarjan_frame_refl|]. by intros x ?%elem_of_nil. }
  cbn [Tarjan.for_nodes].
  assert (Htodo' : forall x, x ∈ todo -> x ∈ nodes) by (intros; apply Htodo; by right).
  destruct (decide (node ∈ dom (Tarjan.indices st))) as [Hnode|Hnode].
  - destruct (IH st Htodo' Hwf Hstack) as (st' & Hrun & Hwf' & Hstack' & Hframe & Hall).
    exists st'. split; [done|]. split; [done|]. split; [done|]. split; [done|].
    intros x [->|Hx]%elem_of_cons; [by eapply tarjan_frame_dom|by apply Hall].
  - destruct (strongconnect_spec fuel ∅ node st Hwf Hnode) as (st1 & Hrun1 & Hpost);
      [apply Htodo; by left|set_solver| |].
    { assert (size (nodes ∖ dom (Tarjan.indices st)) <= size nodes)%nat; [|lia].
      apply subseteq_size. set_solver. }
    rewrite Hrun1. cbn.
    destruct Hpost as [Hwf1 Hframe1 Hidx1 (low & _ & _ & Hcase & _)].
    assert (Hstack1 : Tarjan.stack st1 = []).
    { case_decide; [congruence|]. destruct Hcase as (_ & y & Hy & _).
      rewrite Hstack in Hy. by apply elem_of_nil in Hy. }
    destruct (IH st1 Htodo' Hwf1 Hstack1) as (st' & Hrun & Hwf' & Hstack' & Hframe & Hall).
    exists st'. split; [done|]. split; [done|]. split; [done|].
    split; [by eapply tarjan_frame_trans|].
    intros x [->|Hx]%elem_of_cons; [|by apply Hall].
    eapply tarjan_frame_dom; [done|]. by apply elem_of_dom.
Qed.

End Run.

End Components.

Lemma build_graph_lookup (rails : list Rail.t) (x : string) :
  Tarjan.build_graph rails !!! x
  = map Rail.to_system (filter (fun rail => Rail.from_system rail = x) rails).
Proof.
  unfold Tarjan.build_graph. induction rails as [|rail rails IH] using rev_ind; [done|].
  rewrite foldl_app, filter_app, map_app. simpl. rewrite filter_cons, filter_nil.
  destruct (decide (Rail.from_system rail = x)) as [->|Hne].
  - by rewrite lookup_total_insert_eq, IH.
  - rewrite lookup_total_insert_ne by done. by rewrite IH, app_nil_r.
Qed.

Lemma edge_build_graph (rails : list Rail.t) (x y : string) :
  edge (Tarjan.build_graph rails) x y <-> has_rail rails x y.
Proof.
  unfold edge, has_rail. rewrite build_graph_lookup. split.
  - intros (rail & -> & [Hfrom Hin]%list_elem_of_filter)%list_elem_of_fmap. by exists rail.
  - intros (rail & Hin & Hfrom & <-). apply list_elem_of_fmap. exists rail.
    split; [done|]. by apply list_elem_of_filter.
Qed.

Lemma connected_build_graph (rails : list Rail.t) (x y : string) :
  connected (Tarjan.build_graph rails) x y <-> strongly_connected rails x y.
Proof.
  unfold connected, strongly_connected.
  split; intros [? ?]; split; (eapply rtc_subrel; [|done]); intros ? ?; apply edge_build_graph.
Qed.

Lemma has_rail_systems (rails : list Rail.t) (x y : string) :
  has_rail rails x y -> x ∈ rail_systems rails /\ y ∈ rail_systems rails.
Proof.
  intros (rail & Hin & <- & <-). unfold rail_systems.
  rewrite !elem_of_list_to_set. split; apply list_elem_of_In, in_flat_map;
    exists rail; (split; [by apply list_elem_of_In|]); simpl; auto.
Qed.

(** What [detect_loops] returns: every list is a whole strongly connected
    component of two systems or more, every such component is listed, and
    no system is listed twice. *)
Lemma detect_loops_spec `{PyRuntime} (fuel : nat) (rails : list Rail.t) :
  (size (rail_systems rails) < fuel)%nat ->
  exists loops,
    detect_loops fuel rails = Done loops /\
    NoDup (concat loops) /\
    (forall c, c ∈ loops ->
       (2 <= List.length c)%nat /\
       forall x y, x ∈ c -> (y ∈ c <-> strongly_connected rails x y)) /\
    (forall x y, x ≠ y -> strongly_connected rails x y ->
       exists c, c ∈ loops /\ x ∈ c).
Proof.
  intros Hfuel. unfold detect_loops.
  set (all_nodes := flat_map _ rails).
  assert (Hedges : forall x y, edge (Tarjan.build_graph rails) x y -> y ∈ rail_systems rails).
  { intros x y Hedge%edge_build_graph. by apply (has_rail_systems rails x y). }
  assert (Htodo : forall x, x ∈ set_iter all_nodes -> x ∈ rail_systems rails).
  { intros x Hx. rewrite set_iter_perm, elem_of_remove_dups in Hx.
    unfold rail_systems. apply (elem_of_list_to_set (C:=gset string)). exact Hx. }
  destruct (for_nodes_spec (Tarjan.build_graph rails) (rail_systems rails) Hedges fuel
              (set_iter all_nodes) Tarjan.init Hfuel Htodo (init_wf _) eq_refl)
    as (st & Hrun & Hwf & Hstack & _ & Hall).
  rewrite Hrun. cbn. exists (Tarjan.sccs st). split; [done|].
  split; [by apply (wf_sccs_nodup _ _ _ Hwf)|]. split.
  - intros c Hc. destruct (wf_sccs _ _ _ Hwf c Hc) as [Hlen Hin].
    split; [done|]. intros x y Hx. destruct (Hin x Hx) as (_ & _ & Hconn).
    rewrite Hconn. apply connected_build_graph.
  - intros x y Hne Hconn.
    apply (wf_sccs_complete _ _ _ Hwf x y); [|by rewrite Hstack; apply not_elem_of_nil|done|
                                               by apply connected_build_graph].
    apply Hall. rewrite set_iter_perm, elem_of_remove_dups.
    apply (elem_of_list_to_set (C:=gset string)). fold (rail_systems rails).
    destruct Hconn as [Hxy _]. apply rtc_tc in Hxy as [->|Hxy]; [done|].
    destruct Hxy as [x y Hr|x y z Hr _]; by apply (has_rail_systems rails x y).
Qed.

Lemma loops_connected_pair (rails : list Rail.t) (loops : list (list string))
    (c : list string) :
  NoDup (concat loops) ->
  (forall c, c ∈ loops ->
     (2 <= List.length c)%nat /\
     forall x y, x ∈ c -> (y ∈ c <-> strongly_connected rails x y)) ->
  c ∈ loops ->
  exists x y, x ≠ y /\ x ∈ c /\ strongly_connected rails x y.
Proof.
  intros Hnd Hscc Hc. destruct (Hscc c Hc) as [Hlen Hconn].
  assert (Hndc : NoDup c).
  { clear -Hnd Hc. induction loops as [|c0 loops IH]; [by apply elem_of_nil in Hc|].
    simpl in Hnd. apply NoDup_app in Hnd as (Hc0 & _ & Hrest).
    apply elem_of_cons in Hc as [->|Hc]; [done|by apply IH]. }
  destruct c as [|x [|y c]]; simpl in Hlen; [lia..|].
  apply NoDup_cons in Hndc as [Hxy _]. apply not_elem_of_cons in Hxy as [Hne _].
  exists x, y. split; [done|]. split; [by left|].
  apply (Hconn x y); [by left|]. right. by left.
Qed.

Lemma connected_pair_cycle (rails : list Rail.t) (x y : string) :
  x ≠ y -> strongly_connected rails x y -> has_cycle rails.
Proof.
  intros Hne [Hxy Hyx]. exists x.
  apply rtc_tc in Hxy as [->|Hxy]; [done|]. by eapply tc_rtc_r.
Qed.

Lemma loops_have_cycle (rails : list Rail.t) (loops : list (list string))
    (c : list string) :
  NoDup (concat loops) ->
  (forall c, c ∈ loops ->
     (2 <= List.length c)%nat /\
     forall x y, x ∈ c -> (y ∈ c <-> strongly_connected rails x y)) ->
  c ∈ loops -> has_cycle rails.
Proof.
  intros Hnd Hscc Hc.
  destruct (loops_connected_pair rails loops c Hnd Hscc Hc) as (x & y & Hne & _ & Hconn).
  by eapply connected_pair_cycle.
Qed.

(** C2. Whenever the depth allowed to the recursion exceeds the number of
    systems on the rails, [detect_loops] returns, and what it returns is
    exactly the strongly connected components of two systems or more of the
    directed graph of the rails: every list returned is such a component,
    whole; every such component is returned; no system is listed twice.  In
    particular a non-empty result means that the graph has a directed
    cycle. *)
Theorem detect_loops_components `{PyRuntime} (fuel : nat) (rails : list Rail.t) :
  (size (rail_systems rails) < fuel)%nat ->
  exists loops,
    detect_loops fuel rails = Done loops /\
    NoDup (concat loops) /\
    (forall c, c ∈ loops ->
       (2 <= List.length c)%nat /\
       forall x y, x ∈ c -> (y ∈ c <-> strongly_connected rails x y)) /\
    (forall x y, x ≠ y -> strongly_connected rails x y ->
       exists c, c ∈ loops /\ x ∈ c) /\
    (loops ≠ [] -> has_cycle rails).
Proof.
  intros Hfuel.
  destruct (detect_loops_spec fuel rails Hfuel) as (loops & Hrun & Hnd & Hscc & Hall).
  exists loops. repeat (split; [done|]).
  intros Hne. destruct loops as [|c loops]; [done|].
  by apply (loops_have_cycle rails (c :: loops) c Hnd Hscc); left.
Qed.

(** ** Validation *)

Lemma rail_systems_fold (rails : list Rail.t) (acc : gset string) :
  foldl (fun acc rail => {[Rail.to_system rail]} ∪ ({[Rail.from_system rail]} ∪ acc))
        acc rails
  = rail_systems rails ∪ acc.
Proof.
  revert acc. induction rails as [|rail rails IH]; intros acc.
  - unfold rail_systems. simpl. set_solver.
  - simpl. rewrite IH. unfold rail_systems. simpl. set_solver.
Qed.

Lemma elem_of_check_loops (f : finding) (loops : list (list string)) :
  f ∈ check_loops loops <-> f = ClosedTimelikeCurves loops /\ loops ≠ [].
Proof.
  destruct loops; simpl.
  - split; [by intros ?%elem_of_nil|by intros [_ ?]].
  - rewrite list_elem_of_singleton. naive_solver.
Qed.

Lemma elem_of_check_orphaned (f : finding) (galaxy : Galaxy.t) :
  f ∈ check_orphaned galaxy <->
  exists orphaned, f = OrphanedSystems orphaned /\
    orphaned = rail_systems (PyDict.values (Galaxy.rails galaxy))
                 ∖ list_to_set (PyDict.keys (Galaxy.systems galaxy)) /\
    orphaned ≠ ∅.
Proof.
  unfold check_orphaned. rewrite rail_systems_fold, union_empty_r_L.
  case_decide as Hempty.
  - split; [by intros ?%elem_of_nil|]. intros (o & _ & -> & Hne). done.
  - rewrite list_elem_of_singleton. naive_solver.
Qed.

Lemma PyDict_contains_get {V : Type} (d : PyDict.t V) (k : string) :
  PyDict.contains d k = false <-> PyDict.get d k = None.
Proof.
  unfold PyDict.contains. rewrite bool_decide_eq_false. split.
  - intros Hnot. destruct (PyDict.get d k); [|done]. by destruct Hnot.
  - intros ->. by intros [? ?].
Qed.

Lemma elem_of_check_connection `{PyRuntime} (f : finding) (galaxy : Galaxy.t)
    (rail : Rail.t) :
  f ∈ check_connection galaxy rail <->
  (f = UnknownStart (Rail.id rail) (Rail.from_system rail) /\
   PyDict.get (Galaxy.systems galaxy) (Rail.from_system rail) = None) \/
  (f = UnknownEnd (Rail.id rail) (Rail.to_system rail) /\
   PyDict.get (Galaxy.systems galaxy) (Rail.to_system rail) = None) \/
  (exists from_sys to_sys,
     PyDict.get (Galaxy.systems galaxy) (Rail.from_system rail) = Some from_sys /\
     PyDict.get (Galaxy.systems galaxy) (Rail.to_system rail) = Some to_sys /\
     f = LengthMismatch (Rail.id rail) (Rail.length rail)
           (Coordinate.distance_to (System.coord from_sys) (System.coord to_sys)) /\
     PrimFloat.ltb (Rail.length rail * 0.01)
       (PrimFloat.abs (Coordinate.distance_to (System.coord from_sys)
                         (System.coord to_sys) - Rail.length rail)) = true).
Proof.
  unfold check_connection, PyDict.contains.
  destruct (PyDict.get _ (Rail.from_system rail)) as [from_sys|];
    destruct (PyDict.get _ (Rail.to_system rail)) as [to_sys|];
    cbn -[Coordinate.distance_to].
  - destruct (PrimFloat.ltb _ _) eqn:Hlt; rewrite ?elem_of_cons, ?elem_of_nil; split.
    + intros [->|[]]. right. right. by exists from_sys, to_sys.
    + intros [[_ [=]]|[[_ [=]]|(f1 & t1 & [= <-] & [= <-] & -> & _)]]. by left.
    + intros [].
    + intros [[_ [=]]|[[_ [=]]|(f1 & t1 & [= <-] & [= <-] & _ & Hlt')]].
      rewrite Hlt in Hlt'. discriminate.
  - rewrite ?elem_of_cons, ?elem_of_nil. split.
    + intros [->|[]]. right. by left.
    + intros [[_ [=]]|[[-> _]|(f1 & t1 & _ & [=] & _)]]. by left.
  - rewrite ?elem_of_cons, ?elem_of_nil. split.
    + intros [->|[]]. by left.
    + intros [[-> _]|[[_ [=]]|(f1 & t1 & [=] & _)]]. by left.
  - rewrite ?elem_of_cons, ?elem_of_nil. split.
    + intros [->|[->|[]]]; [by left|right; by left].
    + intros [[-> _]|[[-> _]|(f1 & t1 & [=] & _)]]; [by left|right; by left].
Qed.

Lemma elem_of_check_duplicates (f : finding) (rails : list Rail.t)
    (rail_connections : gset (string * string)) :
  f ∈ check_duplicates rails rail_connections <->
  exists l1 r l2,
    rails = l1 ++ r :: l2 /\
    f = DuplicateRail (Rail.from_system r) (Rail.to_system r) /\
    ((Rail.from_system r, Rail.to_system r) ∈ rail_connections \/
     exists r', r' ∈ l1 /\ Rail.from_system r' = Rail.from_system r /\
                Rail.to_system r' = Rail.to_system r).
Proof.
  revert rail_connections. induction rails as [|rail rails IH]; intros acc.
  - simpl. split; [by intros ?%elem_of_nil|]. intros (l1 & r & l2 & Heq & _).
    by destruct l1.
  - cbn [check_duplicates]. rewrite elem_of_app, IH. split.
    + intros [Hhead|(l1 & r & l2 & -> & -> & Hdup)].
      * case_decide as Hin; [|by apply elem_of_nil in Hhead].
        apply list_elem_of_singleton in Hhead as ->.
        exists [], rail, rails. split; [done|]. split; [done|]. by left.
      * exists (rail :: l1), r, l2. split; [done|]. split; [done|].
        destruct Hdup as [[Hnew|Hacc]%elem_of_union|(r' & Hr' & Hf & Ht)].
        -- right. exists rail. apply elem_of_singleton in Hnew.
           injection Hnew as Hf Ht. split; [by left|]. by split.
        -- by left.
        -- right. exists r'. split; [by right|]. by split.
    + intros (l1 & r & l2 & Heq & -> & Hdup). destruct l1 as [|a l1].
      * injection Heq as -> ->. left.
        destruct Hdup as [Hacc|(r' & Hr' & _)]; [|by apply elem_of_nil in Hr'].
        case_decide; [by left|done].
      * injection Heq as -> ->. right. exists l1, r, l2. split; [done|]. split; [done|].
        destruct Hdup as [Hacc|(r' & [->|Hr']%elem_of_cons & Hf & Ht)].
        -- left. apply elem_of_union. by right.
        -- left. apply elem_of_union. left. apply elem_of_singleton. by rewrite Hf, Ht.
        -- right. by exists r'.
Qed.

Lemma elem_of_check_duplicates_empty (f : finding) (rails : list Rail.t) :
  f ∈ check_duplicates rails ∅ <->
  exists a b, f = DuplicateRail a b /\ duplicated rails a b.
Proof.
  rewrite elem_of_check_duplicates. split.
  - intros (l1 & r & l2 & -> & -> & [Hacc|(r' & Hr' & Hf & Ht)]); [set_solver|].
    exists (Rail.from_system r), (Rail.to_system r). split; [done|].
    apply list_elem_of_split in Hr' as (l0 & l0' & ->).
    exists l0, r', l0', r, l2. split; [by rewrite <- app_assoc|]. done.
  - intros (a & b & -> & (l1 & r1 & l2 & r2 & l3 & -> & <- & <- & Hf & Ht)).
    exists (l1 ++ r1 :: l2), r2, l3. split; [by rewrite <- app_assoc|].
    split; [by rewrite Hf, Ht|]. right. exists r1.
    split; [apply elem_of_app; right; by left|]. by rewrite Hf, Ht.
Qed.

Lemma elem_of_check_gravitium `{PyRuntime} (f : finding) (galaxy : Galaxy.t) :
  f ∈ check_gravitium galaxy <->
  PrimFloat.ltb
    (float_sum (map System.gravitium_deposits (PyDict.values (Galaxy.systems galaxy))))
    (float_sum (map Rail.gravitium_cost (PyDict.values (Galaxy.rails galaxy)))) = true /\
  f = InsufficientGravitium
        (float_sum (map Rail.gravitium_cost (PyDict.values (Galaxy.rails galaxy))))
        (float_sum (map System.gravitium_deposits
                      (PyDict.values (Galaxy.systems galaxy)))).
Proof.
  unfold check_gravitium. destruct (PrimFloat.ltb _ _) eqn:Hlt.
  - rewrite list_elem_of_singleton. by split; [|intros [_ ?]].
  - split; [by intros ?%elem_of_nil|]. by intros [? _].
Qed.

(** Every finding reports a fact, and every fact is reported. *)
Lemma validate_rail_network_spec `{PyRuntime} (fuel : nat) (galaxy : Galaxy.t)
    (loops : list (list string)) :
  detect_loops fuel (PyDict.values (Galaxy.rails galaxy)) = Done loops ->
  exists errors,
    validate_rail_network fuel galaxy
    = Done (bool_decide (List.length errors = 0%nat), errors) /\
    forall f, f ∈ errors <-> finding_holds fuel galaxy f.
Proof.
  intros Hloops. unfold validate_rail_network. rewrite Hloops. cbn.
  eexists. split; [reflexivity|]. intros f.
  rewrite !elem_of_app, elem_of_check_loops, elem_of_check_orphaned,
    elem_of_check_duplicates_empty, elem_of_check_gravitium.
  rewrite list_elem_of_In, in_flat_map.
  setoid_rewrite <- list_elem_of_In. setoid_rewrite elem_of_check_connection.
  destruct f; cbn -[Coordinate.distance_to]; rewrite ?Hloops;
    (split; [intros Hin; decompose [or and ex] Hin; clear Hin; simplify_eq; eauto 10
            |intros Hin]).
  - destruct Hin as [[= <-] ?]. by left.
  - right. left. eauto.
  - destruct Hin as (rail & ? & <- & <- & ?). right. right. left.
    exists rail. split; [done|]. by left.
  - destruct Hin as (rail & ? & <- & <- & ?). right. right. left.
    exists rail. split; [done|]. right. by left.
  - destruct Hin as (rail & fs & ts & ? & <- & <- & ? & ? & -> & ?). right. right. left.
    exists rail. split; [done|]. right. right. by exists fs, ts.
  - do 3 right. left. by eexists _, _.
  - destruct Hin as (-> & -> & ?). by do 4 right.
Qed.


Lemma detect_loops_components_witness :
  exists loops,
    @detect_loops scripted_runtime 10 triangle_rails = Done loops /\
    NoDup (concat loops) /\
    (forall c, c ∈ loops ->
       (2 <= List.length c)%nat /\
       forall x y, x ∈ c -> (y ∈ c <-> strongly_connected triangle_rails x y)) /\
    (forall x y, x ≠ y -> strongly_connected triangle_rails x y ->
       exists c, c ∈ loops /\ x ∈ c) /\
    (loops ≠ [] -> has_cycle triangle_rails).
Proof.
  apply (@detect_loops_components scripted_runtime 10 triangle_rails).
  vm_compute. lia.
Defined.

(** The loop through X, Y and Z is found; a rail from a system to itself
    makes no component of two systems. *)
Example detect_loops_triangle :
  @detect_loops scripted_runtime 10 triangle_rails = Done [["X"; "Z"; "Y"]] /\
  @detect_loops scripted_runtime 10
    [plain_rail "R1" "X" "Y" 10 5; plain_rail "R2" "Y" "Y" 3 7] = Done [].
Proof. split; by vm_compute. Qed.


(** The over-budget galaxy fails on the gravitium check alone. *)
Example validate_rail_network_over_budget :
  @validate_rail_network scripted_runtime 10 over_budget_galaxy
  = Done (false, [InsufficientGravitium 5000 100]).
Proof. by vm_compute. Qed.

(** ** More fuel changes no answer *)

Lemma for_successors_mono (call call' : string -> Tarjan.state -> outcome Tarjan.state)
    (v : string) (ws : list string) (st st' : Tarjan.state) :
  (forall w s s', call w s = Done s' -> call' w s = Done s') ->
  Tarjan.for_successors call v ws st = Done st' ->
  Tarjan.for_successors call' v ws st = Done st'.
Proof.
  intros Hcall. revert st. induction ws as [|w ws IH]; intros st; [done|].
  cbn [Tarjan.for_successors]. repeat case_decide.
  - destruct (getitem _ v); [|done..]. cbn. destruct (getitem _ w); [|done..]. cbn.
    apply IH.
  - apply IH.
  - destruct (call w st) as [st1| |] eqn:Hrun; [|done..].
    rewrite (Hcall _ _ _ Hrun). cbn.
    destruct (getitem _ v); [|done..]. cbn. destruct (getitem _ w); [|done..]. cbn.
    apply IH.
Qed.

Lemma strongconnect_mono (fuel fuel' : nat) (graph : gmap string (list string))
    (v : string) (st st' : Tarjan.state) :
  (fuel <= fuel')%nat ->
  Tarjan.strongconnect fuel graph v st = Done st' ->
  Tarjan.strongconnect fuel' graph v st = Done st'.
Proof.
  revert fuel' v st st'. induction fuel as [|fuel IH]; intros fuel' v st st' Hle; [done|].
  destruct fuel' as [|fuel']; [lia|]. cbn [Tarjan.strongconnect].
  destruct (Tarjan.for_successors (Tarjan.strongconnect fuel graph) v _ _) as [st1| |] eqn:Hrun;
    [|done..].
  rewrite (for_successors_mono _ (Tarjan.strongconnect fuel' graph) _ _ _ _
             ltac:(intros; apply IH; [lia|done]) Hrun).
  done.
Qed.

Lemma for_nodes_mono (fuel fuel' : nat) (graph : gmap string (list string))
    (nodes : list string) (st st' : Tarjan.state) :
  (fuel <= fuel')%nat ->
  Tarjan.for_nodes fuel graph nodes st = Done st' ->
  Tarjan.for_nodes fuel' graph nodes st = Done st'.
Proof.
  intros Hle. revert st. induction nodes as [|node nodes IH]; intros st; [done|].
  cbn [Tarjan.for_nodes]. case_decide; [apply IH|].
  destruct (Tarjan.strongconnect fuel graph node st) as [st1| |] eqn:Hrun; [|done..].
  rewrite (strongconnect_mono _ _ _ _ _ _ Hle Hrun). cbn. apply IH.
Qed.

Lemma detect_loops_mono `{PyRuntime} (fuel fuel' : nat) (rails : list Rail.t)
    (loops : list (list string)) :
  (fuel <= fuel')%nat ->
  detect_loops fuel rails = Done loops -> detect_loops fuel' rails = Done loops.
Proof.
  intros Hle. unfold detect_loops.
  destruct (Tarjan.for_nodes fuel _ _ _) as [st| |] eqn:Hrun; [|done..].
  by rewrite (for_nodes_mono _ _ _ _ _ _ Hle Hrun).
Qed.

(** An answer of [detect_loops], reached on whatever fuel, is empty exactly
    when no two distinct systems are strongly connected. *)
Lemma detect_loops_done `{PyRuntime} (fuel : nat) (rails : list Rail.t)
    (loops : list (list string)) :
  detect_loops fuel rails = Done loops ->
  (loops = [] <-> loop_free rails).
Proof.
  intros Hrun.
  set (fuel' := Nat.max fuel (S (size (rail_systems rails)))).
  destruct (detect_loops_spec fuel' rails) as (loops' & Hrun' & Hnd & Hscc & Hall);
    [unfold fuel'; lia|].
  rewrite (detect_loops_mono fuel fuel' rails loops ltac:(unfold fuel'; lia) Hrun) in Hrun'.
  injection Hrun' as <-. split.
  - intros -> x y Hne Hconn. destruct (Hall x y Hne Hconn) as (c & Hc & _).
    by apply elem_of_nil in Hc.
  - intros Hfree. destruct loops as [|c loops]; [done|].
    destruct (loops_connected_pair rails (c :: loops) c Hnd Hscc) as (x & y & Hne & _ & Hconn);
      [by left|]. by destruct (Hfree x y Hne).
Qed.

Lemma detect_loops_loop_free `{PyRuntime} (fuel : nat) (rails : list Rail.t) :
  (size (rail_systems rails) < fuel)%nat -> loop_free rails ->
  detect_loops fuel rails = Done [].
Proof.
  intros Hfuel Hfree.
  destruct (detect_loops_spec fuel rails Hfuel) as (loops & Hrun & _).
  rewrite Hrun. f_equal. by apply (detect_loops_done fuel rails loops Hrun).
Qed.

Lemma detect_loops_cycle `{PyRuntime} (fuel : nat) (rails : list Rail.t)
    (loops : list (list string)) :
  detect_loops fuel rails = Done loops -> loops ≠ [] -> has_cycle rails.
Proof.
  intros Hrun Hne.
  set (fuel' := Nat.max fuel (S (size (rail_systems rails)))).
  destruct (detect_loops_spec fuel' rails) as (loops' & Hrun' & Hnd & Hscc & Hall);
    [unfold fuel'; lia|].
  rewrite (detect_loops_mono fuel fuel' rails loops ltac:(unfold fuel'; lia) Hrun) in Hrun'.
  injection Hrun' as <-. destruct loops as [|c loops]; [done|].
  by apply (loops_have_cycle rails (c :: loops) c Hnd Hscc); left.
Qed.

(** ** Network generation *)

Lemma has_rail_subset (rails rails' : list Rail.t) (x y : string) :
  (forall r, r ∈ rails' -> r ∈ rails) -> has_rail rails' x y -> has_rail rails x y.
Proof. intros Hsub (r & Hr & ? & ?). exists r. split; [by apply Hsub|done]. Qed.

Lemma loop_free_subset (rails rails' : list Rail.t) :
  (forall r, r ∈ rails' -> r ∈ rails) -> loop_free rails -> loop_free rails'.
Proof.
  intros Hsub Hfree x y Hne [Hxy Hyx]. apply (Hfree x y Hne).
  split; (eapply rtc_subrel; [|done]); intros ? ?; by apply has_rail_subset.
Qed.

Lemma loop_free_acyclic (rails : list Rail.t) :
  loop_free rails -> no_self_rail rails -> ~ has_cycle rails.
Proof.
  intros Hfree Hself [x Hx]. inversion Hx as [? ? Hxy|? y ? Hxy Hyz]; subst.
  - destruct Hxy as (r & Hr & Hf & Ht). apply (Hself r Hr). congruence.
  - destruct (decide (x = y)) as [->|Hne].
    + destruct Hxy as (r & Hr & Hf & Ht). apply (Hself r Hr). congruence.
    + apply (Hfree x y Hne). split; [by apply rtc_once|by apply tc_rtc].
Qed.

Lemma PyDict_values_set {V : Type} (d : PyDict.t V) (k : string) (v x : V) :
  x ∈ PyDict.values (PyDict.set d k v) -> x ∈ PyDict.values d ++ [v].
Proof.
  induction d as [|[k0 v0] d IH]; simpl.
  - by intros ?.
  - case_decide; simpl.
    + intros [->|Hx]%elem_of_cons.
      * apply elem_of_cons. right. apply elem_of_app. right. by left.
      * apply elem_of_cons. right. apply elem_of_app. by left.
    + intros [->|Hx]%elem_of_cons; [by left|]. right. by apply IH.
Qed.

Section Generation.
Context `{PyRuntime}.

Lemma create_rail_endpoints (self self' : RailGenerator.t) (uuid4_hex a b : string)
    (galaxy : Galaxy.t) (construction_date : datetime) (rail : Rail.t) :
  RailGenerator.create_rail self uuid4_hex a b galaxy construction_date
    = Done (rail, self') ->
  Rail.from_system rail = a /\ Rail.to_system rail = b /\
  Rail.id rail = generate_rail_id uuid4_hex.
Proof.
  unfold RailGenerator.create_rail.
  destruct (RailGenerator.system_of galaxy a); [|done..]. cbn.
  destruct (RailGenerator.system_of galaxy b); [|done..]. cbn.
  destruct (RailGenerator.estimate_rail_capacity _ _); [|done..]. cbn.
  destruct (Random_randint 1 7 _) as [? ?].
  destruct (Random_randint 7 30 _) as [? ?].
  destruct (Random_randint 30 180 _) as [? ?].
  destruct (Random_randint 180 365 _) as [? ?].
  destruct (float_div 365.25 _); [|done..]. cbn.
  destruct (float_div _ _); [|done..]. cbn.
  destruct (Random_randint 1 _ _) as [? ?].
  by intros [= <- <-].
Qed.

Lemma consider_edge_step (fuel : nat) (uuid4 : nat -> string) (galaxy : Galaxy.t)
    (p p' : RailGenerator.progress) (a b : string) (cost : float) :
  RailGenerator.consider_edge fuel uuid4 galaxy p (a, b, cost) = Done p' ->
  exists rail,
    Rail.from_system rail = a /\ Rail.to_system rail = b /\
    Rail.id rail = generate_rail_id (uuid4 (RailGenerator.uuids p)) /\
    RailGenerator.uuids p' = S (RailGenerator.uuids p) /\
    ((loop_free (PyDict.values (RailGenerator.rails p) ++ [rail]) /\
      RailGenerator.rails p'
      = PyDict.set (RailGenerator.rails p) (Rail.id rail) rail) \/
     (has_cycle (PyDict.values (RailGenerator.rails p) ++ [rail]) /\
      RailGenerator.rails p' = RailGenerator.rails p)).
Proof.
  unfold RailGenerator.consider_edge.
  destruct (RailGenerator.create_rail _ _ _ _ _ _) as [[rail self]| |] eqn:Hrail; [|done..].
  cbn. apply create_rail_endpoints in Hrail as (Hfrom & Hto & Hid).
  unfold RailGenerator.validate_no_cycles.
  destruct (detect_loops fuel _) as [loops| |] eqn:Hloops; [|done..]. cbn.
  case_bool_decide as Hnil.
  - destruct (int_of_float _); [|done..]. cbn. intros [= <-]. exists rail.
    repeat (split; [done|]). left. split; [|done].
    apply (detect_loops_done _ _ _ Hloops). by destruct loops.
  - intros [= <-]. exists rail. repeat (split; [done|]). right. split; [|done].
    apply (detect_loops_cycle _ _ _ Hloops). by intros ->.
Qed.

Lemma consider_edges_app (fuel : nat) (uuid4 : nat -> string) (galaxy : Galaxy.t)
    (edges1 edges2 : list RailGenerator.edge) (p : RailGenerator.progress) :
  RailGenerator.consider_edges fuel uuid4 galaxy (edges1 ++ edges2) p
  = p1 ← RailGenerator.consider_edges fuel uuid4 galaxy edges1 p;
    RailGenerator.consider_edges fuel uuid4 galaxy edges2 p1.
Proof.
  revert p. induction edges1 as [|e edges1 IH]; intros p; [done|].
  cbn [app RailGenerator.consider_edges].
  destruct (RailGenerator.consider_edge fuel uuid4 galaxy p e); [|done..]. cbn. apply IH.
Qed.

(** Every pass of the loop keeps the accepted rails free of loops. *)
Lemma consider_edges_loop_free (fuel : nat) (uuid4 : nat -> string)
    (galaxy : Galaxy.t) (edges : list RailGenerator.edge)
    (p p' : RailGenerator.progress) :
  (forall a b cost, (a, b, cost) ∈ edges -> a ≠ b) ->
  loop_free (PyDict.values (RailGenerator.rails p)) ->
  no_self_rail (PyDict.values (RailGenerator.rails p)) ->
  RailGenerator.consider_edges fuel uuid4 galaxy edges p = Done p' ->
  loop_free (PyDict.values (RailGenerator.rails p')) /\
  no_self_rail (PyDict.values (RailGenerator.rails p')).
Proof.
  revert p. induction edges as [|[[a b] cost] edges IH]; intros p Hdistinct Hfree Hself.
  - by intros [= <-].
  - cbn [RailGenerator.consider_edges].
    destruct (RailGenerator.consider_edge fuel uuid4 galaxy p (a, b, cost))
      as [p1| |] eqn:Hstep; [|done..].
    cbn. apply IH; [by intros ? ? ? ?; eapply Hdistinct; right| |].
    all: apply consider_edge_step in Hstep
           as (rail & Hfrom & Hto & _ & _ & [[Hfree' ->]|[_ ->]]); try done.
    + eapply loop_free_subset; [|done]. intros r. apply PyDict_values_set.
    + intros r [Hr| ->%list_elem_of_singleton]%PyDict_values_set%elem_of_app;
        [by apply Hself|].
      rewrite Hfrom, Hto. eapply Hdistinct. by left.
Qed.

(** The spanning tree only grows by edges that leave it. *)
Lemma scan_targets_leaves (galaxy : Galaxy.t) (in_tree : list string)
    (from_id : string) (from_system : System.t) (targets : list string)
    (best r : option RailGenerator.edge) :
  from_id ∈ in_tree -> edge_leaves in_tree best ->
  RailGenerator.scan_targets galaxy in_tree from_id from_system targets best = Done r ->
  edge_leaves in_tree r.
Proof.
  intros Hfrom. revert best. induction targets as [|to_id targets IH]; intros best Hbest.
  - by intros [= <-].
  - cbn [RailGenerator.scan_targets]. case_decide as Hto; [by apply IH|].
    destruct (RailGenerator.system_of galaxy to_id); [|done..]. cbn.
    destruct (RailGenerator.estimate_rail_capacity _ _); [|done..]. cbn.
    apply IH. unfold RailGenerator.better_edge.
    destruct best as [[[f0 t0] c0]|]; destruct (PrimFloat.ltb _ _); try done.
    all: by intros f t c [= <- <- <-].
Qed.

Lemma scan_tree_leaves (galaxy : Galaxy.t) (in_tree all_systems sources : list string)
    (best r : option RailGenerator.edge) :
  (forall s, s ∈ sources -> s ∈ in_tree) -> edge_leaves in_tree best ->
  RailGenerator.scan_tree galaxy in_tree all_systems sources best = Done r ->
  edge_leaves in_tree r.
Proof.
  revert best. induction sources as [|from_id sources IH]; intros best Hsources Hbest.
  - by intros [= <-].
  - cbn [RailGenerator.scan_tree].
    destruct (RailGenerator.system_of galaxy from_id) as [from_system| |]; [|done..]. cbn.
    destruct (RailGenerator.scan_targets galaxy in_tree from_id from_system all_systems best)
      as [best'| |] eqn:Hscan; [|done..]. cbn.
    apply IH; [by intros; apply Hsources; right|].
    eapply scan_targets_leaves; [|done..]. apply Hsources. by left.
Qed.

Lemma grow_tree_distinct (fuel : nat) (galaxy : Galaxy.t)
    (all_systems in_tree : list string) (edges r : list RailGenerator.edge) :
  (forall a b cost, (a, b, cost) ∈ edges -> a ≠ b) ->
  RailGenerator.grow_tree fuel galaxy all_systems in_tree edges = Done r ->
  forall a b cost, (a, b, cost) ∈ r -> a ≠ b.
Proof.
  revert in_tree edges. induction fuel as [|fuel IH]; intros in_tree edges Hedges; [done|].
  cbn [RailGenerator.grow_tree]. destruct (_ <? _)%nat; [|by intros [= <-]].
  destruct (RailGenerator.scan_tree galaxy in_tree all_systems (set_iter in_tree) None)
    as [best| |] eqn:Hscan; [|done..]. cbn.
  apply scan_tree_leaves in Hscan; [| |done].
  2:{ intros s Hs. by rewrite set_iter_perm, elem_of_remove_dups in Hs. }
  destruct best as [[[from_id to_id] cost]|]; [|by intros [= <-]].
  apply IH. intros a b c [Hold|[= -> -> ->]%list_elem_of_singleton]%elem_of_app;
    [by eapply Hedges|].
  destruct (Hscan _ _ _ eq_refl) as [Hin Hout]. by intros ->.
Qed.

Lemma build_minimum_spanning_tree_distinct (galaxy : Galaxy.t)
    (source_systems : list string) (r : list RailGenerator.edge) :
  RailGenerator.build_minimum_spanning_tree galaxy source_systems = Done r ->
  forall a b cost, (a, b, cost) ∈ r -> a ≠ b.
Proof.
  unfold RailGenerator.build_minimum_spanning_tree. destruct source_systems.
  - intros [= <-] a b cost Hin. by apply elem_of_nil in Hin.
  - apply grow_tree_distinct. intros a b cost Hin. by apply elem_of_nil in Hin.
Qed.

Lemma nearby_systems_of_other (galaxy : Galaxy.t) (mst_edges : list RailGenerator.edge)
    (bottleneck_id : string) (bottleneck_system : System.t) (other_id : string)
    (distance : float) :
  (other_id, distance)
    ∈ RailGenerator.nearby_systems_of galaxy mst_edges bottleneck_id bottleneck_system ->
  other_id ≠ bottleneck_id.
Proof.
  unfold RailGenerator.nearby_systems_of.
  intros ([id system] & _ & Hin)%list_elem_of_In%in_flat_map.
  case_decide; [done|]. destruct (PrimFloat.ltb _ _); [|done].
  destruct (RailGenerator.already_connected _ _ _); [done|].
  by destruct Hin as [[= <- _]|[]].
Qed.

Lemma connect_bottlenecks_distinct (galaxy : Galaxy.t)
    (mst_edges : list RailGenerator.edge) (redundancy_factor : float)
    (bottlenecks : list string) (self self' : RailGenerator.t)
    (additional_edges r : list RailGenerator.edge) :
  (forall a b cost, (a, b, cost) ∈ additional_edges -> a ≠ b) ->
  RailGenerator.connect_bottlenecks galaxy mst_edges redundancy_factor bottlenecks
    self additional_edges = Done (r, self') ->
  forall a b cost, (a, b, cost) ∈ r -> a ≠ b.
Proof.
  revert self additional_edges.
  induction bottlenecks as [|bottleneck_id bottlenecks IH]; intros self edges Hedges.
  - by intros [= <- _].
  - cbn [RailGenerator.connect_bottlenecks].
    destruct (Random_random _) as [draw rng']. destruct (PrimFloat.ltb draw _); [|by apply IH].
    destruct (RailGenerator.system_of galaxy bottleneck_id) as [bottleneck_system| |];
      [|done..]. cbn.
    destruct (stable_sort _ _) as [|[target_id distance] rest] eqn:Hsort; [by apply IH|].
    destruct (RailGenerator.system_of galaxy target_id) as [target_system| |];
      [|done..]. cbn.
    destruct (RailGenerator.estimate_rail_capacity _ _) as [capacity| |]; [|done..]. cbn.
    apply IH. intros a b c [Hold|[= -> -> ->]%list_elem_of_singleton]%elem_of_app;
      [by eapply Hedges|].
    intros Heq. eapply (nearby_systems_of_other galaxy mst_edges); [|by symmetry].
    rewrite <- (stable_sort_perm (fun a b : string * float => PrimFloat.ltb a.2 b.2)).
    rewrite Hsort. by left.
Qed.

Lemma propose_edges_distinct (self self' : RailGenerator.t) (galaxy : Galaxy.t)
    (max_systems : option Z) (source_systems : list string)
    (all_edges : list RailGenerator.edge) :
  RailGenerator.propose_edges self galaxy max_systems source_systems
    = Done (all_edges, self') ->
  forall a b cost, (a, b, cost) ∈ all_edges -> a ≠ b.
Proof.
  unfold RailGenerator.propose_edges.
  destruct (RailGenerator.build_minimum_spanning_tree _ _) as [mst_edges| |] eqn:Hmst;
    [|done..]. cbn.
  unfold RailGenerator.add_redundancy_connections.
  destruct (RailGenerator.connect_bottlenecks _ _ _ _ _ _) as [[redundancy_edges ?]| |]
    eqn:Hred; [|done..]. cbn.
  intros [= <- _] a b cost [Hin|Hin]%elem_of_app.
  - by eapply build_minimum_spanning_tree_distinct.
  - eapply connect_bottlenecks_distinct; [|done..].
    intros ? ? ? Hnil. by apply elem_of_nil in Hnil.
Qed.

End Generation.

Lemma loop_free_nil : loop_free [].
Proof.
  intros x y Hne [Hxy _]. apply rtc_tc in Hxy as [->|Hxy]; [done|].
  destruct Hxy as [? ? (r & Hr & _)|? ? ? (r & Hr & _) _]; by apply elem_of_nil in Hr.
Qed.

(** C1. Whatever the seed, the UUIDs and the galaxy: the edges that
    [generate_rail_network] proposes never join a system to itself; whenever
    its loop has dealt with a prefix of them, the rails accepted so far have
    no directed cycle, and the loop detector, given enough depth, returns no
    component on them; the next candidate is accepted, and stored under its
    identifier, only if the accepted rails plus the candidate have no
    directed cycle, and is dropped, the accepted rails staying as they are,
    when they have one.  In particular the network returned has no directed
    cycle. *)
Theorem generate_rail_network_loop_free `{PyRuntime} (fuel : nat)
    (uuid4 : nat -> string) (self : RailGenerator.t) (galaxy : Galaxy.t)
    (construction_start : option datetime) (max_systems : option Z) :
  (forall rails,
     RailGenerator.generate_rail_network fuel uuid4 self galaxy construction_start
       max_systems = Done rails ->
     ~ has_cycle (PyDict.values rails)) /\
  (forall all_edges self' edges1 from_id to_id cost edges2 p,
     RailGenerator.propose_edges self galaxy max_systems
       (RailGenerator.find_source_vein_systems galaxy 1000) = Done (all_edges, self') ->
     all_edges = edges1 ++ (from_id, to_id, cost) :: edges2 ->
     RailGenerator.consider_edges fuel uuid4 galaxy edges1
       (RailGenerator.mk_progress self' 0 []
          (default RailGenerator.rail_age_start construction_start)) = Done p ->
     from_id ≠ to_id /\
     ~ has_cycle (PyDict.values (RailGenerator.rails p)) /\
     (forall fuel',
        (size (rail_systems (PyDict.values (RailGenerator.rails p))) < fuel')%nat ->
        detect_loops fuel' (PyDict.values (RailGenerator.rails p)) = Done []) /\
     (forall p',
        RailGenerator.consider_edge fuel uuid4 galaxy p (from_id, to_id, cost) = Done p' ->
        exists rail,
          Rail.from_system rail = from_id /\ Rail.to_system rail = to_id /\
          ((~ has_cycle (PyDict.values (RailGenerator.rails p) ++ [rail]) /\
            RailGenerator.rails p'
            = PyDict.set (RailGenerator.rails p) (Rail.id rail) rail) \/
           (has_cycle (PyDict.values (RailGenerator.rails p) ++ [rail]) /\
            RailGenerator.rails p' = RailGenerator.rails p)))).
Proof.
  assert (Hempty : @no_self_rail [])
    by (intros r Hr; by apply elem_of_nil in Hr).
  split.
  - intros rails. unfold RailGenerator.generate_rail_network. cbn zeta.
    destruct (RailGenerator.find_source_vein_systems galaxy 1000) as [|s sources] eqn:Hsrc.
    { intros [= <-]. by apply loop_free_acyclic; [apply loop_free_nil|]. }
    destruct (RailGenerator.propose_edges _ _ _ _) as [[all_edges self']| |] eqn:Hprop;
      [|done..]. cbn.
    destruct (RailGenerator.consider_edges _ _ _ _ _) as [p| |] eqn:Hloop; [|done..]. cbn.
    intros [= <-].
    destruct (consider_edges_loop_free _ _ _ _ (RailGenerator.mk_progress self' 0 [] _) _
                (propose_edges_distinct _ _ _ _ _ _ Hprop) loop_free_nil Hempty Hloop).
    by apply loop_free_acyclic.
  - intros all_edges self' edges1 from_id to_id cost edges2 p Hprop -> Hloop.
    pose proof (propose_edges_distinct _ _ _ _ _ _ Hprop) as Hdistinct.
    assert (Hne : from_id ≠ to_id).
    { apply (Hdistinct from_id to_id cost). apply elem_of_app. right. by left. }
    destruct (consider_edges_loop_free _ _ _ edges1
                (RailGenerator.mk_progress self' 0 [] _) _
                ltac:(intros a b c Hin; apply (Hdistinct a b c), elem_of_app; by left)
                loop_free_nil Hempty Hloop) as [Hfree Hself].
    split; [done|]. split; [by apply loop_free_acyclic|].
    split; [by intros fuel' Hfuel'; apply detect_loops_loop_free|].
    intros p' Hstep.
    apply consider_edge_step in Hstep
      as (rail & Hfrom & Hto & _ & _ & [[Hfree' Hset]|[Hcycle Hsame]]);
      exists rail; (split; [done|]); (split; [done|]); [left|by right].
    split; [|done]. apply loop_free_acyclic; [done|].
    intros r [Hr| ->%list_elem_of_singleton]%elem_of_app; [by apply Hself|congruence].
Qed.

(** The claim's example: X→Y, Y→Z and Z→X are proposed, in this order, and
    the network holds the first two only. *)
Example generate_rail_network_rejects_closing_edge :
  (exists self',
     @RailGenerator.propose_edges scripted_runtime xyz_generator xyz_galaxy None ["X"]
     = Done ([("X", "Y", 5000%float); ("Y", "Z", 5000%float); ("Z", "X", 20000%float)],
             self')) /\
  exists rails,
    @RailGenerator.generate_rail_network scripted_runtime 10 xyz_uuid4 xyz_generator
      xyz_galaxy None None = Done rails /\
    map (fun rail => (Rail.from_system rail, Rail.to_system rail)) (PyDict.values rails)
    = [("X", "Y"); ("Y", "Z")].
Proof.
  split; eexists; [reflexivity|]. split; [by vm_compute|]. reflexivity.
Qed.

(** ** Two runs from one seed *)

Lemma PyDict_set_fresh {V : Type} (d : PyDict.t V) (k : string) (v : V) :
  k ∉ PyDict.keys d -> PyDict.set d k v = d ++ [(k, v)].
Proof.
  induction d as [|[k0 v0] d IH]; simpl; [done|].
  intros Hk. case_decide as Heq.
  - exfalso. apply Hk. subst. by left.
  - f_equal. apply IH. intros Hin. apply Hk. by right.
Qed.

Lemma PyDict_keys_set {V : Type} (d : PyDict.t V) (k : string) (v : V) (x : string) :
  x ∈ PyDict.keys (PyDict.set d k v) -> x = k \/ x ∈ PyDict.keys d.
Proof.
  induction d as [|[k0 v0] d IH]; simpl.
  - intros ->%list_elem_of_singleton. by left.
  - case_decide as Heq; simpl.
    + intros [->|Hx]%elem_of_cons; [by left|]. right. by right.
    + intros [->|Hx]%elem_of_cons; [right; by left|].
      destruct (IH Hx) as [->|Hin]; [by left|]. right. by right.
Qed.

Lemma endpoints_unlabelled (rails1 rails2 : list Rail.t) :
  map unlabelled rails1 = map unlabelled rails2 ->
  map endpoints rails1 = map endpoints rails2.
Proof.
  intros Heq.
  assert (Hmap : forall rails, map endpoints rails = map endpoints (map unlabelled rails))
    by (intros rails; by rewrite map_map).
  by rewrite (Hmap rails1), (Hmap rails2), Heq.
Qed.

Lemma build_graph_endpoints (rails1 rails2 : list Rail.t) :
  map endpoints rails1 = map endpoints rails2 ->
  Tarjan.build_graph rails1 = Tarjan.build_graph rails2.
Proof.
  unfold Tarjan.build_graph. generalize (∅ : gmap string (list string)).
  revert rails2. induction rails1 as [|r1 rails1 IH]; intros [|r2 rails2] graph;
    simpl; try done.
  intros [= Hfrom Hto Hrest]. rewrite Hfrom, Hto. by apply IH.
Qed.

Lemma all_nodes_endpoints (rails1 rails2 : list Rail.t) :
  map endpoints rails1 = map endpoints rails2 ->
  flat_map (fun rail => [Rail.from_system rail; Rail.to_system rail]) rails1
  = flat_map (fun rail => [Rail.from_system rail; Rail.to_system rail]) rails2.
Proof.
  revert rails2. induction rails1 as [|r1 rails1 IH]; intros [|r2 rails2];
    simpl; try done.
  intros [= Hfrom Hto Hrest]. rewrite Hfrom, Hto. f_equal. f_equal. by apply IH.
Qed.

Section Determinism.
Context `{PyRuntime}.

Lemma detect_loops_endpoints (fuel : nat) (rails1 rails2 : list Rail.t) :
  map endpoints rails1 = map endpoints rails2 ->
  detect_loops fuel rails1 = detect_loops fuel rails2.
Proof.
  intros Heq. unfold detect_loops.
  by rewrite (build_graph_endpoints _ _ Heq), (all_nodes_endpoints _ _ Heq).
Qed.

(** The UUID shows in the identifier of the rail and nowhere else. *)
Lemma create_rail_agree (self : RailGenerator.t) (hex1 hex2 a b : string)
    (galaxy : Galaxy.t) (construction_date : datetime) :
  outcome_agree
    (fun '(rail1, self1) '(rail2, self2) =>
       unlabelled rail1 = unlabelled rail2 /\ self1 = self2 /\
       Rail.id rail1 = generate_rail_id hex1 /\ Rail.id rail2 = generate_rail_id hex2)
    (RailGenerator.create_rail self hex1 a b galaxy construction_date)
    (RailGenerator.create_rail self hex2 a b galaxy construction_date).
Proof.
  unfold RailGenerator.create_rail.
  destruct (RailGenerator.system_of galaxy a); [|done..]. cbn.
  destruct (RailGenerator.system_of galaxy b); [|done..]. cbn.
  destruct (RailGenerator.estimate_rail_capacity _ _); [|done..]. cbn.
  destruct (Random_randint 1 7 _) as [? ?].
  destruct (Random_randint 7 30 _) as [? ?].
  destruct (Random_randint 30 180 _) as [? ?].
  destruct (Random_randint 180 365 _) as [? ?].
  destruct (float_div 365.25 _); [|done..]. cbn.
  destruct (float_div _ _); [|done..]. cbn.
  destruct (Random_randint 1 _ _) as [? ?].
  done.
Qed.

Lemma keys_drawn_fresh (uuid4 : nat -> string) (p : RailGenerator.progress) (n : nat) :
  fresh_ids uuid4 n -> (RailGenerator.uuids p < n)%nat -> keys_drawn uuid4 p ->
  generate_rail_id (uuid4 (RailGenerator.uuids p)) ∉ PyDict.keys (RailGenerator.rails p).
Proof.
  intros Hfresh Hlt Hkeys Hin. destruct (Hkeys _ Hin) as (i & Hi & Heq).
  apply (Hfresh i (RailGenerator.uuids p)); [lia|done].
Qed.

Lemma consider_edge_agree (fuel n : nat) (uuid1 uuid2 : nat -> string)
    (galaxy : Galaxy.t) (p1 p2 : RailGenerator.progress) (e : RailGenerator.edge) :
  fresh_ids uuid1 n -> fresh_ids uuid2 n ->
  (RailGenerator.uuids p1 < n)%nat ->
  in_step p1 p2 -> keys_drawn uuid1 p1 -> keys_drawn uuid2 p2 ->
  outcome_agree
    (fun p1' p2' =>
       in_step p1' p2' /\ keys_drawn uuid1 p1' /\ keys_drawn uuid2 p2' /\
       RailGenerator.uuids p1' = S (RailGenerator.uuids p1))
    (RailGenerator.consider_edge fuel uuid1 galaxy p1 e)
    (RailGenerator.consider_edge fuel uuid2 galaxy p2 e).
Proof.
  intros Hfresh1 Hfresh2 Hlt (Hgen & Hcount & Hdate & Hrails) Hkeys1 Hkeys2.
  pose proof (keys_drawn_fresh _ _ _ Hfresh1 Hlt Hkeys1) as Hnew1.
  pose proof (keys_drawn_fresh _ _ _ Hfresh2 ltac:(by rewrite <- Hcount) Hkeys2) as Hnew2.
  destruct e as [[a b] cost]. unfold RailGenerator.consider_edge.
  pose proof (create_rail_agree (RailGenerator.generator p1)
                (uuid1 (RailGenerator.uuids p1)) (uuid2 (RailGenerator.uuids p2))
                a b galaxy (RailGenerator.construction_date p1)) as Hcreate.
  rewrite <- Hgen, <- Hdate.
  destruct (RailGenerator.create_rail _ (uuid1 _) _ _ _ _) as [[rail1 self1]| |e1];
    destruct (RailGenerator.create_rail _ (uuid2 _) _ _ _ _) as [[rail2 self2]| |e2];
    try done.
  destruct Hcreate as (Hrail & <- & Hid1 & Hid2). cbn.
  assert (Htest : map unlabelled (PyDict.values (RailGenerator.rails p1) ++ [rail1])
                  = map unlabelled (PyDict.values (RailGenerator.rails p2) ++ [rail2])).
  { rewrite !map_app. cbn. by rewrite Hrail, Hrails. }
  unfold RailGenerator.validate_no_cycles.
  rewrite (detect_loops_endpoints fuel _ _ (endpoints_unlabelled _ _ Htest)).
  destruct (detect_loops fuel _) as [loops| |]; [|done..]. cbn.
  assert (Hlength : Rail.length rail1 = Rail.length rail2)
    by (by injection Hrail).
  assert (Hdrawn : forall (uuid4 : nat -> string) (p p' : RailGenerator.progress),
             keys_drawn uuid4 p ->
             RailGenerator.uuids p' = S (RailGenerator.uuids p) ->
             (forall k, k ∈ PyDict.keys (RailGenerator.rails p') ->
                k = generate_rail_id (uuid4 (RailGenerator.uuids p)) \/
                k ∈ PyDict.keys (RailGenerator.rails p)) ->
             keys_drawn uuid4 p').
  { intros uuid4 p p' Hkeys Hnext Hsub k Hk. rewrite Hnext.
    destruct (Hsub k Hk) as [->|Hold].
    - exists (RailGenerator.uuids p). split; [lia|done].
    - destruct (Hkeys k Hold) as (i & Hi & ->). exists i. split; [lia|done]. }
  case_bool_decide as Hnil.
  - rewrite <- Hlength. destruct (int_of_float _) as [years| |]; [|done..]. cbn.
    rewrite Hid1, Hid2.
    repeat split; cbn; try done; try congruence.
    + rewrite (PyDict_set_fresh _ _ _ Hnew1), (PyDict_set_fresh _ _ _ Hnew2).
      unfold PyDict.values in *. rewrite !map_app. cbn. by rewrite Hrail, Hrails.
    + apply (Hdrawn uuid1 p1); [done..|]. cbn. intros k Hk.
      by apply PyDict_keys_set in Hk.
    + apply (Hdrawn uuid2 p2); [done..|]. cbn. intros k Hk.
      by apply PyDict_keys_set in Hk.
  - repeat split; cbn; try done; try congruence.
    + apply (Hdrawn uuid1 p1); [done..|]. cbn. intros k Hk. by right.
    + apply (Hdrawn uuid2 p2); [done..|]. cbn. intros k Hk. by right.
Qed.

Lemma consider_edges_agree (fuel n : nat) (uuid1 uuid2 : nat -> string)
    (galaxy : Galaxy.t) (edges : list RailGenerator.edge)
    (p1 p2 : RailGenerator.progress) :
  fresh_ids uuid1 n -> fresh_ids uuid2 n ->
  (RailGenerator.uuids p1 + List.length edges <= n)%nat ->
  in_step p1 p2 -> keys_drawn uuid1 p1 -> keys_drawn uuid2 p2 ->
  outcome_agree in_step
    (RailGenerator.consider_edges fuel uuid1 galaxy edges p1)
    (RailGenerator.consider_edges fuel uuid2 galaxy edges p2).
Proof.
  intros Hfresh1 Hfresh2. revert p1 p2.
  induction edges as [|e edges IH]; intros p1 p2 Hlen Hstep Hkeys1 Hkeys2; [done|].
  cbn [RailGenerator.consider_edges]. cbn [List.length] in Hlen.
  pose proof (consider_edge_agree fuel n uuid1 uuid2 galaxy p1 p2 e Hfresh1 Hfresh2
                ltac:(lia) Hstep Hkeys1 Hkeys2) as Hone.
  destruct (RailGenerator.consider_edge fuel uuid1 galaxy p1 e) as [p1'| |];
    destruct (RailGenerator.consider_edge fuel uuid2 galaxy p2 e) as [p2'| |];
    try done.
  destruct Hone as (Hstep' & Hkeys1' & Hkeys2' & Hnext). cbn.
  apply IH; [lia|done..].
Qed.

End Determinism.

Lemma generate_rail_schedule_unlabelled (fuel : nat) (rail1 rail2 : Rail.t)
    (start_date : datetime) (duration_days : Z) :
  unlabelled rail1 = unlabelled rail2 ->
  departures_of (ScheduleGenerator.generate_rail_schedule fuel rail1 start_date
                   duration_days)
  = departures_of (ScheduleGenerator.generate_rail_schedule fuel rail2 start_date
                     duration_days).
Proof.
  intros [= _ _ _ _ _ Hinterval Hnext _ _].
  unfold ScheduleGenerator.generate_rail_schedule. rewrite Hinterval, Hnext.
  destruct (advance_while _ _ _ _); [|done..]. cbn.
  by destruct (append_until _ _ _ _).
Qed.

(** C3, as amended.  Two runs of [generate_rail_network] from the same state of the
    random generator, on the same galaxy, with the same arguments and under
    the same interpreter (so with the same iteration order of its sets), each
    drawing pairwise distinct identifiers for the edges it considers, end in
    the same way; when they return, their rails are, in the same order, equal
    in every attribute but the identifier, and the rails at the same position
    have the same schedule of departures on every window. *)
Theorem generate_rail_network_reproducible `{PyRuntime} (fuel : nat)
    (uuid1 uuid2 : nat -> string) (self : RailGenerator.t) (galaxy : Galaxy.t)
    (construction_start : option datetime) (max_systems : option Z) :
  (forall all_edges self',
     RailGenerator.propose_edges self galaxy max_systems
       (RailGenerator.find_source_vein_systems galaxy 1000) = Done (all_edges, self') ->
     fresh_ids uuid1 (List.length all_edges) /\
     fresh_ids uuid2 (List.length all_edges)) ->
  outcome_agree
    (fun rails1 rails2 =>
       map unlabelled (PyDict.values rails1) = map unlabelled (PyDict.values rails2) /\
       Forall2
         (fun rail1 rail2 =>
            forall fuel' start_date duration_days,
              departures_of (ScheduleGenerator.generate_rail_schedule fuel' rail1
                               start_date duration_days)
              = departures_of (ScheduleGenerator.generate_rail_schedule fuel' rail2
                                 start_date duration_days))
         (PyDict.values rails1) (PyDict.values rails2))
    (RailGenerator.generate_rail_network fuel uuid1 self galaxy construction_start
       max_systems)
    (RailGenerator.generate_rail_network fuel uuid2 self galaxy construction_start
       max_systems).
Proof.
  intros Hfresh. unfold RailGenerator.generate_rail_network. cbn zeta.
  destruct (RailGenerator.find_source_vein_systems galaxy 1000) as [|s sources].
  { cbn. split; [done|]. constructor. }
  destruct (RailGenerator.propose_edges _ _ _ _) as [[all_edges self']| |];
    [|done..]. cbn.
  destruct (Hfresh all_edges self' eq_refl) as [Hfresh1 Hfresh2].
  pose proof (consider_edges_agree fuel (List.length all_edges) uuid1 uuid2 galaxy
                all_edges
                (RailGenerator.mk_progress self' 0 []
                   (default RailGenerator.rail_age_start construction_start))
                (RailGenerator.mk_progress self' 0 []
                   (default RailGenerator.rail_age_start construction_start))
                Hfresh1 Hfresh2 ltac:(cbn; lia) ltac:(done)
                ltac:(by intros k Hk; apply elem_of_nil in Hk)
                ltac:(by intros k Hk; apply elem_of_nil in Hk)) as Hruns.
  destruct (RailGenerator.consider_edges fuel uuid1 _ _ _) as [p1| |];
    destruct (RailGenerator.consider_edges fuel uuid2 _ _ _) as [p2| |]; try done.
  cbn. destruct Hruns as (_ & _ & _ & Hrails). split; [done|].
  revert Hrails. generalize (PyDict.values (RailGenerator.rails p1)).
  generalize (PyDict.values (RailGenerator.rails p2)).
  intros l2 l1. revert l2.
  induction l1 as [|r1 l1 IH]; intros [|r2 l2] Heq; [constructor|done|done|].
  cbn in Heq. constructor; [|apply IH; congruence].
  intros fuel' start_date duration_days.
  apply generate_rail_schedule_unlabelled. congruence.
Qed.

Lemma generate_rail_network_reproducible_witness :
  outcome_agree
    (fun rails1 rails2 =>
       map unlabelled (PyDict.values rails1) = map unlabelled (PyDict.values rails2) /\
       Forall2
         (fun rail1 rail2 =>
            forall fuel' start_date duration_days,
              departures_of (ScheduleGenerator.generate_rail_schedule fuel' rail1
                               start_date duration_days)
              = departures_of (ScheduleGenerator.generate_rail_schedule fuel' rail2
                                 start_date duration_days))
         (PyDict.values rails1) (PyDict.values rails2))
    (@RailGenerator.generate_rail_network scripted_runtime 10 xyz_uuid4 xyz_generator
       xyz_galaxy None None)
    (@RailGenerator.generate_rail_network scripted_runtime 10 xyz_uuid4' xyz_generator
       xyz_galaxy None None).
Proof.
  apply (@generate_rail_network_reproducible scripted_runtime).
  intros all_edges self' Hprop.
  assert (exists rest, Done (A:=_) (all_edges, self')
          = Done ([("X", "Y", 5000%float); ("Y", "Z", 5000%float);
                   ("Z", "X", 20000%float)], rest)) as [rest Heq]
    by (eexists; rewrite <- Hprop; reflexivity).
  injection Heq as -> _.
  split; intros i j Hij;
    (assert (i = 0 /\ j = 1 \/ i = 0 /\ j = 2 \/ i = 1 /\ j = 2)%nat
       as [[-> ->]|[[-> ->]|[-> ->]]] by (cbn in Hij; lia));
    vm_compute; discriminate.
Defined.

(** C3, as stated, fails on the identifiers: they are cut
    from UUIDs, which no seed fixes.  Two runs from the same seed on the same
    galaxy return dictionaries with different keys. *)
Lemma generate_rail_network_ids_differ :
  exists rails1 rails2,
    @RailGenerator.generate_rail_network scripted_runtime 10 xyz_uuid4 xyz_generator
      xyz_galaxy None None = Done rails1 /\
    @RailGenerator.generate_rail_network scripted_runtime 10 xyz_uuid4' xyz_generator
      xyz_galaxy None None = Done rails2 /\
    PyDict.keys rails1 = ["RAIL-0A1B2C3D"; "RAIL-11AA22BB"] /\
    PyDict.keys rails2 = ["RAIL-FFEE0011"; "RAIL-11AA22BB"] /\
    rails1 ≠ rails2.
Proof.
  do 2 eexists. split; [by vm_compute|]. split; [by vm_compute|].
  split; [reflexivity|]. split; [reflexivity|]. discriminate.
Qed.

(** The edges follow the order in which the interpreter iterates the set
    [in_tree]: where two systems of the tree are equally cheap to leave,
    the first one iterated wins. *)
Example propose_edges_follows_set_order :
  (exists self',
     @RailGenerator.propose_edges scripted_runtime xyz_generator tie_galaxy None
       ["X"; "Z"]
     = Done ([("X", "Y", 5000%float); ("Y", "Z", 5000%float)], self')) /\
  (exists self',
     @RailGenerator.propose_edges reversed_runtime xyz_generator_reversed tie_galaxy
       None ["X"; "Z"]
     = Done ([("Z", "Y", 5000%float); ("Y", "X", 5000%float)], self')) /\
  RailGenerator.find_source_vein_systems tie_galaxy 1000 = ["X"; "Z"].
Proof.
  split; [eexists; reflexivity|]. split; [eexists; reflexivity|]. by vm_compute.
Qed.

(* ================================================================== *)
(** * Further properties *)
(* ================================================================== *)

(** ** Departures of one rail *)

Lemma append_departures_length (count : nat) (step : timedelta) (current : datetime) :
  List.length (append_departures count step current) = count.
Proof.
  revert current. induction count as [|count IH]; intros current; simpl; [done|].
  by rewrite IH.
Qed.

Lemma append_departures_lookup (count : nat) (step : timedelta)
    (current : datetime) (k : nat) :
  (k < count)%nat ->
  append_departures count step current !! k = Some (current + Z.of_nat k * step).
Proof.
  revert current k. induction count as [|count IH]; intros current k Hk; [lia|].
  destruct k as [|k]; simpl.
  - f_equal. lia.
  - rewrite IH by lia. f_equal. lia.
Qed.

Lemma advance_while_ext (fuel : nat) (cond1 cond2 : datetime -> bool)
    (step : timedelta) (current : datetime) :
  (forall c, cond1 c = cond2 c) ->
  advance_while fuel cond1 step current = advance_while fuel cond2 step current.
Proof.
  intros Hext. revert current. induction fuel as [|fuel IH]; intros current; [done|].
  simpl. rewrite Hext. destruct (cond2 current); [apply IH|done].
Qed.

Lemma earliest_firing_at_or_after_steps (rail : Rail.t) (from_time : datetime) :
  0 < Rail.interval_days rail ->
  earliest_firing_at_or_after rail from_time
    (Rail.next_fire rail +
     steps_to from_time (timedelta_days (Rail.interval_days rail))
       (Rail.next_fire rail) * timedelta_days (Rail.interval_days rail)).
Proof.
  intros Hpos. apply timedelta_days_pos in Hpos.
  set (step := timedelta_days (Rail.interval_days rail)) in *.
  split; [|split].
  - eexists. split; [|reflexivity]. apply steps_nonneg.
  - apply (advance_while_reaches from_time step Hpos (Rail.next_fire rail)).
  - intros d' [k [Hk ->]] Hafter. fold step in Hafter |- *.
    pose proof (advance_while_least from_time step Hpos (Rail.next_fire rail) k Hk).
    nia.
Qed.





(** X3. The two fast-forward loops differ by one microsecond, the resolution
    of [datetime]: [Rail.next_departures] from [from_time] answers what
    [get_next_departures] answers after the instant just before it. *)
Theorem next_departures_get_next_departures (fuel : nat) (rail : Rail.t)
    (from_time : datetime) (count : Z) :
  Rail.next_departures fuel rail from_time count
  = ScheduleGenerator.get_next_departures fuel rail (from_time - 1) count.
Proof.
  unfold Rail.next_departures, ScheduleGenerator.get_next_departures.
  rewrite (advance_while_ext fuel (fun current => from_time >? current)
             (fun current_date => current_date <=? from_time - 1)); [done|].
  intros c. rewrite Z.gtb_ltb.
  destruct (Z.ltb_spec c from_time), (Z.leb_spec c (from_time - 1)); lia.
Qed.

Lemma StronglySorted_app_r {A : Type} (R : A -> A -> Prop) (l1 l2 : list A) :
  StronglySorted R (l1 ++ l2) -> StronglySorted R l2.
Proof.
  induction l1 as [|x l1 IH]; [done|]. simpl. intros Hs.
  apply StronglySorted_inv in Hs as [Hs _]. by apply IH.
Qed.

Lemma first_after_spec (departures : list datetime) (after : datetime) :
  match Schedule.first_after departures after with
  | Some d =>
      exists earlier later,
        departures = earlier ++ d :: later /\ after < d /\
        forall e, e ∈ earlier -> e <= after
  | None => forall d, d ∈ departures -> d <= after
  end.
Proof.
  induction departures as [|x departures IH]; simpl.
  - intros d Hd. by apply elem_of_nil in Hd.
  - destruct (Z.gtb_spec x after) as [Hgt|Hle].
    + exists [], departures. split; [done|]. split; [lia|].
      intros e He. by apply elem_of_nil in He.
    + destruct (Schedule.first_after departures after) as [d|].
      * destruct IH as (earlier & later & -> & Hd & Hearlier).
        exists (x :: earlier), later. split; [done|]. split; [done|].
        intros e [->|He]%elem_of_cons; [lia|by apply Hearlier].
      * intros d [->|Hd]%elem_of_cons; [lia|by apply IH].
Qed.

(** X4. [Schedule.get_next_departure] answers the first departure of the
    list, in the order of the list, that is strictly after [after], and
    nothing exactly when no departure is; on a list in increasing order, as
    the schedule generator builds them, the answer is the earliest departure
    after [after]. *)
Theorem get_next_departure_first (self : Schedule.t) (after : datetime) :
  match Schedule.get_next_departure self after with
  | Some d =>
      (exists earlier later,
         Schedule.departures self = earlier ++ d :: later /\ after < d /\
         forall e, e ∈ earlier -> e <= after) /\
      (StronglySorted Z.le (Schedule.departures self) ->
       forall d', d' ∈ Schedule.departures self -> after < d' -> d <= d')
  | None => forall d, d ∈ Schedule.departures self -> d <= after
  end.
Proof.
  unfold Schedule.get_next_departure.
  pose proof (first_after_spec (Schedule.departures self) after) as Hspec.
  destruct (Schedule.first_after _ _) as [d|]; [|done].
  split; [done|]. destruct Hspec as (earlier & later & Heq & Hd & Hearlier).
  rewrite Heq. intros Hsorted d' Hd' Hafter.
  apply elem_of_app in Hd' as [Hd'|Hd'].
  - specialize (Hearlier _ Hd'). lia.
  - apply elem_of_cons in Hd' as [->|Hd']; [lia|].
    apply StronglySorted_app_r in Hsorted.
    apply StronglySorted_inv in Hsorted as [_ Hall].
    rewrite List.Forall_forall in Hall. apply Hall. by apply list_elem_of_In.
Qed.

(** ** Schedules over a window *)

Lemma append_until_done (fuel : nat) (end_date : datetime) (step : timedelta)
    (current : datetime) :
  0 < step ->
  (Z.to_nat (steps_to (end_date + 1)%Z step current) < fuel)%nat ->
  append_until fuel end_date step current
  = Done (append_departures (Z.to_nat (steps_to (end_date + 1) step current))
            step current).
Proof.
  intros Hstep. revert current.
  induction fuel as [|fuel IH]; intros current Hfuel; [lia|].
  simpl. destruct (Z.leb_spec current end_date) as [Hle|Hgt].
  - pose proof (steps_go (end_date + 1) step Hstep current ltac:(lia)) as Hgo.
    pose proof (steps_nonneg (end_date + 1) step (current + step)) as Hnn.
    rewrite IH by lia. cbn. rewrite Hgo.
    replace (Z.to_nat (1 + steps_to (end_date + 1) step (current + step)))
      with (S (Z.to_nat (steps_to (end_date + 1) step (current + step)))) by lia.
    done.
  - by rewrite (steps_stop (end_date + 1) step Hstep current) by lia.
Qed.

Lemma append_departures_sorted (count : nat) (step : timedelta) (current : datetime) :
  0 < step -> StronglySorted Z.lt (append_departures count step current).
Proof.
  intros Hstep. revert current.
  induction count as [|count IH]; intros current; simpl; constructor; [apply IH|].
  apply List.Forall_forall. intros d Hd%list_elem_of_In.
  apply elem_of_append_departures in Hd as (j & Hj & ->). nia.
Qed.

Lemma window_departures_done (fuel : nat) (rail : Rail.t) (start_date : datetime)
    (duration_days : Z) :
  0 < Rail.interval_days rail ->
  (window_fuel rail start_date duration_days <= fuel)%nat ->
  ScheduleGenerator.window_departures fuel rail start_date duration_days
  = Done (scheduled_window rail start_date duration_days).
Proof.
  intros Hpos Hfuel. apply timedelta_days_pos in Hpos.
  unfold ScheduleGenerator.window_departures, window_fuel, scheduled_window in *.
  cbn zeta in *.
  rewrite (advance_while_done _ (Rail.next_fire rail)
             (timedelta_days (Rail.interval_days rail)) (fun c => eq_refl) Hpos)
    by lia.
  cbn. apply append_until_done; [done|lia].
Qed.

Lemma generate_rail_schedule_done (fuel : nat) (rail : Rail.t)
    (start_date : datetime) (duration_days : Z) :
  0 < Rail.interval_days rail ->
  (window_fuel rail start_date duration_days <= fuel)%nat ->
  ScheduleGenerator.generate_rail_schedule fuel rail start_date duration_days
  = Done (Schedule.mk (Rail.id rail) (scheduled_window rail start_date duration_days)
            (timedelta_hours 1)).
Proof.
  intros Hpos Hfuel. apply timedelta_days_pos in Hpos.
  unfold ScheduleGenerator.generate_rail_schedule, window_fuel, scheduled_window in *.
  cbn zeta in *.
  rewrite (advance_while_done _ (Rail.next_fire rail)
             (timedelta_days (Rail.interval_days rail)) (fun c => eq_refl) Hpos)
    by lia.
  cbn. rewrite append_until_done; [done|done|lia].
Qed.

Lemma elem_of_scheduled_window (rail : Rail.t) (start_date : datetime)
    (duration_days : Z) (d : datetime) :
  0 < Rail.interval_days rail ->
  d ∈ scheduled_window rail start_date duration_days <->
  (exists k, 0 <= k /\
     d = start_date + k * timedelta_days (Rail.interval_days rail)) /\
  Rail.next_fire rail <= d <= start_date + timedelta_days duration_days.
Proof.
  intros Hpos. apply timedelta_days_pos in Hpos.
  unfold scheduled_window. cbn zeta.
  set (step := timedelta_days (Rail.interval_days rail)) in *.
  set (n := steps_to (Rail.next_fire rail) step start_date).
  set (end_date := start_date + timedelta_days duration_days).
  set (first := start_date + n * step).
  pose proof (steps_nonneg (Rail.next_fire rail) step start_date) as Hn. fold n in Hn.
  pose proof (advance_while_reaches (Rail.next_fire rail) step Hpos start_date) as Hreach.
  fold n first in Hreach.
  pose proof (steps_nonneg (end_date + 1) step first) as Hm.
  pose proof (advance_while_reaches (end_date + 1) step Hpos first) as Hreach'.
  rewrite elem_of_append_departures. split.
  - intros (j & Hj & ->). split; [exists (n + j); unfold first; split; lia|].
    split; [nia|].
    destruct (Z.le_gt_cases (first + j * step) end_date) as [|Hgt]; [done|].
    pose proof (advance_while_least (end_date + 1) step Hpos first j ltac:(lia)
                  ltac:(lia)). lia.
  - intros ((k & Hk & ->) & Hlow & Hhigh).
    pose proof (advance_while_least (Rail.next_fire rail) step Hpos start_date k Hk Hlow)
      as Hleast. fold n in Hleast.
    exists (k - n). split; [|unfold first; lia]. split; [lia|].
    rewrite Z2Nat.id by done.
    destruct (Z.lt_ge_cases (k - n) (steps_to (end_date + 1) step first)) as [|Hge];
      [done|]. unfold first in *. nia.
Qed.



(** ** Journeys *)

Lemma get_route_is_route (galaxy : Galaxy.t) (from_system to_system : string)
    (route : list string) :
  Galaxy.get_route galaxy from_system to_system = Some route ->
  is_route (PyDict.values (Galaxy.rails galaxy)) from_system to_system route.
Proof.
  unfold Galaxy.get_route. destruct (decide _) as [<-|Hne].
  { intros [= <-]. by repeat split. }
  destruct (bfs_loop_spec (PyDict.values (Galaxy.rails galaxy)) from_system to_system
              (Galaxy.get_route_fuel galaxy) {[from_system]}
              [(from_system, [from_system])]) as (answer & -> & Hanswer);
    [by apply bfs_inv_start| |].
  - unfold Galaxy.get_route_fuel, unvisited_targets, PyDict.values. simpl.
    assert (size ((list_to_set (map Rail.to_system (map snd (Galaxy.rails galaxy)))
                     : gset string) ∖ {[from_system]})
            <= size (list_to_set (map Rail.to_system (map snd (Galaxy.rails galaxy)))
                       : gset string))%nat
      by (apply subseteq_size; set_solver).
    pose proof (size_list_to_set_le
                  (map Rail.to_system (map snd (Galaxy.rails galaxy)))) as Hle.
    rewrite !length_map in Hle. lia.
  - intros ->. by destruct Hanswer.
Qed.

Lemma find_rail_has_rail (rails : list Rail.t) (a b : string) :
  has_rail rails a b -> ScheduleGenerator.find_rail rails a b <> None.
Proof.
  intros (rail & Hin & Hfrom & Hto).
  induction rails as [|r rails IH]; [by apply elem_of_nil in Hin|].
  simpl. case_decide as Hr; [done|].
  apply elem_of_cons in Hin as [->|Hin]; [|by apply IH].
  by destruct Hr.
Qed.

(** Along a route of the rail graph the timed walk reaches the end, and
    every hop costs at least the hour of transit. *)
Lemma timed_walk_arrival (rails : list Rail.t) (route : list string) (t : datetime)
    (r : option (list (string * datetime) * datetime)) :
  timed_walk rails route t r -> is_walk rails route ->
  exists segments arrival,
    r = Some (segments, arrival) /\
    match segments with
    | [] => arrival = t /\ (List.length route <= 1)%nat
    | (_, d) :: _ =>
        t < d /\ d + timedelta_hours (Z.of_nat (List.length route) - 1) <= arrival
    end.
Proof.
  induction 1 as [t|s t|a b route t Hnone|a b route t d rail rest Hfind Hd Hrest IH];
    intros Hwalk.
  - exists [], t. split; [done|]. split; [done|]. simpl. lia.
  - exists [], t. split; [done|]. split; [done|]. simpl. lia.
  - destruct Hwalk as [Hab _]. by apply find_rail_has_rail in Hab.
  - destruct Hwalk as [_ Hwalk].
    destruct (IH Hwalk) as (segments & arrival & -> & Hsegments).
    exists ((a, d) :: segments), arrival. split; [done|].
    destruct Hd as (_ & Hd & _). split; [done|].
    unfold timedelta_hours in *. cbn [List.length] in *.
    destruct segments as [|[s d'] segments].
    + destruct Hsegments as [-> Hlen]. lia.
    + lia.
Qed.



(** ** Sorting by an integer key *)

Lemma insert_sorted_by_key {A : Type} (key : A -> Z) (x : A) (l : list A) :
  StronglySorted (fun a b => key a <= key b) l ->
  StronglySorted (fun a b => key a <= key b)
    (insert_sorted (fun a b => key a <? key b) x l).
Proof.
  induction l as [|y l IH]; simpl; intros Hsorted.
  - constructor; [constructor|constructor].
  - apply StronglySorted_inv in Hsorted as [Hsorted Hall].
    destruct (Z.ltb_spec (key y) (key x)) as [Hlt|Hge].
    + constructor; [by apply IH|].
      apply List.Forall_forall. intros z Hz%list_elem_of_In.
      rewrite insert_sorted_perm in Hz.
      apply elem_of_cons in Hz as [->|Hz]; [lia|].
      rewrite List.Forall_forall in Hall. apply Hall. by apply list_elem_of_In.
    + constructor; [by constructor|].
      constructor; [done|].
      apply List.Forall_forall. intros z Hz.
      rewrite List.Forall_forall in Hall. specialize (Hall z Hz). cbn in Hall. lia.
Qed.

Lemma stable_sort_by_key {A : Type} (key : A -> Z) (l : list A) :
  StronglySorted (fun a b => key a <= key b)
    (stable_sort (fun a b => key a <? key b) l).
Proof.
  induction l as [|x l IH]; simpl; [constructor|]. by apply insert_sorted_by_key.
Qed.

Lemma StronglySorted_take {A : Type} (R : A -> A -> Prop) (n : nat) (l : list A) :
  StronglySorted R l -> StronglySorted R (take n l).
Proof.
  revert n. induction l as [|x l IH]; intros [|n] Hsorted; simpl;
    try constructor.
  - apply IH. by apply StronglySorted_inv in Hsorted as [? _].
  - apply StronglySorted_inv in Hsorted as [_ Hall].
    apply List.Forall_forall. intros z Hz%list_elem_of_In.
    rewrite List.Forall_forall in Hall. apply Hall, list_elem_of_In.
    by apply (subseteq_take n l).
Qed.

(** ** Departures from a system *)

Lemma collect_departures_spec (rails : list Rail.t) (system_id : string)
    (after_date : datetime) (count : Z) :
  (forall rail, rail ∈ rails -> Rail.from_system rail = system_id ->
                0 < Rail.interval_days rail) ->
  exists (fuel0 : nat) (collected : list (string * datetime * string)),
    (forall fuel departures, (fuel0 <= fuel)%nat ->
       ScheduleGenerator.collect_departures fuel rails system_id after_date count
         departures = Done (departures ++ collected)) /\
    List.length collected
    = (List.length (origin_group rails system_id) * Z.to_nat (count / 2))%nat /\
    forall a t b, (a, t, b) ∈ collected ->
      a = system_id /\
      exists rail, rail ∈ rails /\ Rail.from_system rail = system_id /\
        Rail.to_system rail = b /\ is_firing rail t /\ after_date < t.
Proof.
  induction rails as [|rail rails IH]; intros Hpos.
  - exists 0%nat, []. split; [|split].
    + intros fuel departures _. cbn. by rewrite app_nil_r.
    + done.
    + intros a t b Hin. by apply elem_of_nil in Hin.
  - destruct IH as (fuel0 & collected & Hrun & Hlen & Hin).
    { intros r Hr. apply Hpos. by right. }
    unfold origin_group in *. rewrite filter_cons.
    cbn [ScheduleGenerator.collect_departures].
    destruct (decide (Rail.from_system rail = system_id)) as [Hfrom|Hfrom].
    + specialize (Hpos rail ltac:(by left) Hfrom).
      set (step := timedelta_days (Rail.interval_days rail)).
      set (n := steps_to (after_date + 1) step (Rail.next_fire rail)).
      set (first := Rail.next_fire rail + n * step).
      pose proof (earliest_firing_after_steps rail after_date Hpos)
        as (_ & Hafter & _). fold step n first in Hafter.
      pose proof (steps_nonneg (after_date + 1) step (Rail.next_fire rail)) as Hn.
      fold n in Hn.
      exists (Nat.max fuel0 (S (Z.to_nat n))),
        (map (fun dep_time => (Rail.from_system rail, dep_time, Rail.to_system rail))
             (append_departures (Z.to_nat (count / 2)) step first) ++ collected).
      split; [|split].
      * intros fuel departures Hfuel.
        rewrite get_next_departures_done by (try done; fold step n; lia).
        cbn. fold step n first. rewrite Hrun by lia. by rewrite app_assoc.
      * rewrite length_app, length_map, append_departures_length. cbn. lia.
      * intros a t b [Hhere|Hthere]%elem_of_app.
        -- apply list_elem_of_fmap in Hhere as (d & [= -> -> ->] & Hd).
           split; [done|]. exists rail. split; [by left|]. split; [done|].
           split; [done|].
           apply elem_of_append_departures in Hd as (j & Hj & ->).
           assert (0 < step) by (by apply timedelta_days_pos).
           split; [|nia]. exists (n + j). split; [lia|]. unfold first. fold step. lia.
        -- destruct (Hin a t b Hthere) as (-> & r & Hr & Hrest).
           split; [done|]. exists r. split; [by right|done].
    + exists fuel0, collected. split; [|split].
      * intros fuel departures Hfuel. by apply Hrun.
      * done.
      * intros a t b Hthere. destruct (Hin a t b Hthere) as (-> & r & Hr & Hrest).
        split; [done|]. exists r. split; [by right|done].
Qed.



(** ** Calendars and schedules of a galaxy *)

Lemma window_fuel_bound (rails : list Rail.t) (start_date : datetime)
    (duration_days : Z) :
  exists fuel0 : nat,
    forall rail, rail ∈ rails -> (window_fuel rail start_date duration_days <= fuel0)%nat.
Proof.
  induction rails as [|r rails [fuel0 IH]].
  - exists 0%nat. intros rail Hin. by apply elem_of_nil in Hin.
  - exists (Nat.max fuel0 (window_fuel r start_date duration_days)).
    intros rail [->|Hin]%elem_of_cons; [lia|]. specialize (IH rail Hin). lia.
Qed.

Lemma find_rail_none (rails : list Rail.t) (a b : string) :
  ScheduleGenerator.find_rail rails a b = None -> ~ has_rail rails a b.
Proof. intros Hnone Hrail. by apply find_rail_has_rail in Hrail. Qed.

Lemma fill_calendar_spec (fuel : nat) (rails : list Rail.t) (from_system : string)
    (targets : list string) (start_date : datetime) (duration_days : Z)
    (calendar : PyDict.t (list datetime)) :
  (forall rail, rail ∈ rails -> Rail.from_system rail = from_system ->
                0 < Rail.interval_days rail /\
                (window_fuel rail start_date duration_days <= fuel)%nat) ->
  exists calendar',
    ScheduleGenerator.fill_calendar fuel rails from_system targets start_date
      duration_days calendar = Done calendar' /\
    forall target,
      PyDict.get calendar' target
      = match ScheduleGenerator.find_rail rails from_system target with
        | Some rail =>
            if decide (target ∈ targets)
            then Some (scheduled_window rail start_date duration_days)
            else PyDict.get calendar target
        | None => PyDict.get calendar target
        end.
Proof.
  intros Hrails. revert calendar.
  induction targets as [|target0 targets IH]; intros calendar.
  - exists calendar. split; [done|]. intros target.
    destruct (ScheduleGenerator.find_rail _ _ _); [|done].
    case_decide as Hin; [by apply elem_of_nil in Hin|done].
  - cbn [ScheduleGenerator.fill_calendar].
    destruct (ScheduleGenerator.find_rail rails from_system target0) as [rail0|]
      eqn:Hfind.
    + apply find_rail_elem in Hfind as Hrail0. destruct Hrail0 as (Hin0 & Hfrom0 & _).
      destruct (Hrails rail0 Hin0 Hfrom0) as [Hpos Hfuel].
      rewrite window_departures_done by done. cbn.
      destruct (IH (PyDict.set calendar target0
                      (scheduled_window rail0 start_date duration_days)))
        as (calendar' & -> & Hget).
      exists calendar'. split; [done|]. intros target. rewrite Hget, PyDict_get_set.
      destruct (ScheduleGenerator.find_rail rails from_system target) as [rail|]
        eqn:Hfind'.
      * destruct (decide (target0 = target)) as [->|Hne].
        -- rewrite Hfind in Hfind'. injection Hfind' as ->.
           rewrite (decide_True (P := target ∈ target :: targets)) by (by left).
           by case_decide.
        -- case_decide as Hin.
           ++ by rewrite decide_True by (by right).
           ++ rewrite decide_False; [done|].
              by intros [->|?]%elem_of_cons.
      * destruct (decide (target0 = target)) as [->|Hne]; [congruence|done].
    + destruct (IH calendar) as (calendar' & -> & Hget).
      exists calendar'. split; [done|]. intros target. rewrite Hget.
      destruct (ScheduleGenerator.find_rail rails from_system target) as [rail|]
        eqn:Hfind'; [|done].
      case_decide as Hin.
      * by rewrite decide_True by (by right).
      * rewrite decide_False; [done|].
        intros [->|?]%elem_of_cons; [congruence|done].
Qed.

Lemma fill_calendar_fuel (fuel1 fuel2 : nat) (rails : list Rail.t)
    (from_system : string) (targets : list string) (start_date : datetime)
    (duration_days : Z) (calendar : PyDict.t (list datetime)) :
  (forall rail, rail ∈ rails -> Rail.from_system rail = from_system ->
                0 < Rail.interval_days rail /\
                (window_fuel rail start_date duration_days <= fuel1)%nat /\
                (window_fuel rail start_date duration_days <= fuel2)%nat) ->
  ScheduleGenerator.fill_calendar fuel1 rails from_system targets start_date
    duration_days calendar
  = ScheduleGenerator.fill_calendar fuel2 rails from_system targets start_date
      duration_days calendar.
Proof.
  intros Hrails. revert calendar.
  induction targets as [|target0 targets IH]; intros calendar; [done|].
  cbn [ScheduleGenerator.fill_calendar].
  destruct (ScheduleGenerator.find_rail rails from_system target0) as [rail0|]
    eqn:Hfind; [|apply IH].
  apply find_rail_elem in Hfind as (Hin0 & Hfrom0 & _).
  destruct (Hrails rail0 Hin0 Hfrom0) as (Hpos & Hfuel1 & Hfuel2).
  rewrite !window_departures_done by done. cbn. apply IH.
Qed.



(** ** Connectivity score *)

Lemma add_scores_spec (rails : list Rail.t) (system_id : string) (total_score : float) :
  match ScheduleGenerator.add_scores rails system_id total_score with
  | Done score =>
      (forall rail, rail ∈ rails -> Rail.from_system rail = system_id ->
                    Rail.interval_days rail ≠ 0) /\
      (origin_group rails system_id = [] -> score = total_score)
  | Raise e =>
      e = ZeroDivisionError /\
      exists rail, rail ∈ rails /\ Rail.from_system rail = system_id /\
                   Rail.interval_days rail = 0
  | OutOfFuel => False
  end.
Proof.
  revert total_score. induction rails as [|rail rails IH]; intros total_score.
  - cbn. split; [|done]. intros rail Hin. by apply elem_of_nil in Hin.
  - cbn [ScheduleGenerator.add_scores]. unfold origin_group. rewrite filter_cons.
    destruct (decide (Rail.from_system rail = system_id)) as [Hfrom|Hfrom].
    + unfold ScheduleGenerator.float_div_int.
      destruct (decide (Rail.interval_days rail = 0)) as [Hzero|Hnz]; cbn.
      * split; [done|]. exists rail. split; [by left|done].
      * specialize (IH (total_score +
                        365 / float_of_int (Rail.interval_days rail) *
                        ScheduleGenerator.class_weight (Rail.rail_class rail))%float).
        destruct (ScheduleGenerator.add_scores rails system_id _) as [score| |e].
        -- destruct IH as [IH _]. split; [|done].
           intros r [->|Hin]%elem_of_cons; [done|by apply IH].
        -- done.
        -- destruct IH as (-> & r & Hin & Hr). split; [done|].
           exists r. split; [by right|done].
    + specialize (IH total_score).
      destruct (ScheduleGenerator.add_scores rails system_id total_score)
        as [score| |e].
      * destruct IH as [IH Hnone]. split; [|done].
        intros r [->|Hin]%elem_of_cons; [done|by apply IH].
      * done.
      * destruct IH as (-> & r & Hin & Hr). split; [done|].
        exists r. split; [by right|done].
Qed.


(** ** Schedules of all rails *)

Lemma schedule_items_spec (fuel : nat) (items : list (string * Rail.t))
    (start_date : datetime) (duration_days : Z) (schedules : PyDict.t Schedule.t) :
  (forall k rail, (k, rail) ∈ items ->
     0 < Rail.interval_days rail /\
     (window_fuel rail start_date duration_days <= fuel)%nat) ->
  NoDup (PyDict.keys schedules ++ PyDict.keys items) ->
  ScheduleGenerator.schedule_items fuel items start_date duration_days schedules
  = Done (schedules ++
          map (fun item : string * Rail.t =>
                 (item.1, Schedule.mk (Rail.id item.2)
                            (scheduled_window item.2 start_date duration_days)
                            (timedelta_hours 1)))
              items).
Proof.
  revert schedules. induction items as [|[k rail] items IH]; intros schedules Hitems Hnodup.
  - cbn. by rewrite app_nil_r.
  - cbn [ScheduleGenerator.schedule_items].
    destruct (Hitems k rail ltac:(by left)) as [Hpos Hfuel].
    rewrite generate_rail_schedule_done by done. cbn.
    cbn in Hnodup. pose proof Hnodup as Hnodup'.
    apply NoDup_app in Hnodup' as (Hleft & Hdisjoint & Hright).
    apply NoDup_cons in Hright as [Hk Hright].
    rewrite PyDict_set_fresh by (intros Hin; apply (Hdisjoint _ Hin); by left).
    rewrite IH.
    + by rewrite <- app_assoc.
    + intros k' rail' Hin. apply (Hitems k' rail'). by right.
    + unfold PyDict.keys in *. rewrite map_app. cbn. by rewrite <- app_assoc.
Qed.



(** ** The order of floats *)

Lemma SFcompare_place (f1 f2 : spec_float) :
  SFcompare f1 f2
  = match float_place f1, float_place f2 with
    | Some p, Some q => Some (place_compare p q)
    | _, _ => None
    end.
Proof.
  destruct f1 as [s1|s1| |s1 m1 e1], f2 as [s2|s2| |s2 m2 e2];
    try reflexivity;
    try (destruct s1; reflexivity); try (destruct s2; reflexivity);
    try (destruct s1, s2; reflexivity).
  destruct s1, s2; try reflexivity.
  unfold SFcompare, float_place, place_compare; cbn - [Z.compare].
  change (-1 ?= -1) with Eq. cbv iota.
  rewrite Z.compare_opp, (Z.compare_antisym e1 e2).
  destruct (e1 ?= e2); reflexivity.
Qed.

Lemma place_compare_le_trans (p q r : Z * Z * Z) :
  place_compare p q ≠ Gt -> place_compare q r ≠ Gt -> place_compare p r ≠ Gt.
Proof.
  destruct p as [[p1 p2] p3], q as [[q1 q2] q3], r as [[r1 r2] r3].
  unfold place_compare. cbn.
  destruct (Z.compare_spec p1 q1), (Z.compare_spec q1 r1), (Z.compare_spec p1 r1);
    try lia; try done;
    destruct (Z.compare_spec p2 q2), (Z.compare_spec q2 r2), (Z.compare_spec p2 r2);
    try lia; try done;
    destruct (Z.compare_spec p3 q3), (Z.compare_spec q3 r3), (Z.compare_spec p3 r3);
    try lia; done.
Qed.

Lemma place_compare_antisym (p q : Z * Z * Z) :
  place_compare q p = CompOpp (place_compare p q).
Proof.
  destruct p as [[p1 p2] p3], q as [[q1 q2] q3]. unfold place_compare. cbn.
  rewrite (Z.compare_antisym p1 q1), (Z.compare_antisym p2 q2),
    (Z.compare_antisym p3 q3).
  by destruct (p1 ?= q1), (p2 ?= q2), (p3 ?= q3).
Qed.

Lemma leb_place (x y : float) :
  PrimFloat.leb x y = true <->
  exists p q, float_place (Prim2SF x) = Some p /\ float_place (Prim2SF y) = Some q /\
              place_compare p q ≠ Gt.
Proof.
  rewrite leb_spec. unfold SFleb. rewrite SFcompare_place.
  destruct (float_place (Prim2SF x)) as [p|], (float_place (Prim2SF y)) as [q|];
    try (split; [done|by intros (? & ? & ? & ? & ?)]).
  split.
  - intros Hle. exists p, q. repeat split. by destruct (place_compare p q).
  - intros (? & ? & [= <-] & [= <-] & Hle). by destruct (place_compare p q).
Qed.

Lemma ltb_place (x y : float) :
  PrimFloat.ltb x y = true <->
  exists p q, float_place (Prim2SF x) = Some p /\ float_place (Prim2SF y) = Some q /\
              place_compare p q = Lt.
Proof.
  rewrite ltb_spec. unfold SFltb. rewrite SFcompare_place.
  destruct (float_place (Prim2SF x)) as [p|], (float_place (Prim2SF y)) as [q|];
    try (split; [done|by intros (? & ? & ? & ? & ?)]).
  split.
  - intros Hle. exists p, q. repeat split. by destruct (place_compare p q).
  - intros (? & ? & [= <-] & [= <-] & ->). done.
Qed.

Lemma float_leb_trans (x y z : float) :
  PrimFloat.leb x y = true -> PrimFloat.leb y z = true -> PrimFloat.leb x z = true.
Proof.
  rewrite !leb_place.
  intros (p & q & Hp & Hq & Hpq) (q' & r & Hq' & Hr & Hqr).
  rewrite Hq in Hq'. injection Hq' as <-.
  exists p, r. repeat split; try done. by eapply place_compare_le_trans.
Qed.

Lemma float_ltb_leb (x y : float) :
  PrimFloat.ltb x y = true -> PrimFloat.leb x y = true.
Proof.
  rewrite ltb_place, leb_place. intros (p & q & Hp & Hq & Hpq).
  exists p, q. repeat split; try done. by rewrite Hpq.
Qed.

(** Two numbers that are not NaN compare one way or the other. *)
Lemma float_leb_total (x y : float) :
  PrimFloat.leb x x = true -> PrimFloat.leb y y = true ->
  PrimFloat.ltb x y = false -> PrimFloat.leb y x = true.
Proof.
  rewrite !leb_place. intros (p & _ & Hp & _ & _) (q & _ & Hq & _ & _) Hlt.
  exists q, p. repeat split; try done.
  rewrite place_compare_antisym. intros Hgt.
  assert (PrimFloat.ltb x y = true); [|congruence].
  apply ltb_place. exists p, q. repeat split; try done.
  by destruct (place_compare p q).
Qed.

Lemma float_leb_refl_l (x y : float) :
  PrimFloat.leb x y = true -> PrimFloat.leb y y = true.
Proof.
  rewrite !leb_place. intros (p & q & Hp & Hq & _). exists q, q.
  repeat split; try done. destruct q as [[q1 q2] q3]. unfold place_compare. cbn.
  by rewrite !Z.compare_refl.
Qed.

(** ** Classes and capacities *)

(** X11. [rail_class_from_capacity] is monotone: of two capacities, the
    larger never gets the lower class; a capacity that is NaN gets the
    lowest class, RFC-D. *)
Theorem rail_class_from_capacity_monotone (capacity1 capacity2 : float) :
  (PrimFloat.leb capacity1 capacity2 = true ->
   class_rank (rail_class_from_capacity capacity1)
   <= class_rank (rail_class_from_capacity capacity2)) /\
  (PrimFloat.leb capacity1 capacity1 = false ->
   rail_class_from_capacity capacity1 = RFC_D).
Proof.
  unfold rail_class_from_capacity. split.
  - intros Hle.
    assert (Hup : forall t, PrimFloat.leb t capacity1 = true ->
                            PrimFloat.leb t capacity2 = true)
      by (intros t Ht; by eapply float_leb_trans).
    destruct (PrimFloat.leb 1000000 capacity1) eqn:HA.
    { by rewrite (Hup _ HA). }
    destruct (PrimFloat.leb 600000 capacity1) eqn:HB.
    { rewrite (Hup _ HB). by destruct (PrimFloat.leb 1000000 capacity2). }
    destruct (PrimFloat.leb 1800 capacity1) eqn:HC.
    { rewrite (Hup _ HC).
      by destruct (PrimFloat.leb 1000000 capacity2), (PrimFloat.leb 600000 capacity2). }
    by destruct (PrimFloat.leb 1000000 capacity2), (PrimFloat.leb 600000 capacity2),
         (PrimFloat.leb 1800 capacity2).
  - intros Hnan.
    assert (Hno : forall t, PrimFloat.leb t capacity1 = false).
    { intros t. destruct (PrimFloat.leb t capacity1) eqn:Ht; [|done].
      apply float_leb_refl_l in Ht. congruence. }
    by rewrite !Hno.
Qed.

Lemma estimate_rail_capacity_outcome `{PyRuntime} (from_system to_system : System.t) :
  match RailGenerator.estimate_rail_capacity from_system to_system with
  | Done capacity => PrimFloat.leb 100 capacity = true
  | Raise e => e = ValueError
  | OutOfFuel => False
  end.
Proof.
  unfold RailGenerator.estimate_rail_capacity, math_sqrt.
  destruct (PrimFloat.ltb (float_of_int _) 0); [done|]. cbn.
  destruct (PrimFloat.ltb 100 _) eqn:Hlt; [by apply float_ltb_leb|done].
Qed.


(** ** Source veins *)

Lemma insert_sorted_descending {A : Type} (key : A -> float) (x : A) (l : list A) :
  PrimFloat.leb (key x) (key x) = true ->
  (forall y, y ∈ l -> PrimFloat.leb (key y) (key y) = true) ->
  StronglySorted (fun a b => PrimFloat.leb (key b) (key a) = true) l ->
  StronglySorted (fun a b => PrimFloat.leb (key b) (key a) = true)
    (insert_sorted (fun a b => PrimFloat.ltb (key b) (key a)) x l).
Proof.
  intros Hx. induction l as [|y l IH]; simpl; intros Hl Hsorted.
  - constructor; [constructor|constructor].
  - apply StronglySorted_inv in Hsorted as [Hsorted Hall].
    rewrite List.Forall_forall in Hall.
    destruct (PrimFloat.ltb (key x) (key y)) eqn:Hlt.
    + constructor.
      * apply IH; [|done]. intros z Hz. apply Hl. by right.
      * apply List.Forall_forall. intros z Hz%list_elem_of_In.
        rewrite insert_sorted_perm in Hz.
        apply elem_of_cons in Hz as [->|Hz]; [by apply float_ltb_leb|].
        apply Hall. by apply list_elem_of_In.
    + assert (Hyx : PrimFloat.leb (key y) (key x) = true).
      { apply float_leb_total; [done|apply Hl; by left|done]. }
      constructor; [by constructor; [|apply List.Forall_forall]|].
      constructor; [done|].
      apply List.Forall_forall. intros z Hz.
      eapply float_leb_trans; [by apply Hall|done].
Qed.

Lemma stable_sort_descending {A : Type} (key : A -> float) (l : list A) :
  (forall y, y ∈ l -> PrimFloat.leb (key y) (key y) = true) ->
  StronglySorted (fun a b => PrimFloat.leb (key b) (key a) = true)
    (stable_sort (fun a b => PrimFloat.ltb (key b) (key a)) l).
Proof.
  induction l as [|x l IH]; simpl; intros Hl; [constructor|].
  apply insert_sorted_descending.
  - apply Hl. by left.
  - intros y Hy. rewrite stable_sort_perm in Hy. apply Hl. by right.
  - apply IH. intros y Hy. apply Hl. by right.
Qed.

Lemma PyDict_get_elem {V : Type} (d : PyDict.t V) (k : string) (v : V) :
  NoDup (PyDict.keys d) -> (k, v) ∈ d -> PyDict.get d k = Some v.
Proof.
  induction d as [|[k0 v0] d IH]; cbn; intros Hnodup Hin.
  - by apply elem_of_nil in Hin.
  - apply NoDup_cons in Hnodup as [Hk0 Hnodup].
    apply elem_of_cons in Hin as [[= -> ->]|Hin].
    + by rewrite decide_True.
    + rewrite decide_False; [by apply IH|].
      intros ->. apply Hk0. apply list_elem_of_fmap. by exists (k, v).
Qed.

Lemma PyDict_elem_get {V : Type} (d : PyDict.t V) (k : string) (v : V) :
  PyDict.get d k = Some v -> (k, v) ∈ d.
Proof.
  induction d as [|[k0 v0] d IH]; cbn; [done|].
  case_decide as Heq.
  - intros [= ->]. subst. by left.
  - intros Hget. right. by apply IH.
Qed.

Lemma NoDup_keys_filter {V : Type} (P : string * V -> Prop)
    `{!forall item, Decision (P item)} (d : list (string * V)) :
  NoDup (PyDict.keys d) -> NoDup (map fst (filter P d)).
Proof.
  induction d as [|[k v] d IH]; intros Hnodup; [constructor|].
  cbn in Hnodup. apply NoDup_cons in Hnodup as [Hk Hnodup]. rewrite filter_cons.
  case_decide; [|by apply IH]. cbn. apply NoDup_cons. split; [|by apply IH].
  intros ([k' v'] & Heq & [_ Hin]%list_elem_of_filter)%list_elem_of_fmap.
  cbn in Heq. subst k'. apply Hk. apply list_elem_of_fmap. by exists (k, v').
Qed.

(** X13. On a galaxy whose system dictionary has distinct keys,
    [find_source_vein_systems] returns exactly the systems whose deposits
    are at least [min_gravitium], each once, by decreasing deposits; a system
    whose deposits are NaN is never a source.  [find_source_vein_candidates]
    of the validators returns the same list. *)
Theorem find_source_vein_systems_sorted (galaxy : Galaxy.t) (min_gravitium : float) :
  NoDup (PyDict.keys (Galaxy.systems galaxy)) ->
  let sources := RailGenerator.find_source_vein_systems galaxy min_gravitium in
  find_source_vein_candidates galaxy min_gravitium = sources /\
  NoDup sources /\
  (forall sid, sid ∈ sources <->
     exists system,
       PyDict.get (Galaxy.systems galaxy) sid = Some system /\
       PrimFloat.leb min_gravitium (System.gravitium_deposits system) = true) /\
  StronglySorted
    (fun sid1 sid2 =>
       PrimFloat.leb (RailGenerator.deposits_of galaxy sid2)
                     (RailGenerator.deposits_of galaxy sid1) = true)
    sources.
Proof.
  intros Hnodup sources.
  set (candidates :=
         map fst (filter (fun item : string * System.t =>
                            PrimFloat.leb min_gravitium
                              (System.gravitium_deposits item.2) = true)
                         (Galaxy.systems galaxy))).
  assert (Hperm : sources ≡ₚ candidates) by apply stable_sort_perm.
  assert (Hin : forall sid, sid ∈ candidates <->
            exists system,
              PyDict.get (Galaxy.systems galaxy) sid = Some system /\
              PrimFloat.leb min_gravitium (System.gravitium_deposits system) = true).
  { intros sid. unfold candidates. rewrite list_elem_of_fmap. split.
    - intros ([k system] & -> & [Hmin Hitem]%list_elem_of_filter).
      exists system. split; [by apply PyDict_get_elem|done].
    - intros (system & Hget & Hmin). exists (sid, system). split; [done|].
      apply list_elem_of_filter. split; [done|by apply PyDict_elem_get]. }
  split; [done|]. split; [|split].
  - rewrite Hperm. unfold candidates.
    by apply NoDup_keys_filter.
  - intros sid. by rewrite Hperm.
  - apply (stable_sort_descending (RailGenerator.deposits_of galaxy)).
    intros sid Hsid. apply Hin in Hsid as (system & Hget & Hmin).
    unfold RailGenerator.deposits_of. rewrite Hget.
    by eapply float_leb_refl_l.
Qed.

(** ** Rails as they are built *)

Section Built.
Context `{PyRuntime}.

Lemma create_rail_built (self self' : RailGenerator.t) (uuid4_hex a b : string)
    (galaxy : Galaxy.t) (construction_date : datetime) (rail : Rail.t) :
  RailGenerator.create_rail self uuid4_hex a b galaxy construction_date
    = Done (rail, self') ->
  Rail.id rail = generate_rail_id uuid4_hex /\
  Rail.from_system rail = a /\ Rail.to_system rail = b /\
  Rail.construction_date rail = construction_date /\
  rail_as_built galaxy rail.
Proof.
  unfold RailGenerator.create_rail, RailGenerator.system_of.
  destruct (PyDict.get (Galaxy.systems galaxy) a) as [from_system|] eqn:Ha; [|done].
  cbn.
  destruct (PyDict.get (Galaxy.systems galaxy) b) as [to_system|] eqn:Hb; [|done].
  cbn.
  destruct (RailGenerator.estimate_rail_capacity _ _) as [capacity| |]; [|done..].
  cbn.
  pose proof (Random_randint_range 1 7 (RailGenerator.rng self) ltac:(lia)) as Ha_range.
  destruct (Random_randint 1 7 _) as [interval_a rng1].
  pose proof (Random_randint_range 7 30 rng1 ltac:(lia)) as Hb_range.
  destruct (Random_randint 7 30 _) as [interval_b rng2].
  pose proof (Random_randint_range 30 180 rng2 ltac:(lia)) as Hc_range.
  destruct (Random_randint 30 180 _) as [interval_c rng3].
  pose proof (Random_randint_range 180 365 rng3 ltac:(lia)) as Hd_range.
  destruct (Random_randint 180 365 _) as [interval_d rng4].
  cbn in Ha_range, Hb_range, Hc_range, Hd_range.
  set (rail_class := rail_class_from_capacity capacity).
  set (interval_days := match rail_class with
                        | RFC_A => interval_a | RFC_B => interval_b
                        | RFC_C => interval_c | RFC_D => interval_d
                        end).
  assert (Hrange : (interval_range rail_class).1 <= interval_days
                   <= (interval_range rail_class).2)
    by (unfold interval_days; by destruct rail_class).
  assert (Hone : 1 <= interval_days) by (destruct rail_class; cbn in Hrange; lia).
  destruct (float_div 365.25 _) as [firings| |]; [|done..]. cbn.
  destruct (float_div _ _) as [max_capacity| |]; [|done..]. cbn.
  pose proof (Random_randint_range 1 interval_days rng4 Hone) as Hoffset.
  destruct (Random_randint 1 interval_days rng4) as [offset rng5].
  cbn in Hoffset.
  intros [= <- <-]. cbn. do 4 (split; [done|]).
  unfold rail_as_built. cbn. rewrite Ha, Hb.
  split; [by exists from_system, to_system|]. split; [done|]. split; [done|].
  unfold timedelta_days. lia.
Qed.

Lemma create_rail_key_error (self : RailGenerator.t) (uuid4_hex a b : string)
    (galaxy : Galaxy.t) (construction_date : datetime) (e : exn) :
  RailGenerator.create_rail self uuid4_hex a b galaxy construction_date = Raise e ->
  (e = KeyError <->
   PyDict.get (Galaxy.systems galaxy) a = None \/
   PyDict.get (Galaxy.systems galaxy) b = None).
Proof.
  unfold RailGenerator.create_rail, RailGenerator.system_of.
  destruct (PyDict.get (Galaxy.systems galaxy) a) as [from_system|] eqn:Ha; cbn;
    [|intros [= <-]; split; [by left|done]].
  destruct (PyDict.get (Galaxy.systems galaxy) b) as [to_system|] eqn:Hb; cbn;
    [|intros [= <-]; split; [by right|done]].
  pose proof (estimate_rail_capacity_outcome from_system to_system) as Hcap.
  destruct (RailGenerator.estimate_rail_capacity _ _) as [capacity| |e']; cbn.
  - destruct (Random_randint 1 7 _) as [interval_a rng1].
    destruct (Random_randint 7 30 _) as [interval_b rng2].
    destruct (Random_randint 30 180 _) as [interval_c rng3].
    destruct (Random_randint 180 365 _) as [interval_d rng4].
    unfold float_div.
    destruct (PrimFloat.eqb _ 0); cbn; [intros [= <-]; split; [done|by intros [|]]|].
    destruct (PrimFloat.eqb _ 0); cbn; [intros [= <-]; split; [done|by intros [|]]|].
    by destruct (Random_randint 1 _ rng4).
  - done.
  - subst e'. intros [= <-]. split; [done|by intros [|]].
Qed.

End Built.

Lemma create_rail_not_out `{PyRuntime} (self : RailGenerator.t)
    (uuid4_hex a b : string) (galaxy : Galaxy.t) (construction_date : datetime) :
  RailGenerator.create_rail self uuid4_hex a b galaxy construction_date ≠ OutOfFuel.
Proof.
  unfold RailGenerator.create_rail, RailGenerator.system_of.
  destruct (PyDict.get (Galaxy.systems galaxy) a) as [from_system|]; [|done]. cbn.
  destruct (PyDict.get (Galaxy.systems galaxy) b) as [to_system|]; [|done]. cbn.
  pose proof (estimate_rail_capacity_outcome from_system to_system) as Hcap.
  destruct (RailGenerator.estimate_rail_capacity _ _) as [capacity| |e']; [|done..].
  cbn.
  destruct (Random_randint 1 7 _) as [interval_a rng1].
  destruct (Random_randint 7 30 _) as [interval_b rng2].
  destruct (Random_randint 30 180 _) as [interval_c rng3].
  destruct (Random_randint 180 365 _) as [interval_d rng4].
  unfold float_div.
  destruct (PrimFloat.eqb _ 0); cbn; [done|].
  destruct (PrimFloat.eqb _ 0); cbn; [done|].
  by destruct (Random_randint 1 _ rng4).
Qed.

(** X14. [create_rail] raises [KeyError] exactly when one of the two systems
    is missing from the galaxy.  The rail that it returns joins the two
    systems, is as long as they are apart, carries the identifier cut from
    the UUID and the construction date given, fires at an interval within
    the range of its class (1-7, 7-30, 30-180 or 180-365 days, so never at
    interval zero), and first fires between one day and one interval after
    its construction. *)
Theorem create_rail_sound `{PyRuntime} (self : RailGenerator.t)
    (uuid4_hex from_system_id to_system_id : string) (galaxy : Galaxy.t)
    (construction_date : datetime) :
  match RailGenerator.create_rail self uuid4_hex from_system_id to_system_id galaxy
          construction_date with
  | Done (rail, _) =>
      Rail.id rail = generate_rail_id uuid4_hex /\
      Rail.from_system rail = from_system_id /\
      Rail.to_system rail = to_system_id /\
      Rail.construction_date rail = construction_date /\
      rail_as_built galaxy rail
  | Raise e =>
      e = KeyError <->
      PyDict.get (Galaxy.systems galaxy) from_system_id = None \/
      PyDict.get (Galaxy.systems galaxy) to_system_id = None
  | OutOfFuel => False
  end.
Proof.
  destruct (RailGenerator.create_rail _ _ _ _ _ _) as [[rail self']| |e] eqn:Hcreate.
  - by eapply create_rail_built.
  - by apply create_rail_not_out in Hcreate.
  - by eapply create_rail_key_error.
Qed.

(** ** Networks as they are generated *)

Lemma PyDict_elem_set {V : Type} (d : PyDict.t V) (k : string) (v : V)
    (item : string * V) :
  item ∈ PyDict.set d k v -> item = (k, v) \/ item ∈ d.
Proof.
  induction d as [|[k0 v0] d IH]; cbn.
  - intros ->%list_elem_of_singleton. by left.
  - case_decide as Heq.
    + intros [->|Hin]%elem_of_cons; [by left|]. right. by right.
    + intros [->|Hin]%elem_of_cons; [right; by left|].
      destruct (IH Hin) as [->|Hd]; [by left|]. right. by right.
Qed.

Lemma PyDict_keys_set_NoDup {V : Type} (d : PyDict.t V) (k : string) (v : V) :
  NoDup (PyDict.keys d) -> NoDup (PyDict.keys (PyDict.set d k v)).
Proof.
  induction d as [|[k0 v0] d IH]; cbn; intros Hnodup.
  - apply NoDup_singleton.
  - apply NoDup_cons in Hnodup as [Hk0 Hnodup]. case_decide as Heq; cbn.
    + subst. by apply NoDup_cons.
    + apply NoDup_cons. split; [|by apply IH].
      intros [->|Hin]%PyDict_keys_set; [done|by apply Hk0].
Qed.

Lemma PyDict_values_set_NoDup {V W : Type} (f : V -> W) (d : PyDict.t V)
    (k : string) (v : V) :
  NoDup (map f (PyDict.values d)) -> f v ∉ map f (PyDict.values d) ->
  NoDup (map f (PyDict.values (PyDict.set d k v))).
Proof.
  induction d as [|[k0 v0] d IH]; cbn; intros Hnodup Hnew.
  - apply NoDup_singleton.
  - apply NoDup_cons in Hnodup as [Hv0 Hnodup]. case_decide as Heq; cbn.
    + apply NoDup_cons. split; [|done]. intros Hin. apply Hnew. by right.
    + apply NoDup_cons. split.
      * intros (x & Hfx & Hx)%list_elem_of_fmap.
        apply PyDict_values_set in Hx.
        apply elem_of_app in Hx as [Hx | ->%list_elem_of_singleton].
        -- apply Hv0. apply list_elem_of_fmap. by exists x.
        -- apply Hnew. rewrite <- Hfx. by left.
      * apply IH; [done|]. intros Hin. apply Hnew. by right.
Qed.

Section Network.
Context `{PyRuntime}.

Lemma consider_edge_sound (fuel : nat) (uuid4 : nat -> string) (galaxy : Galaxy.t)
    (p p' : RailGenerator.progress) (a b : string) (cost : float) :
  RailGenerator.consider_edge fuel uuid4 galaxy p (a, b, cost) = Done p' ->
  a ≠ b ->
  (a, b) ∉ map endpoints (PyDict.values (RailGenerator.rails p)) ->
  network_sound galaxy (RailGenerator.rails p) ->
  network_sound galaxy (RailGenerator.rails p') /\
  forall rail, rail ∈ PyDict.values (RailGenerator.rails p') ->
    rail ∈ PyDict.values (RailGenerator.rails p) \/ endpoints rail = (a, b).
Proof.
  unfold RailGenerator.consider_edge.
  destruct (RailGenerator.create_rail _ _ _ _ _ _) as [[rail self]| |] eqn:Hrail;
    [|done..].
  cbn. apply create_rail_built in Hrail as (Hid & Hfrom & Hto & Hdate & Hbuilt).
  destruct (RailGenerator.validate_no_cycles fuel _) as [acyclic| |]; [|done..]. cbn.
  destruct acyclic.
  - destruct (int_of_float _); [|done..]. cbn. intros [= <-] Hne Hnew (Hk & He & Hall).
    cbn. split; [split; [|split]|].
    + by apply PyDict_keys_set_NoDup.
    + apply PyDict_values_set_NoDup; [done|]. unfold endpoints at 1. by rewrite Hfrom, Hto.
    + intros k r [[= -> ->]|Hin]%PyDict_elem_set; [|by apply Hall].
      split; [done|]. split; [congruence|done].
    + intros r [Hr | ->%list_elem_of_singleton]%PyDict_values_set%elem_of_app;
        [by left|right]. unfold endpoints. by rewrite Hfrom, Hto.
  - intros [= <-] Hne Hnew Hsound. cbn. split; [done|]. intros r Hr. by left.
Qed.

Lemma consider_edges_sound (fuel : nat) (uuid4 : nat -> string) (galaxy : Galaxy.t)
    (edges : list RailGenerator.edge) (p p' : RailGenerator.progress) :
  RailGenerator.consider_edges fuel uuid4 galaxy edges p = Done p' ->
  (forall a b cost, (a, b, cost) ∈ edges -> a ≠ b) ->
  NoDup (map (fun e : RailGenerator.edge => e.1) edges) ->
  (forall rail, rail ∈ PyDict.values (RailGenerator.rails p) ->
     endpoints rail ∉ map (fun e : RailGenerator.edge => e.1) edges) ->
  network_sound galaxy (RailGenerator.rails p) ->
  network_sound galaxy (RailGenerator.rails p').
Proof.
  revert p. induction edges as [|[[a b] cost] edges IH];
    intros p Hrun Hdistinct Hnodup Hfresh Hsound.
  - by injection Hrun as <-.
  - cbn [RailGenerator.consider_edges] in Hrun.
    destruct (RailGenerator.consider_edge fuel uuid4 galaxy p (a, b, cost))
      as [p1| |] eqn:Hstep; [|done..].
    cbn in Hrun, Hnodup. apply NoDup_cons in Hnodup as [Hab Hnodup].
    apply consider_edge_sound in Hstep as [Hsound1 Hvalues]; [|by eapply Hdistinct; left| |done].
    + apply (IH p1); [done| |done| |done].
      * intros a' b' c' Hin. eapply Hdistinct. by right.
      * intros rail Hrail Hin. destruct (Hvalues rail Hrail) as [Hold|Heq].
        -- apply (Hfresh rail Hold). by right.
        -- by rewrite Heq in Hin.
    + intros (rail & Heq & Hrail)%list_elem_of_fmap.
      apply (Hfresh rail Hrail). rewrite <- Heq. by left.
Qed.

End Network.

(** ** The spanning tree *)

Lemma remove_dups_snoc_length (l : list string) (x : string) :
  x ∉ l ->
  List.length (remove_dups (l ++ [x])) = S (List.length (remove_dups l)).
Proof.
  induction l as [|y l IH]; intros Hx; [done|].
  cbn. assert (x ≠ y) by (intros ->; apply Hx; by left).
  assert (x ∉ l) by (intros Hin; apply Hx; by right).
  destruct (decide_rel elem_of y (l ++ [x])) as [Hin|Hnin];
    destruct (decide_rel elem_of y l) as [Hin'|Hnin']; cbn.
  - by apply IH.
  - apply elem_of_app in Hin as [?|?%list_elem_of_singleton]; done.
  - exfalso. apply Hnin. apply elem_of_app. by left.
  - f_equal. by apply IH.
Qed.

Section Tree.
Context `{PyRuntime}.

Lemma scan_targets_attaches (galaxy : Galaxy.t) (in_tree all_systems : list string)
    (from_id : string) (from_system : System.t) (targets : list string)
    (best r : option RailGenerator.edge) :
  from_id ∈ in_tree -> (forall t, t ∈ targets -> t ∈ all_systems) ->
  edge_attaches in_tree all_systems best ->
  RailGenerator.scan_targets galaxy in_tree from_id from_system targets best = Done r ->
  edge_attaches in_tree all_systems r.
Proof.
  intros Hfrom. revert best.
  induction targets as [|to_id targets IH]; intros best Htargets Hbest.
  - by intros [= <-].
  - cbn [RailGenerator.scan_targets].
    assert (Hrest : forall t, t ∈ targets -> t ∈ all_systems)
      by (intros t Ht; apply Htargets; by right).
    case_decide as Hto; [by apply IH|].
    destruct (RailGenerator.system_of galaxy to_id); [|done..]. cbn.
    destruct (RailGenerator.estimate_rail_capacity _ _); [|done..]. cbn.
    apply IH; [done|]. unfold RailGenerator.better_edge.
    destruct best as [[[f0 t0] c0]|]; destruct (PrimFloat.ltb _ _); try done.
    all: intros f t c [= <- <- <-]; repeat split; try done; apply Htargets; by left.
Qed.

Lemma scan_tree_attaches (galaxy : Galaxy.t) (in_tree all_systems sources : list string)
    (best r : option RailGenerator.edge) :
  (forall s, s ∈ sources -> s ∈ in_tree) -> edge_attaches in_tree all_systems best ->
  RailGenerator.scan_tree galaxy in_tree all_systems sources best = Done r ->
  edge_attaches in_tree all_systems r.
Proof.
  revert best. induction sources as [|from_id sources IH]; intros best Hsources Hbest.
  - by intros [= <-].
  - cbn [RailGenerator.scan_tree].
    destruct (RailGenerator.system_of galaxy from_id) as [from_system| |]; [|done..]. cbn.
    destruct (RailGenerator.scan_targets galaxy in_tree from_id from_system all_systems best)
      as [best'| |] eqn:Hscan; [|done..]. cbn.
    apply IH; [by intros; apply Hsources; right|].
    eapply scan_targets_attaches; [|done|done|done]. apply Hsources. by left.
Qed.

Lemma grow_tree_attaches (fuel : nat) (galaxy : Galaxy.t)
    (all_systems sources : list string) (edges r : list RailGenerator.edge) :
  attaches_in_order sources all_systems edges ->
  RailGenerator.grow_tree fuel galaxy all_systems
    (sources ++ map (fun e : string * string * float => e.1.2) edges) edges = Done r ->
  attaches_in_order sources all_systems r.
Proof.
  revert edges. induction fuel as [|fuel IH]; intros edges Hedges; [done|].
  cbn [RailGenerator.grow_tree]. destruct (_ <? _)%nat; [|by intros [= <-]].
  set (in_tree := sources ++ map (fun e : string * string * float => e.1.2) edges).
  destruct (RailGenerator.scan_tree galaxy in_tree all_systems (set_iter in_tree) None)
    as [best| |] eqn:Hscan; [|done..]. cbn.
  apply (scan_tree_attaches _ _ _ _ _ _) in Hscan; [| |done].
  2:{ intros s Hs. by rewrite set_iter_perm, elem_of_remove_dups in Hs. }
  destruct best as [[[from_id to_id] cost]|]; [|by intros [= <-]].
  destruct (Hscan _ _ _ eq_refl) as (Hfrom & Hto & Hall).
  replace (in_tree ++ [to_id])
    with (sources ++ map (fun e : string * string * float => e.1.2)
                         (edges ++ [(from_id, to_id, cost)]))
    by (unfold in_tree; by rewrite map_app, app_assoc).
  apply IH. intros i f t c Hi.
  destruct (decide (i < List.length edges)%nat) as [Hlt|Hge].
  - rewrite lookup_app_l in Hi by done. rewrite take_app_le by (by apply Nat.lt_le_incl).
    exact (Hedges i f t c Hi).
  - apply lookup_lt_Some in Hi as Hlen. rewrite length_app in Hlen. cbn in Hlen.
    assert (i = List.length edges) as -> by lia.
    rewrite list_lookup_middle in Hi by done. injection Hi as <- <- <-.
    rewrite take_app_length. done.
Qed.

Lemma grow_tree_not_out (fuel : nat) (galaxy : Galaxy.t)
    (all_systems in_tree : list string) (edges : list RailGenerator.edge) :
  (List.length all_systems - List.length (remove_dups in_tree) < fuel)%nat ->
  RailGenerator.grow_tree fuel galaxy all_systems in_tree edges ≠ OutOfFuel.
Proof.
  revert in_tree edges. induction fuel as [|fuel IH]; intros in_tree edges Hfuel; [lia|].
  cbn [RailGenerator.grow_tree].
  destruct (Nat.ltb_spec (List.length (remove_dups in_tree)) (List.length all_systems))
    as [Hlt|Hge]; [|done].
  destruct (RailGenerator.scan_tree galaxy in_tree all_systems (set_iter in_tree) None)
    as [best| |] eqn:Hscan; cbn; [| |done].
  - apply scan_tree_leaves in Hscan; [| |done].
    2:{ intros s Hs. by rewrite set_iter_perm, elem_of_remove_dups in Hs. }
    destruct best as [[[from_id to_id] cost]|]; [|done].
    destruct (Hscan _ _ _ eq_refl) as [_ Hto].
    apply IH. rewrite remove_dups_snoc_length by done. lia.
  - clear -Hscan. exfalso. revert Hscan. generalize (@None RailGenerator.edge).
    induction (set_iter in_tree) as [|from_id sources IHs]; intros best; [done|].
    cbn [RailGenerator.scan_tree]. unfold RailGenerator.system_of.
    destruct (PyDict.get _ from_id) as [from_system|]; [|done]. cbn.
    destruct (RailGenerator.scan_targets _ _ _ _ _ _) as [best'| |] eqn:Htargets;
      cbn; [apply IHs| |done].
    intros _. revert Htargets. clear. revert best.
    induction all_systems as [|to_id targets IHt]; intros best; [done|].
    cbn [RailGenerator.scan_targets]. case_decide; [apply IHt|].
    unfold RailGenerator.system_of.
    destruct (PyDict.get _ to_id) as [to_system|]; [|done]. cbn.
    pose proof (estimate_rail_capacity_outcome from_system to_system) as Hcap.
    destruct (RailGenerator.estimate_rail_capacity _ _); [|done..]. cbn. apply IHt.
Qed.

End Tree.

Lemma build_minimum_spanning_tree_attaches `{PyRuntime} (galaxy : Galaxy.t)
    (source_systems : list string) (edges : list RailGenerator.edge) :
  RailGenerator.build_minimum_spanning_tree galaxy source_systems = Done edges ->
  attaches_in_order source_systems (PyDict.keys (Galaxy.systems galaxy)) edges.
Proof.
  unfold RailGenerator.build_minimum_spanning_tree.
  destruct source_systems as [|s sources].
  - intros [= <-] i f t c Hi. by rewrite lookup_nil in Hi.
  - intros Hgrow.
    apply (grow_tree_attaches (S (List.length (PyDict.keys (Galaxy.systems galaxy))))
             galaxy _ (s :: sources) [] edges);
      [|cbn [map]; by rewrite app_nil_r].
    intros i f t c Hi. by rewrite lookup_nil in Hi.
Qed.

Lemma attaches_in_order_NoDup (sources all_systems : list string)
    (edges : list (string * string * float)) :
  attaches_in_order sources all_systems edges ->
  NoDup (map (fun e : string * string * float => e.1.2) edges).
Proof.
  intros Hattach. apply NoDup_alt. intros i j t Hi Hj.
  apply list_lookup_fmap_Some in Hi as ([[fi ti] ci] & -> & Hi).
  apply list_lookup_fmap_Some in Hj as ([[fj tj] cj] & Heq & Hj). cbn in *. subst tj.
  destruct (Nat.lt_trichotomy i j) as [Hlt|[->|Hgt]]; [|done|].
  - exfalso. destruct (Hattach j _ _ _ Hj) as (_ & Hnew & _). apply Hnew.
    apply elem_of_app. right. apply list_elem_of_fmap. exists (fi, ti, ci).
    split; [done|]. apply list_elem_of_lookup. exists i.
    by rewrite lookup_take_lt.
  - exfalso. destruct (Hattach i _ _ _ Hi) as (_ & Hnew & _). apply Hnew.
    apply elem_of_app. right. apply list_elem_of_fmap. exists (fj, ti, cj).
    split; [done|]. apply list_elem_of_lookup. exists j.
    by rewrite lookup_take_lt.
Qed.

(** X15. [build_minimum_spanning_tree] always ends (the depth that the
    embedding gives its loop is never used up).  Each edge that it returns
    starts at a source or at the target of an earlier edge, and ends at a
    system of the galaxy that is neither a source nor the target of an
    earlier edge: the edges form a forest rooted at the sources, no system
    is entered twice, and no edge joins a system to itself. *)
Theorem build_minimum_spanning_tree_forest `{PyRuntime} (galaxy : Galaxy.t)
    (source_systems : list string) :
  match RailGenerator.build_minimum_spanning_tree galaxy source_systems with
  | Done edges =>
      attaches_in_order source_systems (PyDict.keys (Galaxy.systems galaxy)) edges /\
      NoDup (map (fun e : RailGenerator.edge => e.1.2) edges) /\
      forall from_id to_id cost, (from_id, to_id, cost) ∈ edges ->
        from_id ≠ to_id /\ to_id ∉ source_systems
  | Raise _ => True
  | OutOfFuel => False
  end.
Proof.
  destruct (RailGenerator.build_minimum_spanning_tree galaxy source_systems)
    as [edges| |e] eqn:Hbuild; [| |done].
  - apply build_minimum_spanning_tree_attaches in Hbuild as Hattach.
    split; [done|]. split; [by eapply attaches_in_order_NoDup|].
    intros f t c [i Hi]%list_elem_of_lookup.
    destruct (Hattach i _ _ _ Hi) as (Hf & Ht & _). split.
    + by intros ->.
    + intros Hin. apply Ht. apply elem_of_app. by left.
  - revert Hbuild. unfold RailGenerator.build_minimum_spanning_tree.
    destruct source_systems as [|s sources]; [done|].
    apply grow_tree_not_out. lia.
Qed.

(** ** Redundant connections *)

Lemma already_connected_false (mst_edges : list (string * string * float))
    (bottleneck_id other_id : string) :
  RailGenerator.already_connected mst_edges bottleneck_id other_id = false ->
  ((bottleneck_id, other_id) ∉ map (fun e : string * string * float => e.1) mst_edges) /\
  ((other_id, bottleneck_id) ∉ map (fun e : string * string * float => e.1) mst_edges).
Proof.
  unfold RailGenerator.already_connected. intros Hnone.
  assert (Hall : forall e, e ∈ mst_edges ->
            e.1 ≠ (bottleneck_id, other_id) /\ e.1 ≠ (other_id, bottleneck_id)).
  { intros [[f t] c] Hin%list_elem_of_In.
    destruct (bool_decide (bottleneck_id = f ∧ other_id = t)) eqn:H1;
      [|destruct (bool_decide (bottleneck_id = t ∧ other_id = f)) eqn:H2].
    - exfalso. apply not_true_iff_false in Hnone. apply Hnone.
      apply existsb_exists. exists (f, t, c). split; [done|]. by rewrite H1.
    - exfalso. apply not_true_iff_false in Hnone. apply Hnone.
      apply existsb_exists. exists (f, t, c). split; [done|]. rewrite H2.
      by destruct (bool_decide _).
    - apply bool_decide_eq_false in H1, H2. cbn. split; intros [= -> ->]; tauto. }
  split; intros (e & Heq & Hin)%list_elem_of_fmap; destruct (Hall e Hin); congruence.
Qed.

Section Redundancy.
Context `{PyRuntime}.

Lemma nearby_systems_of_spec (galaxy : Galaxy.t) (mst_edges : list RailGenerator.edge)
    (bottleneck_id : string) (bottleneck_system : System.t) (other_id : string)
    (distance : float) :
  (other_id, distance)
    ∈ RailGenerator.nearby_systems_of galaxy mst_edges bottleneck_id bottleneck_system ->
  other_id ≠ bottleneck_id /\
  RailGenerator.already_connected mst_edges bottleneck_id other_id = false.
Proof.
  unfold RailGenerator.nearby_systems_of.
  intros ([id system] & _ & Hin)%list_elem_of_In%in_flat_map.
  case_decide; [done|]. destruct (PrimFloat.ltb _ _); [|done].
  destruct (RailGenerator.already_connected _ _ _) eqn:Hconn; [done|].
  by destruct Hin as [[= <- _]|[]].
Qed.

Lemma connect_bottlenecks_spec (galaxy : Galaxy.t)
    (mst_edges : list RailGenerator.edge) (redundancy_factor : float)
    (bottlenecks : list string) (self self' : RailGenerator.t)
    (additional_edges r : list RailGenerator.edge) :
  RailGenerator.connect_bottlenecks galaxy mst_edges redundancy_factor bottlenecks
    self additional_edges = Done (r, self') ->
  exists new_edges,
    r = additional_edges ++ new_edges /\
    map (fun e : RailGenerator.edge => e.1.1) new_edges `sublist_of` bottlenecks /\
    forall e, e ∈ new_edges ->
      e.1 ∉ map (fun e : RailGenerator.edge => e.1) mst_edges.
Proof.
  revert self additional_edges.
  induction bottlenecks as [|bottleneck_id bottlenecks IH]; intros self edges.
  - intros [= <- _]. exists []. rewrite app_nil_r. split; [done|]. split; [done|].
    intros e He. by apply elem_of_nil in He.
  - cbn [RailGenerator.connect_bottlenecks].
    assert (Hskip : forall self0,
              RailGenerator.connect_bottlenecks galaxy mst_edges redundancy_factor
                bottlenecks self0 edges = Done (r, self') ->
              exists new_edges,
                r = edges ++ new_edges /\
                map (fun e : RailGenerator.edge => e.1.1) new_edges
                  `sublist_of` bottleneck_id :: bottlenecks /\
                forall e, e ∈ new_edges ->
                  e.1 ∉ map (fun e : RailGenerator.edge => e.1) mst_edges).
    { intros self0 Hrun. destruct (IH _ _ Hrun) as (new_edges & -> & Hsub & Hnew).
      exists new_edges. split; [done|]. split; [by apply sublist_cons|done]. }
    destruct (Random_random _) as [draw rng'].
    destruct (PrimFloat.ltb draw _); [|by apply Hskip].
    destruct (RailGenerator.system_of galaxy bottleneck_id) as [bottleneck_system| |];
      [|done..]. cbn.
    destruct (stable_sort _ _) as [|[target_id distance] rest] eqn:Hsort;
      [by apply Hskip|].
    destruct (RailGenerator.system_of galaxy target_id) as [target_system| |];
      [|done..]. cbn.
    destruct (RailGenerator.estimate_rail_capacity _ _) as [capacity| |]; [|done..]. cbn.
    intros Hrun. destruct (IH _ _ Hrun) as (new_edges & -> & Hsub & Hnew).
    eexists (_ :: new_edges). split; [by rewrite <- app_assoc|].
    split; [cbn; by apply sublist_skip|].
    intros e [->|He]%elem_of_cons; [|by apply Hnew]. cbn.
    assert (Hnear : (target_id, distance)
                      ∈ RailGenerator.nearby_systems_of galaxy mst_edges bottleneck_id
                          bottleneck_system).
    { rewrite <- (stable_sort_perm (fun a b : string * float => PrimFloat.ltb a.2 b.2)).
      rewrite Hsort. by left. }
    apply nearby_systems_of_spec in Hnear as [_ Hconn].
    by apply already_connected_false in Hconn as [? _].
Qed.

Lemma count_connections_NoDup (mst_edges : list RailGenerator.edge)
    (connection_count : PyDict.t Z) :
  NoDup (PyDict.keys connection_count) ->
  NoDup (PyDict.keys
           (foldl (fun connection_count (e : RailGenerator.edge) =>
                     let '(from_id, to_id, _) := e in
                     RailGenerator.count_connection
                       (RailGenerator.count_connection connection_count from_id) to_id)
                  connection_count mst_edges)).
Proof.
  revert connection_count.
  induction mst_edges as [|[[f t] c] mst_edges IH]; intros connection_count Hnodup;
    [done|].
  cbn. apply IH. unfold RailGenerator.count_connection.
  by do 2 apply PyDict_keys_set_NoDup.
Qed.

Lemma propose_edges_pairs (self self' : RailGenerator.t) (galaxy : Galaxy.t)
    (max_systems : option Z) (source_systems : list string)
    (all_edges : list RailGenerator.edge) :
  RailGenerator.propose_edges self galaxy max_systems source_systems
    = Done (all_edges, self') ->
  NoDup (map (fun e : RailGenerator.edge => e.1) all_edges).
Proof.
  unfold RailGenerator.propose_edges.
  destruct (RailGenerator.build_minimum_spanning_tree _ _) as [mst_edges| |] eqn:Hmst;
    [|done..]. cbn.
  unfold RailGenerator.add_redundancy_connections.
  destruct (RailGenerator.connect_bottlenecks _ _ _ _ _ _) as [[redundancy_edges ?]| |]
    eqn:Hred; [|done..]. cbn.
  intros [= <- _].
  apply connect_bottlenecks_spec in Hred as (new_edges & -> & Hsub & Hnew). cbn.
  rewrite map_app. apply NoDup_app. split; [|split].
  - apply build_minimum_spanning_tree_attaches, attaches_in_order_NoDup in Hmst.
    apply (NoDup_fmap_1 snd). by rewrite <- list_fmap_compose.
  - intros pair Hmst_pair (e & -> & He)%list_elem_of_fmap. by apply (Hnew e He).
  - apply (NoDup_fmap_1 fst). rewrite <- list_fmap_compose.
    eapply sublist_NoDup; [|exact Hsub].
    apply NoDup_keys_filter. apply count_connections_NoDup. constructor.
Qed.

End Redundancy.

Lemma generate_rail_network_built `{PyRuntime} (fuel : nat)
    (uuid4 : nat -> string) (self : RailGenerator.t) (galaxy : Galaxy.t)
    (construction_start : option datetime) (max_systems : option Z)
    (rails : PyDict.t Rail.t) :
  RailGenerator.generate_rail_network fuel uuid4 self galaxy construction_start
    max_systems = Done rails ->
  network_sound galaxy rails.
Proof.
  unfold RailGenerator.generate_rail_network. cbn zeta.
  destruct (RailGenerator.find_source_vein_systems galaxy 1000) as [|s sources].
  { intros [= <-]. split; [constructor|]. split; [constructor|].
    intros k rail Hin. by apply elem_of_nil in Hin. }
  destruct (RailGenerator.propose_edges _ _ _ _) as [[all_edges self']| |] eqn:Hprop;
    [|done..]. cbn.
  destruct (RailGenerator.consider_edges _ _ _ _ _) as [p| |] eqn:Hloop; [|done..]. cbn.
  intros [= <-].
  apply (consider_edges_sound _ _ _ _ _ _ Hloop).
  - by eapply propose_edges_distinct.
  - by eapply propose_edges_pairs.
  - intros rail Hrail. by apply elem_of_nil in Hrail.
  - split; [constructor|]. split; [constructor|].
    intros k rail Hin. by apply elem_of_nil in Hin.
Qed.

(** X16. Every network that [generate_rail_network] returns is stored under
    distinct keys, each rail under its own identifier; no rail joins a system
    to itself and no two rails join the same ordered pair of systems; every
    rail joins two systems of the galaxy, is as long as they are apart, fires
    at an interval within the range of its class and first fires after its
    construction date. *)
Theorem generate_rail_network_sound `{PyRuntime} (fuel : nat)
    (uuid4 : nat -> string) (self : RailGenerator.t) (galaxy : Galaxy.t)
    (construction_start : option datetime) (max_systems : option Z)
    (rails : PyDict.t Rail.t) :
  RailGenerator.generate_rail_network fuel uuid4 self galaxy construction_start
    max_systems = Done rails ->
  network_sound galaxy rails.
Proof. apply generate_rail_network_built. Qed.

(** ** Validating a generated network *)

Lemma PyDict_get_keys {V : Type} (d : PyDict.t V) (k : string) (v : V) :
  PyDict.get d k = Some v -> k ∈ PyDict.keys d.
Proof.
  intros Hget%PyDict_elem_get. apply list_elem_of_fmap. by exists (k, v).
Qed.

Lemma PyDict_values_elem {V : Type} (d : PyDict.t V) (v : V) :
  v ∈ PyDict.values d -> exists k, (k, v) ∈ d.
Proof. intros ([k v'] & -> & Hin)%list_elem_of_fmap. by exists k. Qed.

Lemma generate_rail_network_free `{PyRuntime} (fuel : nat)
    (uuid4 : nat -> string) (self : RailGenerator.t) (galaxy : Galaxy.t)
    (construction_start : option datetime) (max_systems : option Z)
    (rails : PyDict.t Rail.t) :
  RailGenerator.generate_rail_network fuel uuid4 self galaxy construction_start
    max_systems = Done rails ->
  loop_free (PyDict.values rails).
Proof.
  unfold RailGenerator.generate_rail_network. cbn zeta.
  destruct (RailGenerator.find_source_vein_systems galaxy 1000) as [|s sources].
  { intros [= <-]. apply loop_free_nil. }
  destruct (RailGenerator.propose_edges _ _ _ _) as [[all_edges self']| |] eqn:Hprop;
    [|done..]. cbn.
  destruct (RailGenerator.consider_edges _ _ _ _ _) as [p| |] eqn:Hloop; [|done..]. cbn.
  intros [= <-].
  destruct (consider_edges_loop_free _ _ _ _ (RailGenerator.mk_progress self' 0 [] _) _
              (propose_edges_distinct _ _ _ _ _ _ Hprop) loop_free_nil
              ltac:(intros r Hr; by apply elem_of_nil in Hr) Hloop).
  done.
Qed.

(** X17. A network that [generate_rail_network] returns, put into the galaxy
    it was generated for, passes every structural check of
    [validate_rail_network]: the validator reports no closed timelike curve,
    no orphaned system, no unknown start or end and no duplicate rail.  The
    only findings that can remain are a length mismatch and insufficient
    gravitium. *)
Theorem generate_rail_network_validates `{PyRuntime} (fuel fuel' : nat)
    (uuid4 : nat -> string) (self : RailGenerator.t) (galaxy : Galaxy.t)
    (construction_start : option datetime) (max_systems : option Z)
    (rails : PyDict.t Rail.t) :
  RailGenerator.generate_rail_network fuel uuid4 self galaxy construction_start
    max_systems = Done rails ->
  (size (rail_systems (PyDict.values rails)) < fuel')%nat ->
  exists (ok : bool) (errors : list finding),
    validate_rail_network fuel' (with_rails galaxy rails) = Done (ok, errors) /\
    forall f, f ∈ errors ->
      (exists rail_id length actual_distance,
         f = LengthMismatch rail_id length actual_distance) \/
      (exists need have, f = InsufficientGravitium need have).
Proof.
  intros Hgen Hfuel.
  pose proof (generate_rail_network_free _ _ _ _ _ _ _ Hgen) as Hfree.
  apply generate_rail_network_built in Hgen as (Hkeys & Hpairs & Hall).
  pose proof (detect_loops_loop_free fuel' _ Hfuel Hfree) as Hloops.
  destruct (validate_rail_network_spec fuel' (with_rails galaxy rails) [] Hloops)
    as (errors & Hrun & Hfind).
  exists (bool_decide (List.length errors = 0%nat)), errors. split; [done|].
  assert (Hbuilt : forall rail, rail ∈ PyDict.values rails -> rail_as_built galaxy rail).
  { intros rail [k Hin]%PyDict_values_elem. by apply (Hall k rail). }
  intros f Hf%Hfind.
  destruct f as [loops|orphaned|rail_id from_system|rail_id to_system
                |rail_id length distance|a b|need have];
    unfold finding_holds, with_rails in Hf; cbn in Hf.
  - destruct Hf as [Hrun' Hne].
    pose proof (eq_trans (eq_sym Hrun') Hloops) as Heq. by injection Heq as ->.
  - destruct Hf as [-> Hne]. exfalso. apply Hne. apply set_eq. intros x.
    split; [|set_solver]. intros [Hx Hnot]%elem_of_difference. exfalso. apply Hnot.
    apply elem_of_list_to_set.
    unfold rail_systems in Hx. apply elem_of_list_to_set in Hx.
    apply list_elem_of_In, in_flat_map in Hx as (rail & Hrail%list_elem_of_In & Hx).
    destruct (Hbuilt rail Hrail) as ((sa & sb & Hsa & Hsb & _) & _).
    destruct Hx as [<-|[<-|[]]]; by eapply PyDict_get_keys.
  - destruct Hf as (rail & Hrail & _ & <- & Hnone).
    destruct (Hbuilt rail Hrail) as ((sa & sb & Hsa & Hsb & _) & _). congruence.
  - destruct Hf as (rail & Hrail & _ & <- & Hnone).
    destruct (Hbuilt rail Hrail) as ((sa & sb & Hsa & Hsb & _) & _). congruence.
  - left. by exists rail_id, length, distance.
  - exfalso. destruct Hf as (l1 & r1 & l2 & r2 & l3 & Heq & Ha1 & Hb1 & Ha2 & Hb2).
    unfold PyDict.values in *. rewrite Heq in Hpairs. rewrite map_app in Hpairs.
    cbn in Hpairs.
    apply NoDup_app in Hpairs as (_ & _ & Hpairs).
    apply NoDup_cons in Hpairs as [Hnot _]. apply Hnot.
    rewrite map_app. apply elem_of_app. right. cbn. unfold endpoints.
    rewrite Ha1, Hb1, Ha2, Hb2. by left.
  - right. by exists need, have.
Qed.

(** ** Construction dates *)

Lemma stable_sort_sorted {A : Type} (key : A -> Z) (l : list A) :
  StronglySorted (fun a b => key a <= key b) l ->
  stable_sort (fun a b => key a <? key b) l = l.
Proof.
  induction l as [|x l IH]; [done|]. intros Hsorted.
  apply StronglySorted_inv in Hsorted as [Hsorted Hall]. cbn. rewrite IH by done.
  destruct l as [|y l]; [done|]. cbn.
  apply Forall_inv in Hall. destruct (Z.ltb_spec (key y) (key x)); [lia|done].
Qed.

(** X18. [generate_construction_schedule] returns the pairs of a key and the
    construction date of its rail, each pair once, in the order of the
    dates. *)
Theorem generate_construction_schedule_sorted (rails : PyDict.t Rail.t) :
  RailGenerator.generate_construction_schedule rails
    ≡ₚ map (fun item : string * Rail.t => (item.1, Rail.construction_date item.2))
           rails /\
  StronglySorted (fun x y : string * datetime => x.2 <= y.2)
    (RailGenerator.generate_construction_schedule rails).
Proof.
  unfold RailGenerator.generate_construction_schedule. split.
  - apply stable_sort_perm.
  - apply (stable_sort_by_key (fun x : string * datetime => x.2)).
Qed.

Section Dates.
Context `{PyRuntime}.

Lemma consider_edge_keys_drawn (fuel : nat) (uuid4 : nat -> string) (galaxy : Galaxy.t)
    (p p' : RailGenerator.progress) (e : RailGenerator.edge) :
  RailGenerator.consider_edge fuel uuid4 galaxy p e = Done p' ->
  keys_drawn uuid4 p ->
  keys_drawn uuid4 p' /\ RailGenerator.uuids p' = S (RailGenerator.uuids p).
Proof.
  destruct e as [[a b] cost]. intros Hstep Hkeys.
  apply consider_edge_step in Hstep
    as (rail & _ & _ & Hid & Hnext & [[_ Hset]|[_ Hsame]]); (split; [|done]).
  - intros k Hk. rewrite Hset in Hk. rewrite Hnext.
    apply PyDict_keys_set in Hk as [->|Hk].
    + exists (RailGenerator.uuids p). split; [lia|done].
    + destruct (Hkeys k Hk) as (i & Hi & ->). exists i. split; [lia|done].
  - intros k Hk. rewrite Hsame in Hk. rewrite Hnext.
    destruct (Hkeys k Hk) as (i & Hi & ->). exists i. split; [lia|done].
Qed.

Lemma consider_edge_dated (fuel : nat) (uuid4 : nat -> string) (galaxy : Galaxy.t)
    (start : datetime) (p p' : RailGenerator.progress) (e : RailGenerator.edge) :
  RailGenerator.consider_edge fuel uuid4 galaxy p e = Done p' ->
  generate_rail_id (uuid4 (RailGenerator.uuids p))
    ∉ PyDict.keys (RailGenerator.rails p) ->
  dated start p -> dated start p'.
Proof.
  destruct e as [[a b] cost]. unfold RailGenerator.consider_edge.
  destruct (RailGenerator.create_rail _ _ _ _ _ _) as [[rail self]| |] eqn:Hrail;
    [|done..].
  cbn. apply create_rail_built in Hrail as (Hid & _ & _ & Hdate & _).
  destruct (RailGenerator.validate_no_cycles fuel _) as [acyclic| |]; [|done..]. cbn.
  destruct acyclic; [|by intros [= <-]].
  destruct (int_of_float _) as [years| |]; [|done..]. cbn.
  intros [= <-] Hfresh (Hall & Hsorted & Hfirst). rewrite Hid.
  unfold dated. cbn. rewrite PyDict_set_fresh by done.
  unfold PyDict.values in *. rewrite map_app. cbn.
  assert (Hstart : start <= RailGenerator.construction_date p).
  { destruct (map snd (RailGenerator.rails p)) as [|r0 rest] eqn:Hvalues; [lia|].
    destruct (Hall r0 ltac:(by left)) as [? ?]. unfold construction_year in *. lia. }
  split; [|split].
  - intros r [Hr | ->%list_elem_of_singleton]%elem_of_app.
    + destruct (Hall r Hr). unfold construction_year in *. lia.
    + rewrite Hdate. unfold construction_year. lia.
  - apply StronglySorted_snoc; [done|]. intros r Hr. rewrite Hdate.
    by destruct (Hall r Hr).
  - destruct (map snd (RailGenerator.rails p)) as [|r0 rest]; cbn; [|done].
    by rewrite Hdate.
Qed.

Lemma consider_edges_dated (fuel n : nat) (uuid4 : nat -> string) (galaxy : Galaxy.t)
    (start : datetime) (edges : list RailGenerator.edge)
    (p p' : RailGenerator.progress) :
  fresh_ids uuid4 n ->
  (RailGenerator.uuids p + List.length edges <= n)%nat ->
  RailGenerator.consider_edges fuel uuid4 galaxy edges p = Done p' ->
  keys_drawn uuid4 p -> dated start p -> dated start p'.
Proof.
  intros Hfresh. revert p.
  induction edges as [|e edges IH]; intros p Hlen Hrun Hkeys Hdated.
  - by injection Hrun as <-.
  - cbn [RailGenerator.consider_edges] in Hrun. cbn [List.length] in Hlen.
    destruct (RailGenerator.consider_edge fuel uuid4 galaxy p e) as [p1| |] eqn:Hstep;
      [|done..]. cbn in Hrun.
    destruct (consider_edge_keys_drawn _ _ _ _ _ _ Hstep Hkeys) as [Hkeys1 Hnext].
    apply (IH p1); [lia|done|done|].
    eapply consider_edge_dated; [done| |done].
    eapply keys_drawn_fresh; [done| |done]. lia.
Qed.

End Dates.

(** X19. When the identifiers drawn in a run are distinct, the rails of the
    network that [generate_rail_network] returns are dated in the order of
    the dictionary: the first rail at the start of the construction, every
    later rail one year (of 365.25 days) or more after the rail before it.
    The construction schedule of the network is then the dictionary itself,
    in its own order. *)
Theorem generate_rail_network_dated `{PyRuntime} (fuel : nat)
    (uuid4 : nat -> string) (self : RailGenerator.t) (galaxy : Galaxy.t)
    (construction_start : option datetime) (max_systems : option Z)
    (rails : PyDict.t Rail.t) :
  (forall all_edges self',
     RailGenerator.propose_edges self galaxy max_systems
       (RailGenerator.find_source_vein_systems galaxy 1000) = Done (all_edges, self') ->
     fresh_ids uuid4 (List.length all_edges)) ->
  RailGenerator.generate_rail_network fuel uuid4 self galaxy construction_start
    max_systems = Done rails ->
  StronglySorted
    (fun r1 r2 => Rail.construction_date r1 + construction_year
                  <= Rail.construction_date r2)
    (PyDict.values rails) /\
  match PyDict.values rails with
  | [] => True
  | rail :: _ =>
      Rail.construction_date rail
      = default RailGenerator.rail_age_start construction_start
  end /\
  RailGenerator.generate_construction_schedule rails
  = map (fun item : string * Rail.t => (item.1, Rail.construction_date item.2)) rails.
Proof.
  intros Hfresh. unfold RailGenerator.generate_rail_network. cbn zeta.
  assert (Hschedule : forall rails : PyDict.t Rail.t,
            StronglySorted
              (fun r1 r2 => Rail.construction_date r1 + construction_year
                            <= Rail.construction_date r2)
              (PyDict.values rails) ->
            RailGenerator.generate_construction_schedule rails
            = map (fun item : string * Rail.t =>
                     (item.1, Rail.construction_date item.2)) rails).
  { intros d Hsorted. unfold RailGenerator.generate_construction_schedule.
    apply (stable_sort_sorted (fun x : string * datetime => x.2)).
    clear -Hsorted. induction d as [|[k r] d IH]; [constructor|].
    cbn in *. apply StronglySorted_inv in Hsorted as [Hsorted Hall].
    constructor; [by apply IH|].
    apply List.Forall_forall. intros [k' date'] Hin%list_elem_of_In.
    apply list_elem_of_fmap in Hin as ([k'' r'] & [= -> ->] & Hin). cbn.
    rewrite List.Forall_forall in Hall.
    assert (Hr' : In r' (PyDict.values d)).
    { apply list_elem_of_In, list_elem_of_fmap. by exists (k'', r'). }
    specialize (Hall r' Hr'). cbn in Hall. unfold construction_year in Hall. lia. }
  destruct (RailGenerator.find_source_vein_systems galaxy 1000) as [|s sources].
  { intros [= <-]. split; [constructor|]. split; [done|]. by apply Hschedule; constructor. }
  destruct (RailGenerator.propose_edges _ _ _ _) as [[all_edges self']| |] eqn:Hprop;
    [|done..]. cbn.
  destruct (RailGenerator.consider_edges _ _ _ _ _) as [p| |] eqn:Hloop; [|done..]. cbn.
  intros [= <-].
  destruct (consider_edges_dated fuel (List.length all_edges) uuid4 galaxy
              (default RailGenerator.rail_age_start construction_start) all_edges
              (RailGenerator.mk_progress self' 0 []
                 (default RailGenerator.rail_age_start construction_start))
              p (Hfresh _ _ eq_refl) ltac:(cbn; lia) Hloop)
    as (_ & Hsorted & Hfirst).
  - intros k Hk. by apply elem_of_nil in Hk.
  - split; [|split]; [by intros ? ?%elem_of_nil|constructor|done].
  - split; [done|]. split; [by destruct (PyDict.values _)|by apply Hschedule].
Qed.

(** ** Systems on the network *)

(** X20. [connected_systems] lists, each once, exactly the systems at which
    a rail of the galaxy starts or ends, whatever the order in which the
    interpreter iterates the set. *)
Theorem connected_systems_endpoints `{PyRuntime} (galaxy : Galaxy.t) :
  NoDup (Galaxy.connected_systems galaxy) /\
  forall s, s ∈ Galaxy.connected_systems galaxy <->
    exists rail, rail ∈ PyDict.values (Galaxy.rails galaxy) /\
      (Rail.from_system rail = s \/ Rail.to_system rail = s).
Proof.
  unfold Galaxy.connected_systems. split.
  - rewrite set_iter_perm. apply NoDup_remove_dups.
  - intros s. rewrite set_iter_perm, elem_of_remove_dups, list_elem_of_In, in_flat_map.
    split.
    + intros (rail & Hrail%list_elem_of_In & [<-|[<-|[]]]); exists rail; tauto.
    + intros (rail & Hrail%list_elem_of_In & [<-|<-]); exists rail; cbn; tauto.
Qed.

(** ** Planet identifiers *)

(** X21. [generate_planet_id] never raises, whatever the index, negative
    indices included: it appends a dash and one lower-case letter to the
    identifier of the system.  The letter depends on the index modulo 26
    only, so that the twenty-seventh planet of a system gets the identifier
    of the first. *)
Theorem generate_planet_id_letter (system_id : string) (planet_index : Z) :
  (exists letter : Ascii.ascii,
     generate_planet_id system_id planet_index
     = Done (system_id +:+ "-" +:+ String letter EmptyString) /\
     (97 <= Ascii.nat_of_ascii letter <= 122)%nat) /\
  generate_planet_id system_id (planet_index + 26)
  = generate_planet_id system_id planet_index.
Proof.
  unfold generate_planet_id. cbn [letters String.length Z.of_nat Pos.of_succ_nat].
  change (Z.of_nat 26) with 26.
  split.
  - pose proof (Z.mod_pos_bound planet_index 26 eq_refl) as Hrange.
    set (n := Z.to_nat (planet_index mod 26)).
    assert (Hn : (n < 26)%nat) by lia. clearbody n.
    do 26 (destruct n as [|n]; [eexists; split; [reflexivity|vm_compute; lia]|]). lia.
  - replace (planet_index + 26) with (planet_index + 1 * 26) by lia.
    by rewrite Z.mod_add by lia.
Qed.

(** ** Construction sites *)

(** X22. [validate_system_for_rail_construction] answers one error and
    nothing else for a system that the galaxy does not have.  For a system
    of the galaxy, the answer is valid exactly when no error is listed; the
    technology error is listed exactly below level 5 and the population
    error exactly below 10000 inhabitants; the deposits are not looked at
    when no rail touches the system; and the target capacity never changes
    the answer. *)
Theorem validate_system_for_rail_construction_errors `{PyRuntime}
    (galaxy : Galaxy.t) (system_id : string) (target_capacity : float) :
  match PyDict.get (Galaxy.systems galaxy) system_id with
  | None =>
      validate_system_for_rail_construction galaxy system_id target_capacity
      = (false, [NoSuchSystem system_id])
  | Some system =>
      let '(ok, errors) :=
        validate_system_for_rail_construction galaxy system_id target_capacity in
      (ok = true <-> errors = []) /\
      (TechLevelTooLow system_id ∈ errors <-> System.tech_level system < 5) /\
      (PopulationTooLow system_id ∈ errors <->
       System.total_population system < 10000) /\
      (Galaxy.get_system_rails galaxy system_id = [] ->
       forall available estimated_cost,
         InsufficientDeposits system_id available estimated_cost ∉ errors) /\
      NoSuchSystem system_id ∉ errors
  end /\
  forall other_capacity,
    validate_system_for_rail_construction galaxy system_id other_capacity
    = validate_system_for_rail_construction galaxy system_id target_capacity.
Proof.
  split; [|done]. unfold validate_system_for_rail_construction.
  destruct (PyDict.get (Galaxy.systems galaxy) system_id) as [system|]; [|done].
  cbn zeta.
  set (tech := if System.tech_level system <? 5
               then [TechLevelTooLow system_id] else []).
  set (deposits := match Galaxy.get_system_rails galaxy system_id with
                   | [] => []
                   | _ :: _ => _
                   end).
  set (pop := if System.total_population system <? 10000
              then [PopulationTooLow system_id] else []).
  assert (Hdeposits : forall f, f ∈ deposits ->
            (exists a e, f = InsufficientDeposits system_id a e) /\
            Galaxy.get_system_rails galaxy system_id ≠ []).
  { intros f. unfold deposits.
    destruct (Galaxy.get_system_rails galaxy system_id) as [|r rs];
      [by intros ?%elem_of_nil|].
    destruct (PrimFloat.ltb _ _); [|by intros ?%elem_of_nil].
    intros ->%list_elem_of_singleton. split; [by eexists _, _|done]. }
  assert (Htech : forall f, f ∈ tech <->
            f = TechLevelTooLow system_id /\ System.tech_level system < 5).
  { intros f. unfold tech. destruct (Z.ltb_spec (System.tech_level system) 5).
    - rewrite list_elem_of_singleton. tauto.
    - split; [by intros ?%elem_of_nil|lia]. }
  assert (Hpop : forall f, f ∈ pop <->
            f = PopulationTooLow system_id /\ System.total_population system < 10000).
  { intros f. unfold pop. destruct (Z.ltb_spec (System.total_population system) 10000).
    - rewrite list_elem_of_singleton. tauto.
    - split; [by intros ?%elem_of_nil|lia]. }
  split; [|split; [|split; [|split]]].
  - rewrite bool_decide_eq_true. split; [apply nil_length_inv|by intros ->].
  - rewrite !elem_of_app. split.
    + intros [[Ht|Hd]|Hp].
      * by apply Htech in Ht as [_ ?].
      * by apply Hdeposits in Hd as [(a & e & [=]) _].
      * by apply Hpop in Hp as [[=] _].
    + intros Hlt. left. left. by apply Htech.
  - rewrite !elem_of_app. split.
    + intros [[Ht|Hd]|Hp].
      * by apply Htech in Ht as [[=] _].
      * by apply Hdeposits in Hd as [(a & e & [=]) _].
      * by apply Hpop in Hp as [_ ?].
    + intros Hlt. right. by apply Hpop.
  - intros Hnone a e. rewrite !elem_of_app. intros [[Ht|Hd]|Hp].
    + by apply Htech in Ht as [[=] _].
    + by apply Hdeposits in Hd as [_ ?].
    + by apply Hpop in Hp as [[=] _].
  - rewrite !elem_of_app. intros [[Ht|Hd]|Hp].
    + by apply Htech in Ht as [[=] _].
    + by apply Hdeposits in Hd as [(a & e & [=]) _].
    + by apply Hpop in Hp as [[=] _].
Qed.

(** ** Connectivity *)

Section Reach.
Variables (rails : list Rail.t) (s : string).

Lemma visit_outgoing_spec (todo : list Rail.t) (current : string)
    (visited reachable : gset string) (queue : list string) :
  (forall r, r ∈ todo -> r ∈ rails) ->
  reach_inv rails s visited reachable (current :: queue) ->
  match visit_outgoing todo current visited reachable queue with
  | (visited', reachable', queue') =>
      reach_inv rails s visited' reachable' (current :: queue') /\
      visited ⊆ visited' /\
      (forall r, r ∈ todo -> Rail.from_system r = current ->
                 Rail.to_system r ∈ visited') /\
      (List.length queue' + size (unvisited_targets rails visited')
       = List.length queue + size (unvisited_targets rails visited))%nat
  end.
Proof.
  revert visited reachable queue.
  induction todo as [|rail todo IH]; intros visited reachable queue Htodo Hinv.
  - cbn. split; [done|]. split; [done|]. split; [|done].
    intros r Hr. by apply elem_of_nil in Hr.
  - cbn [visit_outgoing].
    assert (Hrest : forall r, r ∈ todo -> r ∈ rails)
      by (intros r Hr; apply Htodo; by right).
    destruct (decide (Rail.from_system rail = current ∧ Rail.to_system rail ∉ visited))
      as [[Hfrom Hnew]|Hskip].
    + set (t := Rail.to_system rail) in *.
      assert (Hrail : has_rail rails current t).
      { exists rail. split; [apply Htodo; by left|done]. }
      assert (Hinv' : reach_inv rails s ({[t]} ∪ visited) ({[t]} ∪ reachable)
                        (current :: queue ++ [t])).
      { destruct Hinv as [Hv Hs Hsound Hqueue Hclosed]. split.
        - rewrite Hv. set_solver.
        - intros [Ht|Ht]%elem_of_union; [|done].
          apply Hnew. rewrite Hv. set_solver.
        - intros x [->%elem_of_singleton|Hx]%elem_of_union; [|by apply Hsound].
          eapply rtc_r; [|done]. apply Hsound, Hqueue. by left.
        - intros x [->|[Hx | ->%list_elem_of_singleton]%elem_of_app]%elem_of_cons.
          + apply elem_of_union. right. apply Hqueue. by left.
          + apply elem_of_union. right. apply Hqueue. by right.
          + set_solver.
        - intros x y [->%elem_of_singleton|Hx]%elem_of_union Hnq Hxy.
          + exfalso. apply Hnq. right. apply elem_of_app. right. by left.
          + apply elem_of_union. right. apply (Hclosed x y); [done| |done].
            intros [->|Hq]%elem_of_cons; apply Hnq; [by left|].
            right. apply elem_of_app. by left. }
      specialize (IH _ _ _ Hrest Hinv').
      destruct (visit_outgoing todo current ({[t]} ∪ visited) ({[t]} ∪ reachable)
                  (queue ++ [t])) as [[visited' reachable'] queue'].
      destruct IH as (Hinv'' & Hsub & Hall & Hmeasure).
      split; [done|]. split; [set_solver|]. split.
      * intros r [->|Hr]%elem_of_cons Hr_from; [|by apply Hall].
        apply Hsub. set_solver.
      * rewrite Hmeasure, length_app. cbn.
        pose proof (unvisited_targets_visit rails visited t
                      ltac:(by exists current) Hnew). lia.
    + specialize (IH _ _ _ Hrest Hinv).
      destruct (visit_outgoing todo current visited reachable queue)
        as [[visited' reachable'] queue'].
      destruct IH as (Hinv'' & Hsub & Hall & Hmeasure).
      split; [done|]. split; [done|]. split; [|done].
      intros r [->|Hr]%elem_of_cons Hr_from; [|by apply Hall].
      apply Hsub. destruct (decide (Rail.to_system rail ∈ visited)); [done|].
      exfalso. by apply Hskip.
Qed.

Lemma reach_loop_spec (fuel : nat) (visited reachable : gset string)
    (queue : list string) :
  reach_inv rails s visited reachable queue ->
  (List.length queue + size (unvisited_targets rails visited) < fuel)%nat ->
  exists found : gset string,
    reach_loop fuel rails visited reachable queue = Done found /\
    forall t, t ∈ found <-> t ≠ s /\ rtc (has_rail rails) s t.
Proof.
  revert visited reachable queue.
  induction fuel as [|fuel IH]; intros visited reachable queue Hinv Hfuel; [lia|].
  cbn [reach_loop]. destruct queue as [|current queue].
  - exists reachable. split; [done|].
    destruct Hinv as [Hv Hs Hsound Hqueue Hclosed]. intros t. split.
    + intros Ht. split; [by intros ->|]. apply Hsound. rewrite Hv. set_solver.
    + intros [Hne Hreach].
      assert (Hin : t ∈ visited).
      { assert (Hs_in : s ∈ visited) by (rewrite Hv; set_solver).
        assert (Hclosure : forall a b, rtc (has_rail rails) a b ->
                                       a ∈ visited -> b ∈ visited).
        { induction 1 as [x|x y z Hxy _ IHr]; [done|].
          intros Hx. apply IHr. apply (Hclosed x y); [done| |done].
          by intros ?%elem_of_nil. }
        by apply (Hclosure s t). }
      rewrite Hv in Hin. set_solver.
  - pose proof (visit_outgoing_spec rails current visited reachable queue
                  ltac:(done) Hinv) as Hscan.
    destruct (visit_outgoing rails current visited reachable queue)
      as [[visited' reachable'] queue'].
    destruct Hscan as (Hinv' & Hsub & Hall & Hmeasure).
    apply IH.
    + destruct Hinv' as [Hv Hs Hsound Hqueue Hclosed]. split; try done.
      * intros x Hx. apply Hqueue. by right.
      * intros x y Hx Hnq Hxy. destruct (decide (x = current)) as [->|Hne].
        -- destruct Hxy as (r & Hr & <- & <-). by apply Hall.
        -- apply (Hclosed x y); [done| |done]. by intros [?|?]%elem_of_cons.
    + cbn in Hfuel. lia.
Qed.

End Reach.

Lemma connectivity_loop_spec (fuel : nat) (rails : list Rail.t)
    (system_ids : list string) (connectivity : PyDict.t Z) :
  (S (List.length rails) < fuel)%nat ->
  exists connectivity',
    connectivity_loop fuel rails system_ids connectivity = Done connectivity' /\
    forall s,
      if decide (s ∈ system_ids) then
        exists found : gset string,
          PyDict.get connectivity' s = Some (Z.of_nat (size found)) /\
          forall t, t ∈ found <-> t ≠ s /\ rtc (has_rail rails) s t
      else PyDict.get connectivity' s = PyDict.get connectivity s.
Proof.
  intros Hfuel. revert connectivity.
  induction system_ids as [|s0 system_ids IH]; intros connectivity.
  - exists connectivity. split; [done|]. intros s.
    by rewrite decide_False by (by intros ?%elem_of_nil).
  - cbn [connectivity_loop].
    destruct (reach_loop_spec rails s0 fuel {[s0]} ∅ [s0]) as (found & -> & Hfound).
    { split; [set_solver|set_solver| | |].
      - by intros x ->%elem_of_singleton.
      - intros x ->%list_elem_of_singleton. set_solver.
      - intros x y ->%elem_of_singleton Hnq. exfalso. apply Hnq. by left. }
    { cbn.
      assert (size (unvisited_targets rails {[s0]}) <= List.length rails)%nat; [|lia].
      unfold unvisited_targets.
      etrans; [apply (subseteq_size _ (list_to_set (map Rail.to_system rails)));
               set_solver|].
      etrans; [apply size_list_to_set_le|]. by rewrite length_map. }
    cbn.
    destruct (IH (PyDict.set connectivity s0 (Z.of_nat (size found))))
      as (connectivity' & -> & Hget).
    exists connectivity'. split; [done|]. intros s. specialize (Hget s).
    destruct (decide (s ∈ system_ids)) as [Hin|Hnin].
    + by rewrite decide_True by (by right).
    + rewrite PyDict_get_set in Hget. destruct (decide (s0 = s)) as [->|Hne].
      * rewrite decide_True by (by left). by exists found.
      * rewrite decide_False; [done|]. by intros [->|?]%elem_of_cons.
Qed.

(** X23. [calculate_network_connectivity] returns a dictionary that holds,
    for every system of the galaxy and for nothing else, the number of
    systems other than itself that can be reached from it along the rails;
    the search it runs from each system is over within [1 + len(rails)]
    passes of its loop. *)
Theorem calculate_network_connectivity_counts (fuel : nat) (galaxy : Galaxy.t) :
  (S (List.length (Galaxy.rails galaxy)) < fuel)%nat ->
  exists connectivity,
    calculate_network_connectivity fuel galaxy = Done connectivity /\
    forall s,
      match PyDict.get connectivity s with
      | Some n =>
          s ∈ PyDict.keys (Galaxy.systems galaxy) /\
          exists found : gset string,
            n = Z.of_nat (size found) /\
            forall t, t ∈ found <->
              t ≠ s /\ rtc (has_rail (PyDict.values (Galaxy.rails galaxy))) s t
      | None => s ∉ PyDict.keys (Galaxy.systems galaxy)
      end.
Proof.
  intros Hfuel. unfold calculate_network_connectivity.
  destruct (connectivity_loop_spec fuel (PyDict.values (Galaxy.rails galaxy))
              (PyDict.keys (Galaxy.systems galaxy)) [])
    as (connectivity & -> & Hget).
  { unfold PyDict.values. by rewrite length_map. }
  exists connectivity. split; [done|]. intros s. specialize (Hget s).
  destruct (decide (s ∈ PyDict.keys (Galaxy.systems galaxy))) as [Hin|Hnin].
  - destruct Hget as (found & -> & Hfound). split; [done|]. by exists found.
  - by rewrite Hget.
Qed.

Lemma calculate_network_connectivity_counts_witness :
  exists connectivity,
    calculate_network_connectivity 5 over_budget_galaxy = Done connectivity /\
    forall s,
      match PyDict.get connectivity s with
      | Some n =>
          s ∈ PyDict.keys (Galaxy.systems over_budget_galaxy) /\
          exists found : gset string,
            n = Z.of_nat (size found) /\
            forall t, t ∈ found <->
              t ≠ s /\
              rtc (has_rail (PyDict.values (Galaxy.rails over_budget_galaxy))) s t
      | None => s ∉ PyDict.keys (Galaxy.systems over_budget_galaxy)
      end.
Proof.
  apply (calculate_network_connectivity_counts 5 over_budget_galaxy). cbn. lia.
Defined.

(** ** Cheapest edges *)

Lemma place_compare_lt_trans (p q r : Z * Z * Z) :
  place_compare p q = Lt -> place_compare q r = Lt -> place_compare p r = Lt.
Proof.
  destruct p as [[p1 p2] p3], q as [[q1 q2] q3], r as [[r1 r2] r3].
  unfold place_compare. cbn.
  destruct (Z.compare_spec p1 q1), (Z.compare_spec q1 r1), (Z.compare_spec p1 r1);
    try lia; try done;
    destruct (Z.compare_spec p2 q2), (Z.compare_spec q2 r2), (Z.compare_spec p2 r2);
    try lia; try done;
    destruct (Z.compare_spec p3 q3), (Z.compare_spec q3 r3), (Z.compare_spec p3 r3);
    try lia; done.
Qed.

Lemma float_ltb_trans (x y z : float) :
  PrimFloat.ltb x y = true -> PrimFloat.ltb y z = true -> PrimFloat.ltb x z = true.
Proof.
  rewrite !ltb_place.
  intros (p & q & Hp & Hq & Hpq) (q' & r & Hq' & Hr & Hqr).
  rewrite Hq in Hq'. injection Hq' as <-.
  exists p, r. repeat split; try done. by eapply place_compare_lt_trans.
Qed.

Lemma float_ltb_irrefl (x : float) : PrimFloat.ltb x x = false.
Proof.
  destruct (PrimFloat.ltb x x) eqn:Hlt; [|done].
  apply ltb_place in Hlt as (p & q & Hp & Hq & Hpq).
  rewrite Hp in Hq. injection Hq as <-.
  destruct p as [[p1 p2] p3]. unfold place_compare in Hpq. cbn in Hpq.
  by rewrite !Z.compare_refl in Hpq.
Qed.

Section Greedy.
Context `{PyRuntime}.

Lemma better_edge_cheapest (galaxy : Galaxy.t) (scanned : string -> string -> Prop)
    (from_id to_id : string) (cost : float) (best : option RailGenerator.edge) :
  candidate_cost galaxy from_id to_id = Done cost ->
  cheapest galaxy scanned best ->
  cheapest galaxy (fun f t => scanned f t \/ (f = from_id /\ t = to_id))
    (RailGenerator.better_edge from_id to_id cost best).
Proof.
  intros Hcost Hbest. unfold RailGenerator.better_edge.
  destruct best as [[[f0 t0] c0]|]; cbn in Hbest.
  - destruct Hbest as (Hc0 & Hfinite & Hmin).
    destruct (PrimFloat.ltb cost c0) eqn:Hlt; cbn.
    + split; [done|]. split; [by eapply float_ltb_trans|].
      intros f t c [Hold|[-> ->]] Hc.
      * destruct (PrimFloat.ltb c cost) eqn:Hc_lt; [|done].
        rewrite <- (Hmin f t c Hold Hc). symmetry. by eapply float_ltb_trans.
      * rewrite Hcost in Hc. injection Hc as <-. apply float_ltb_irrefl.
    + split; [done|]. split; [done|].
      intros f t c [Hold|[-> ->]] Hc; [by eapply Hmin|].
      rewrite Hcost in Hc. by injection Hc as <-.
  - destruct (PrimFloat.ltb cost infinity) eqn:Hlt; cbn.
    + split; [done|]. split; [done|].
      intros f t c [Hold|[-> ->]] Hc.
      * destruct (PrimFloat.ltb c cost) eqn:Hc_lt; [|done].
        rewrite <- (Hbest f t c Hold Hc). symmetry. by eapply float_ltb_trans.
      * rewrite Hcost in Hc. injection Hc as <-. apply float_ltb_irrefl.
    + intros f t c [Hold|[-> ->]] Hc; [by eapply Hbest|].
      rewrite Hcost in Hc. by injection Hc as <-.
Qed.

Lemma cheapest_ext (galaxy : Galaxy.t) (scanned scanned' : string -> string -> Prop)
    (best : option RailGenerator.edge) :
  (forall f t, scanned' f t -> scanned f t) ->
  cheapest galaxy scanned best -> cheapest galaxy scanned' best.
Proof.
  intros Hsub. destruct best as [[[f0 t0] c0]|]; cbn.
  - intros (Hc0 & Hfinite & Hmin). split; [done|]. split; [done|].
    intros f t c Hs. by apply Hmin, Hsub.
  - intros Hmin f t c Hs. by apply Hmin, Hsub.
Qed.

Lemma scan_targets_cheapest (galaxy : Galaxy.t) (in_tree : list string)
    (from_id : string) (from_system : System.t) (targets : list string)
    (scanned : string -> string -> Prop) (best r : option RailGenerator.edge) :
  RailGenerator.system_of galaxy from_id = Done from_system ->
  cheapest galaxy scanned best ->
  RailGenerator.scan_targets galaxy in_tree from_id from_system targets best = Done r ->
  cheapest galaxy
    (fun f t => scanned f t \/ (f = from_id /\ t ∈ targets /\ t ∉ in_tree)) r.
Proof.
  intros Hfrom. revert scanned best.
  induction targets as [|to_id targets IH]; intros scanned best Hbest.
  - intros [= <-]. eapply cheapest_ext; [|done].
    intros f t [?|(_ & ?%elem_of_nil & _)]; done.
  - cbn [RailGenerator.scan_targets]. case_decide as Hto.
    + intros Hrun. eapply cheapest_ext; [|by eapply IH].
      intros f t [?|(-> & [->|?]%elem_of_cons & ?)]; [by left|done|].
      right. done.
    + destruct (RailGenerator.system_of galaxy to_id) as [to_system| |] eqn:Hto_sys;
        [|done..]. cbn.
      destruct (RailGenerator.estimate_rail_capacity _ _) as [capacity| |] eqn:Hcap;
        [|done..]. cbn.
      intros Hrun. eapply cheapest_ext; [|eapply IH; [|done]].
      2:{ apply better_edge_cheapest; [|done].
          unfold candidate_cost. rewrite Hfrom. cbn. rewrite Hto_sys. cbn.
          by rewrite Hcap. }
      cbn. intros f t [?|(-> & [->|?]%elem_of_cons & ?)].
      * left. by left.
      * left. by right.
      * right. done.
Qed.

Lemma scan_tree_cheapest (galaxy : Galaxy.t) (in_tree all_systems sources : list string)
    (scanned : string -> string -> Prop) (best r : option RailGenerator.edge) :
  cheapest galaxy scanned best ->
  RailGenerator.scan_tree galaxy in_tree all_systems sources best = Done r ->
  cheapest galaxy
    (fun f t => scanned f t \/ (f ∈ sources /\ t ∈ all_systems /\ t ∉ in_tree)) r.
Proof.
  revert scanned best.
  induction sources as [|from_id sources IH]; intros scanned best Hbest.
  - intros [= <-]. eapply cheapest_ext; [|done].
    intros f t [?|(?%elem_of_nil & _)]; done.
  - cbn [RailGenerator.scan_tree].
    destruct (RailGenerator.system_of galaxy from_id) as [from_system| |] eqn:Hfrom;
      [|done..]. cbn.
    destruct (RailGenerator.scan_targets galaxy in_tree from_id from_system all_systems best)
      as [best'| |] eqn:Hscan; [|done..]. cbn.
    intros Hrun. eapply cheapest_ext; [|eapply IH; [|done]].
    2:{ by eapply scan_targets_cheapest. }
    cbn. intros f t [?|([->|?]%elem_of_cons & ? & ?)].
    + left. by left.
    + left. right. done.
    + right. done.
Qed.

Lemma grow_tree_greedy (fuel : nat) (galaxy : Galaxy.t)
    (all_systems sources : list string) (edges r : list RailGenerator.edge) :
  greedy_in_order galaxy sources all_systems edges ->
  RailGenerator.grow_tree fuel galaxy all_systems
    (sources ++ map (fun e : string * string * float => e.1.2) edges) edges = Done r ->
  greedy_in_order galaxy sources all_systems r.
Proof.
  revert edges. induction fuel as [|fuel IH]; intros edges Hedges; [done|].
  cbn [RailGenerator.grow_tree]. destruct (_ <? _)%nat; [|by intros [= <-]].
  set (in_tree := sources ++ map (fun e : string * string * float => e.1.2) edges).
  destruct (RailGenerator.scan_tree galaxy in_tree all_systems (set_iter in_tree) None)
    as [best| |] eqn:Hscan; [|done..]. cbn.
  apply (scan_tree_cheapest _ _ _ _ (fun _ _ => False)) in Hscan;
    [|by intros f t c []].
  destruct best as [[[from_id to_id] cost]|]; [|by intros [= <-]].
  destruct Hscan as (Hcost & _ & Hmin).
  replace (in_tree ++ [to_id])
    with (sources ++ map (fun e : string * string * float => e.1.2)
                         (edges ++ [(from_id, to_id, cost)]))
    by (unfold in_tree; by rewrite map_app, app_assoc).
  apply IH. intros i f t c Hi.
  destruct (decide (i < List.length edges)%nat) as [Hlt|Hge].
  - rewrite lookup_app_l in Hi by done.
    rewrite take_app_le by (by apply Nat.lt_le_incl).
    exact (Hedges i f t c Hi).
  - apply lookup_lt_Some in Hi as Hlen. rewrite length_app in Hlen. cbn in Hlen.
    assert (i = List.length edges) as -> by lia.
    rewrite list_lookup_middle in Hi by done. injection Hi as <- <- <-.
    rewrite take_app_length. cbn zeta. fold in_tree. split; [done|].
    intros f t c Hf Ht Hnt Hc. apply (Hmin f t c); [|done]. right.
    split; [|done]. by rewrite set_iter_perm, elem_of_remove_dups.
Qed.

End Greedy.

(** X24. Each edge that [build_minimum_spanning_tree] returns is a cheapest
    one at the time it is chosen: it is priced by [calculate_rail_cost] for
    the class that the estimated capacity gives, and no edge from the tree
    built so far (the sources and the targets of the earlier edges) to a
    system of the galaxy outside it is strictly cheaper. *)
Theorem build_minimum_spanning_tree_greedy `{PyRuntime} (galaxy : Galaxy.t)
    (source_systems : list string) (edges : list RailGenerator.edge) :
  RailGenerator.build_minimum_spanning_tree galaxy source_systems = Done edges ->
  greedy_in_order galaxy source_systems (PyDict.keys (Galaxy.systems galaxy)) edges.
Proof.
  unfold RailGenerator.build_minimum_spanning_tree.
  destruct source_systems as [|s sources].
  - intros [= <-] i f t c Hi. by rewrite lookup_nil in Hi.
  - intros Hgrow.
    apply (grow_tree_greedy (S (List.length (PyDict.keys (Galaxy.systems galaxy))))
             galaxy _ (s :: sources) [] edges);
      [|cbn [map]; by rewrite app_nil_r].
    intros i f t c Hi. by rewrite lookup_nil in Hi.
Qed.

(** ** Redundant connections, edge by edge *)

Lemma float_leb_not_ltb (x y : float) :
  PrimFloat.leb x y = true -> PrimFloat.ltb y x = false.
Proof.
  intros (p & q & Hp & Hq & Hpq)%leb_place.
  destruct (PrimFloat.ltb y x) eqn:Hlt; [|done].
  apply ltb_place in Hlt as (q' & p' & Hq' & Hp' & Hqp).
  rewrite Hq in Hq'. rewrite Hp in Hp'. injection Hq' as <-. injection Hp' as <-.
  rewrite place_compare_antisym, Hqp in Hpq. done.
Qed.

Lemma float_ltb_not_nan (x y : float) :
  PrimFloat.ltb x y = true -> PrimFloat.leb x x = true.
Proof.
  intros (p & q & Hp & Hq & Hpq)%ltb_place. apply leb_place. exists p, p.
  repeat split; try done. destruct p as [[p1 p2] p3]. unfold place_compare. cbn.
  by rewrite !Z.compare_refl.
Qed.

Lemma insert_sorted_ascending {A : Type} (key : A -> float) (x : A) (l : list A) :
  PrimFloat.leb (key x) (key x) = true ->
  (forall y, y ∈ l -> PrimFloat.leb (key y) (key y) = true) ->
  StronglySorted (fun a b => PrimFloat.leb (key a) (key b) = true) l ->
  StronglySorted (fun a b => PrimFloat.leb (key a) (key b) = true)
    (insert_sorted (fun a b => PrimFloat.ltb (key a) (key b)) x l).
Proof.
  intros Hx. induction l as [|y l IH]; simpl; intros Hl Hsorted.
  - constructor; [constructor|constructor].
  - apply StronglySorted_inv in Hsorted as [Hsorted Hall].
    rewrite List.Forall_forall in Hall.
    destruct (PrimFloat.ltb (key y) (key x)) eqn:Hlt.
    + constructor.
      * apply IH; [|done]. intros z Hz. apply Hl. by right.
      * apply List.Forall_forall. intros z Hz%list_elem_of_In.
        rewrite insert_sorted_perm in Hz.
        apply elem_of_cons in Hz as [->|Hz]; [by apply float_ltb_leb|].
        apply Hall. by apply list_elem_of_In.
    + assert (Hxy : PrimFloat.leb (key x) (key y) = true).
      { apply float_leb_total; [apply Hl; by left|done|done]. }
      constructor; [by constructor; [|apply List.Forall_forall]|].
      constructor; [done|].
      apply List.Forall_forall. intros z Hz.
      eapply float_leb_trans; [done|by apply Hall].
Qed.

Lemma stable_sort_ascending {A : Type} (key : A -> float) (l : list A) :
  (forall y, y ∈ l -> PrimFloat.leb (key y) (key y) = true) ->
  StronglySorted (fun a b => PrimFloat.leb (key a) (key b) = true)
    (stable_sort (fun a b => PrimFloat.ltb (key a) (key b)) l).
Proof.
  induction l as [|x l IH]; simpl; intros Hl; [constructor|].
  apply insert_sorted_ascending.
  - apply Hl. by left.
  - intros y Hy. rewrite stable_sort_perm in Hy. apply Hl. by right.
  - apply IH. intros y Hy. apply Hl. by right.
Qed.

Lemma count_connection_get (connection_count : PyDict.t Z) (k s : string) :
  PyDict.get (RailGenerator.count_connection connection_count k) s
  = if decide (k = s)
    then Some (default 0 (PyDict.get connection_count s) + 1)
    else PyDict.get connection_count s.
Proof.
  unfold RailGenerator.count_connection. rewrite PyDict_get_set.
  by destruct (decide (k = s)) as [->|].
Qed.

Lemma count_connections_get (mst_edges : list RailGenerator.edge)
    (connection_count : PyDict.t Z) (s : string) :
  (forall n, PyDict.get connection_count s = Some n -> 0 < n) ->
  let counted :=
    foldl (fun connection_count (e : RailGenerator.edge) =>
             let '(from_id, to_id, _) := e in
             RailGenerator.count_connection
               (RailGenerator.count_connection connection_count from_id) to_id)
          connection_count mst_edges in
  default 0 (PyDict.get counted s)
  = default 0 (PyDict.get connection_count s) + connections mst_edges s /\
  forall n, PyDict.get counted s = Some n -> 0 < n.
Proof.
  revert connection_count.
  induction mst_edges as [|[[f t] c] mst_edges IH]; intros connection_count Hpos.
  - cbn. split; [unfold connections; cbn; lia|done].
  - cbn zeta. cbn [foldl].
    set (step := RailGenerator.count_connection
                   (RailGenerator.count_connection connection_count f) t).
    assert (Hstep : default 0 (PyDict.get step s)
                    = default 0 (PyDict.get connection_count s)
                      + (if decide (f = s) then 1 else 0)
                      + (if decide (t = s) then 1 else 0) /\
                    forall n, PyDict.get step s = Some n -> 0 < n).
    { unfold step. rewrite !count_connection_get.
      destruct (PyDict.get connection_count s) as [n|] eqn:Hn.
      - specialize (Hpos n eq_refl).
        destruct (decide (t = s)), (decide (f = s)); cbn; (split; [lia|]);
          intros m [= <-]; lia.
      - destruct (decide (t = s)), (decide (f = s)); cbn; (split; [lia|]);
          intros m [= <-]; lia. }
    destruct Hstep as [Hvalue Hpos'].
    destruct (IH step Hpos') as [IHvalue IHpos]. split; [|done].
    rewrite IHvalue, Hvalue. unfold connections. rewrite !filter_cons. cbn.
    destruct (decide (f = s)), (decide (t = s)); cbn; lia.
Qed.

Section Bottlenecks.
Context `{PyRuntime}.

Lemma nearby_systems_of_elem (galaxy : Galaxy.t) (mst_edges : list RailGenerator.edge)
    (bottleneck_id : string) (bottleneck_system : System.t) (other_id : string)
    (distance : float) :
  (other_id, distance)
    ∈ RailGenerator.nearby_systems_of galaxy mst_edges bottleneck_id bottleneck_system <->
  exists other_system,
    (other_id, other_system) ∈ Galaxy.systems galaxy /\
    other_id ≠ bottleneck_id /\
    distance = Coordinate.distance_to (System.coord bottleneck_system)
                 (System.coord other_system) /\
    PrimFloat.ltb distance 50 = true /\
    RailGenerator.already_connected mst_edges bottleneck_id other_id = false.
Proof.
  unfold RailGenerator.nearby_systems_of.
  rewrite list_elem_of_In, in_flat_map. split.
  - intros ([id system] & Hitem%list_elem_of_In & Hin).
    case_decide; [done|].
    destruct (PrimFloat.ltb _ _) eqn:Hnear; [|done].
    destruct (RailGenerator.already_connected _ _ _) eqn:Hconn; [done|].
    destruct Hin as [[= <- <-]|[]]. by exists system.
  - intros (other_system & Hitem & Hne & -> & Hnear & Hconn).
    exists (other_id, other_system). split; [by apply list_elem_of_In|].
    rewrite decide_False by done. rewrite Hnear, Hconn. by left.
Qed.

Lemma connect_bottlenecks_closest (galaxy : Galaxy.t)
    (mst_edges : list RailGenerator.edge) (redundancy_factor : float)
    (bottlenecks : list string) (self self' : RailGenerator.t)
    (additional_edges r : list RailGenerator.edge) :
  RailGenerator.connect_bottlenecks galaxy mst_edges redundancy_factor bottlenecks
    self additional_edges = Done (r, self') ->
  exists new_edges,
    r = additional_edges ++ new_edges /\
    map (fun e : RailGenerator.edge => e.1.1) new_edges `sublist_of` bottlenecks /\
    forall b t c, (b, t, c) ∈ new_edges -> closest_unconnected galaxy mst_edges b t c.
Proof.
  revert self additional_edges.
  induction bottlenecks as [|bottleneck_id bottlenecks IH]; intros self edges.
  - intros [= <- _]. exists []. rewrite app_nil_r. split; [done|]. split; [done|].
    intros b t c Hin. by apply elem_of_nil in Hin.
  - cbn [RailGenerator.connect_bottlenecks].
    assert (Hskip : forall self0,
              RailGenerator.connect_bottlenecks galaxy mst_edges redundancy_factor
                bottlenecks self0 edges = Done (r, self') ->
              exists new_edges,
                r = edges ++ new_edges /\
                map (fun e : RailGenerator.edge => e.1.1) new_edges
                  `sublist_of` bottleneck_id :: bottlenecks /\
                forall b t c, (b, t, c) ∈ new_edges ->
                  closest_unconnected galaxy mst_edges b t c).
    { intros self0 Hrun. destruct (IH _ _ Hrun) as (new_edges & -> & Hsub & Hnew).
      exists new_edges. split; [done|]. split; [by apply sublist_cons|exact Hnew]. }
    destruct (Random_random _) as [draw rng'].
    destruct (PrimFloat.ltb draw _); [|by apply Hskip].
    destruct (RailGenerator.system_of galaxy bottleneck_id)
      as [bottleneck_system| |] eqn:Hb_sys; [|done..]. cbn.
    assert (Hb : PyDict.get (Galaxy.systems galaxy) bottleneck_id
                 = Some bottleneck_system).
    { unfold RailGenerator.system_of in Hb_sys.
      destruct (PyDict.get _ _); by simplify_eq. }
    set (nearby := RailGenerator.nearby_systems_of galaxy mst_edges bottleneck_id
                     bottleneck_system).
    assert (Hsorted : StronglySorted
                        (fun a b : string * float => PrimFloat.leb a.2 b.2 = true)
                        (stable_sort (fun a b : string * float => PrimFloat.ltb a.2 b.2)
                           nearby)).
    { apply (stable_sort_ascending (fun a : string * float => a.2)).
      intros [o d] (so & _ & _ & _ & Hnear & _)%nearby_systems_of_elem.
      by eapply float_ltb_not_nan. }
    pose proof (stable_sort_perm (fun a b : string * float => PrimFloat.ltb a.2 b.2)
                  nearby) as Hperm.
    destruct (stable_sort _ nearby) as [|[target_id distance] rest] eqn:Hsort;
      [by apply Hskip|].
    destruct (RailGenerator.system_of galaxy target_id) as [target_system| |] eqn:Ht;
      [|done..]. cbn.
    destruct (RailGenerator.estimate_rail_capacity _ _) as [capacity| |] eqn:Hcap;
      [|done..]. cbn.
    intros Hrun. destruct (IH _ _ Hrun) as (new_edges & -> & Hsub & Hnew).
    eexists (_ :: new_edges). split; [by rewrite <- app_assoc|].
    split; [cbn; by apply sublist_skip|].
    intros b t c [[= -> -> ->]|He]%elem_of_cons; [|by apply Hnew].
    assert (Hhead : (target_id, distance) ∈ nearby) by (rewrite <- Hperm; by left).
    apply nearby_systems_of_elem in Hhead as (ts & Hts & Hne & -> & Hnear & Hconn).
    split.
    { unfold candidate_cost. rewrite Hb_sys. cbn. rewrite Ht. cbn. by rewrite Hcap. }
    exists bottleneck_system, ts. do 5 (split; [done|]).
    intros o so Ho Hone Hoconn.
    set (d_o := Coordinate.distance_to (System.coord bottleneck_system) (System.coord so)).
    set (d_t := Coordinate.distance_to (System.coord bottleneck_system) (System.coord ts))
      in *.
    destruct (PrimFloat.ltb d_o 50) eqn:Ho_near.
    + assert (Hin : (o, d_o) ∈ (target_id, d_t) :: rest).
      { rewrite Hperm. apply nearby_systems_of_elem. by exists so. }
      apply elem_of_cons in Hin as [[= -> Heq]|Hin].
      * rewrite Heq. apply float_ltb_irrefl.
      * apply StronglySorted_inv in Hsorted as [_ Hall].
        rewrite List.Forall_forall in Hall.
        apply float_leb_not_ltb. by apply (Hall (o, d_o)), list_elem_of_In.
    + destruct (PrimFloat.ltb d_o d_t) eqn:Hlt; [|done].
      rewrite <- Ho_near. symmetry. by eapply float_ltb_trans.
Qed.

End Bottlenecks.

(** X25. [add_redundancy_connections] proposes at most one edge for each
    system at which exactly one end of an edge of the tree lies.  Such an
    edge leaves that system for another system of the galaxy less than 50
    light-years away that no edge of the tree joins to it in either
    direction, and no other such system is strictly closer; it is priced as
    the edges of the tree are. *)
Theorem add_redundancy_connections_closest `{PyRuntime} (self self' : RailGenerator.t)
    (galaxy : Galaxy.t) (mst_edges edges : list RailGenerator.edge)
    (redundancy_factor : float) :
  RailGenerator.add_redundancy_connections self galaxy mst_edges redundancy_factor
    = Done (edges, self') ->
  NoDup (map (fun e : RailGenerator.edge => e.1.1) edges) /\
  forall b t c, (b, t, c) ∈ edges ->
    connections mst_edges b = 1 /\
    closest_unconnected galaxy mst_edges b t c.
Proof.
  unfold RailGenerator.add_redundancy_connections.
  match goal with
  | |- context [foldl ?f [] mst_edges] => set (counted := foldl f [] mst_edges)
  end.
  set (bottlenecks := map fst (filter (fun item : string * Z => item.2 = 1) counted)).
  intros (new_edges & -> & Hsub & Hnew)%connect_bottlenecks_closest. cbn.
  assert (Hnodup : NoDup (PyDict.keys counted))
    by (apply count_connections_NoDup; constructor).
  split.
  - eapply sublist_NoDup; [|exact Hsub]. by apply NoDup_keys_filter.
  - intros b t c Hin. split; [|by apply Hnew].
    assert (Hb : b ∈ bottlenecks).
    { apply (sublist_subseteq _ _ Hsub).
      apply list_elem_of_fmap. by exists (b, t, c). }
    apply list_elem_of_fmap in Hb as ([b' n] & -> & [Hone Hitem]%list_elem_of_filter).
    cbn in *. subst n. apply PyDict_get_elem in Hitem; [|done].
    destruct (count_connections_get mst_edges [] b' ltac:(done)) as [Hvalue _].
    fold counted in Hvalue. rewrite Hitem in Hvalue. cbn in Hvalue. lia.
Qed.

(** ** Routes without detours *)

Lemma get_route_minimal (galaxy : Galaxy.t) (from_system to_system : string)
    (route : list string) :
  Galaxy.get_route galaxy from_system to_system = Some route ->
  forall w, is_route (PyDict.values (Galaxy.rails galaxy)) from_system to_system w ->
            (List.length route <= List.length w)%nat.
Proof.
  unfold Galaxy.get_route. destruct (decide _) as [<-|Hne].
  { intros [= <-] w (Hhead & _). destruct w; [done|]. cbn. lia. }
  destruct (bfs_loop_spec (PyDict.values (Galaxy.rails galaxy)) from_system to_system
              (Galaxy.get_route_fuel galaxy) {[from_system]}
              [(from_system, [from_system])]) as (answer & -> & Hanswer);
    [by apply bfs_inv_start| |].
  - unfold Galaxy.get_route_fuel, unvisited_targets, PyDict.values. simpl.
    assert (size ((list_to_set (map Rail.to_system (map snd (Galaxy.rails galaxy)))
                     : gset string) ∖ {[from_system]})
            <= size (list_to_set (map Rail.to_system (map snd (Galaxy.rails galaxy)))
                       : gset string))%nat
      by (apply subseteq_size; set_solver).
    pose proof (size_list_to_set_le
                  (map Rail.to_system (map snd (Galaxy.rails galaxy)))) as Hle.
    rewrite !length_map in Hle. lia.
  - intros ->. by destruct Hanswer.
Qed.

Lemma is_walk_prefix (rails : list Rail.t) (w1 w2 : list string) (x : string) :
  is_walk rails (w1 ++ x :: w2) -> is_walk rails (w1 ++ [x]).
Proof.
  induction w1 as [|a w1 IH]; [done|]. cbn [app is_walk].
  intros [Hhop Hrest]. split; [|by apply IH].
  by destruct w1.
Qed.

Lemma is_walk_join (rails : list Rail.t) (w1 w2 : list string) (x : string) :
  is_walk rails (w1 ++ [x]) -> is_walk rails (x :: w2) -> is_walk rails (w1 ++ x :: w2).
Proof.
  induction w1 as [|a w1 IH]; [done|]. cbn [app is_walk].
  intros [Hhop Hrest] Htail. split; [|by apply IH].
  by destruct w1.
Qed.

Lemma last_middle (l1 l2 : list string) (x : string) :
  last (l1 ++ x :: l2) = last (x :: l2).
Proof.
  induction l1 as [|a l1 IH]; [done|]. cbn [app]. rewrite <- IH. by destruct l1.
Qed.

Lemma is_route_cut (rails : list Rail.t) (a b x : string) (w1 w2 w3 : list string) :
  is_route rails a b (w1 ++ x :: w2 ++ x :: w3) -> is_route rails a b (w1 ++ x :: w3).
Proof.
  intros (Hhead & Hlast & Hwalk). split; [|split].
  - by destruct w1.
  - rewrite last_middle in Hlast |- *.
    change (x :: w2 ++ x :: w3) with ((x :: w2) ++ x :: w3) in Hlast.
    by rewrite last_middle in Hlast.
  - apply is_walk_join; [by eapply is_walk_prefix|].
    apply is_walk_app_r in Hwalk.
    change (x :: w2 ++ x :: w3) with ((x :: w2) ++ x :: w3) in Hwalk.
    by apply is_walk_app_r in Hwalk.
Qed.

Lemma NoDup_no_repeat (l : list string) :
  (forall w1 x w2 w3, l ≠ w1 ++ x :: w2 ++ x :: w3) -> NoDup l.
Proof.
  induction l as [|a l IH]; intros Hno; [constructor|].
  apply NoDup_cons. split.
  - intros (w2 & w3 & ->)%list_elem_of_split. by apply (Hno [] a w2 w3).
  - apply IH. intros w1 x w2 w3 ->. by apply (Hno (a :: w1) x w2 w3).
Qed.

(** X26. A route that [get_route] returns visits no system twice. *)
Theorem get_route_simple (galaxy : Galaxy.t) (from_system to_system : string) :
  match Galaxy.get_route galaxy from_system to_system with
  | Some route => NoDup route
  | None => True
  end.
Proof.
  destruct (Galaxy.get_route galaxy from_system to_system) as [route|] eqn:Hroute;
    [|done].
  apply NoDup_no_repeat. intros w1 x w2 w3 ->.
  pose proof (get_route_is_route _ _ _ _ Hroute) as Hr.
  apply is_route_cut in Hr.
  pose proof (get_route_minimal _ _ _ _ Hroute _ Hr) as Hlen.
  rewrite !length_app in Hlen. cbn in Hlen. rewrite length_app in Hlen. cbn in Hlen. lia.
Qed.

(** ** What the cycle check accepts *)

(** X27. Given a recursion depth above the number of systems on the rails,
    [validate_no_cycles] returns, and answers [True] exactly when no two
    distinct systems can reach each other.  A rail from a system to itself
    is therefore not seen: rails with such a rail and no other cycle are
    accepted. *)
Theorem validate_no_cycles_decides `{PyRuntime} (fuel : nat) (rails : list Rail.t) :
  (size (rail_systems rails) < fuel)%nat ->
  exists acyclic : bool,
    RailGenerator.validate_no_cycles fuel rails = Done acyclic /\
    (acyclic = true <-> loop_free rails) /\
    (acyclic = true -> no_self_rail rails -> ~ has_cycle rails) /\
    (acyclic = false -> has_cycle rails).
Proof.
  intros Hfuel. unfold RailGenerator.validate_no_cycles.
  destruct (detect_loops_spec fuel rails Hfuel) as (loops & Hrun & _).
  rewrite Hrun. cbn. eexists. split; [done|].
  pose proof (detect_loops_done _ _ _ Hrun) as Hdone.
  rewrite bool_decide_eq_true, bool_decide_eq_false.
  assert (Hnil : List.length loops = 0%nat <-> loops = [])
    by (split; [apply nil_length_inv|by intros ->]).
  split; [|split].
  - by rewrite Hnil.
  - intros Hzero Hself. apply loop_free_acyclic; [|done]. by apply Hdone, Hnil.
  - intros Hsome. eapply detect_loops_cycle; [done|]. intros ->. by apply Hsome.
Qed.

Lemma validate_no_cycles_decides_witness :
  exists acyclic : bool,
    @RailGenerator.validate_no_cycles scripted_runtime 5
      [plain_rail "R1" "X" "X" 10 5; plain_rail "R2" "X" "Y" 3 7] = Done acyclic /\
    (acyclic = true <->
     loop_free [plain_rail "R1" "X" "X" 10 5; plain_rail "R2" "X" "Y" 3 7]) /\
    (acyclic = true ->
     no_self_rail [plain_rail "R1" "X" "X" 10 5; plain_rail "R2" "X" "Y" 3 7] ->
     ~ has_cycle [plain_rail "R1" "X" "X" 10 5; plain_rail "R2" "X" "Y" 3 7]) /\
    (acyclic = false ->
     has_cycle [plain_rail "R1" "X" "X" 10 5; plain_rail "R2" "X" "Y" 3 7]).
Proof.
  apply (@validate_no_cycles_decides scripted_runtime 5
           [plain_rail "R1" "X" "X" 10 5; plain_rail "R2" "X" "Y" 3 7]).
  vm_compute. lia.
Defined.

(** A rail from X to itself closes a cycle, and the check accepts it. *)
Example validate_no_cycles_accepts_self_rail :
  @RailGenerator.validate_no_cycles scripted_runtime 5
    [plain_rail "R1" "X" "X" 10 5; plain_rail "R2" "X" "Y" 3 7] = Done true /\
  has_cycle [plain_rail "R1" "X" "X" 10 5; plain_rail "R2" "X" "Y" 3 7].
Proof.
  split; [by vm_compute|]. exists "X". apply tc_once.
  exists (plain_rail "R1" "X" "X" 10 5). split; [by left|done].
Qed.

(** ** The properties on the galaxy of three systems *)

Lemma find_source_vein_systems_sorted_witness :
  let sources := RailGenerator.find_source_vein_systems tie_galaxy 1000 in
  find_source_vein_candidates tie_galaxy 1000 = sources /\
  NoDup sources /\
  (forall sid, sid ∈ sources <->
     exists system,
       PyDict.get (Galaxy.systems tie_galaxy) sid = Some system /\
       PrimFloat.leb 1000 (System.gravitium_deposits system) = true) /\
  StronglySorted
    (fun sid1 sid2 =>
       PrimFloat.leb (RailGenerator.deposits_of tie_galaxy sid2)
                     (RailGenerator.deposits_of tie_galaxy sid1) = true)
    sources.
Proof.
  apply (find_source_vein_systems_sorted tie_galaxy 1000).
  cbn. repeat (apply NoDup_cons; split; [set_solver|]). apply NoDup_nil_2.
Defined.

Lemma generate_rail_network_sound_witness :
  exists rails,
    @RailGenerator.generate_rail_network scripted_runtime 10 xyz_uuid4 xyz_generator
      xyz_galaxy None None = Done rails /\
    @network_sound scripted_runtime xyz_galaxy rails.
Proof.
  eexists. split; [by vm_compute|].
  apply (@generate_rail_network_sound scripted_runtime 10 xyz_uuid4 xyz_generator
           xyz_galaxy None None).
  by vm_compute.
Defined.

Lemma generate_rail_network_validates_witness :
  exists rails,
    @RailGenerator.generate_rail_network scripted_runtime 10 xyz_uuid4 xyz_generator
      xyz_galaxy None None = Done rails /\
    (size (rail_systems (PyDict.values rails)) < 10)%nat /\
    exists (ok : bool) (errors : list finding),
      @validate_rail_network scripted_runtime 10 (with_rails xyz_galaxy rails)
      = Done (ok, errors) /\
      forall f, f ∈ errors ->
        (exists rail_id length actual_distance,
           f = LengthMismatch rail_id length actual_distance) \/
        (exists need have, f = InsufficientGravitium need have).
Proof.
  eexists. split; [by vm_compute|]. split; [vm_compute; lia|].
  apply (@generate_rail_network_validates scripted_runtime 10 10 xyz_uuid4
           xyz_generator xyz_galaxy None None).
  - by vm_compute.
  - vm_compute. lia.
Defined.

Lemma generate_rail_network_dated_witness :
  exists rails,
    @RailGenerator.generate_rail_network scripted_runtime 10 xyz_uuid4 xyz_generator
      xyz_galaxy None None = Done rails /\
    StronglySorted
      (fun r1 r2 => Rail.construction_date r1 + construction_year
                    <= Rail.construction_date r2)
      (PyDict.values rails) /\
    match PyDict.values rails with
    | [] => True
    | rail :: _ =>
        Rail.construction_date rail = default RailGenerator.rail_age_start None
    end /\
    RailGenerator.generate_construction_schedule rails
    = map (fun item : string * Rail.t => (item.1, Rail.construction_date item.2)) rails.
Proof.
  eexists. split; [by vm_compute|].
  apply (@generate_rail_network_dated scripted_runtime 10 xyz_uuid4 xyz_generator
           xyz_galaxy None None).
  - intros all_edges self' Hprop.
    assert (exists rest, Done (A:=_) (all_edges, self')
            = Done ([("X", "Y", 5000%float); ("Y", "Z", 5000%float);
                     ("Z", "X", 20000%float)], rest)) as [rest Heq]
      by (eexists; rewrite <- Hprop; reflexivity).
    injection Heq as -> _.
    intros i j Hij.
    assert (i = 0 /\ j = 1 \/ i = 0 /\ j = 2 \/ i = 1 /\ j = 2)%nat
      as [[-> ->]|[[-> ->]|[-> ->]]] by (cbn in Hij; lia);
      vm_compute; discriminate.
  - by vm_compute.
Defined.

Lemma build_minimum_spanning_tree_greedy_witness :
  exists edges,
    @RailGenerator.build_minimum_spanning_tree scripted_runtime xyz_galaxy ["X"]
    = Done edges /\
    @greedy_in_order scripted_runtime xyz_galaxy ["X"]
      (PyDict.keys (Galaxy.systems xyz_galaxy)) edges.
Proof.
  eexists. split; [by vm_compute|].
  apply (@build_minimum_spanning_tree_greedy scripted_runtime xyz_galaxy ["X"]).
  by vm_compute.
Defined.

Lemma add_redundancy_connections_closest_witness :
  exists edges self',
    @RailGenerator.add_redundancy_connections scripted_runtime xyz_generator xyz_galaxy
      [("X", "Y", 5000%float); ("Y", "Z", 5000%float)] 0.1 = Done (edges, self') /\
    edges ≠ [] /\
    NoDup (map (fun e : string * string * float => e.1.1) edges) /\
    forall b t c, (b, t, c) ∈ edges ->
      connections [("X", "Y", 5000%float); ("Y", "Z", 5000%float)] b = 1 /\
      @closest_unconnected scripted_runtime xyz_galaxy
        [("X", "Y", 5000%float); ("Y", "Z", 5000%float)] b t c.
Proof.
  eexists. eexists. split; [reflexivity|]. split; [done|].
  eapply (@add_redundancy_connections_closest scripted_runtime xyz_generator _
            xyz_galaxy [("X", "Y", 5000%float); ("Y", "Z", 5000%float)] _ 0.1).
  reflexivity.
Defined.
